(** * KPFCNN_featureAggre: architecture builder, label remapping, accuracy
      and deformable regulariser

    Shallow embedding of
    [KPConv-PyTorch/models/architectures_sphere_middle_fusion.py].

    Conventions of the embedding
    - Python [int] is [Z]; indices produced by [enumerate] are [nat].
    - The convolution radius [r] is a Python float that is only ever
      multiplied by [2] and by [0.5]; it is modelled by an exact rational
      ([Q]).  Both operations are exact in binary floating point as long as
      no overflow or underflow occurs.
    - The tensors of the regulariser are modelled over the real numbers;
      its repulsion term is modelled a second time in binary32, the
      arithmetic of the tensors.
    - A Python exception is the [Raise] case of [result].
    - [block_decider] and the block classes live in [models/blocks.py], the
      cross-entropy criterion and [argmax] in torch: they are parameters. *)

From Stdlib Require Import ZArith QArith Qpower List String Bool Lia Arith.
From Stdlib Require Import Reals Lra Sorted.
From Stdlib Require SpecFloat.
Import ListNotations.

Open Scope string_scope.
Open Scope list_scope.
Open Scope Z_scope.

(** ** Python primitives used by the source *)

Module Py.

(** [sub in s] on strings. *)
Fixpoint str_in (sub s : string) : bool :=
  match s with
  | EmptyString => String.prefix sub EmptyString
  | String _ s' => String.prefix sub s || str_in sub s'
  end.

(** [l[i]] on lists: a negative index counts from the end, an index outside
    [-len, len) raises IndexError ([None]). *)
Definition getitem {A : Type} (l : list A) (i : Z) : option A :=
  let n := Z.of_nat (List.length l) in
  if 0 <=? i then nth_error l (Z.to_nat i)
  else if - n <=? i then nth_error l (Z.to_nat (n + i))
  else None.

(** [l.pop()]: the last element and the rest, IndexError on the empty list. *)
Definition pop {A : Type} (l : list A) : option (A * list A) :=
  match rev l with
  | [] => None
  | x :: rest => Some (x, rev rest)
  end.

(** [x in l] on a list of indices. *)
Definition mem (x : nat) (l : list nat) : bool := existsb (Nat.eqb x) l.

End Py.

(** ** Exceptions *)

Inductive exn : Type :=
| ValueError (msg : string)
| IndexError
| ZeroDivisionError
| RuntimeError
| OtherError (name : string).

Inductive result (A : Type) : Type :=
| Ok (a : A)
| Raise (e : exn).

Arguments Ok {A} a.
Arguments Raise {A} e.

Definition bind {A B : Type} (m : result A) (k : A -> result B) : result B :=
  match m with
  | Ok a => k a
  | Raise e => Raise e
  end.

Definition of_option {A : Type} (e : exn) (o : option A) : result A :=
  match o with
  | Some a => Ok a
  | None => Raise e
  end.

Definition succeeds {A : Type} (m : result A) : bool :=
  match m with
  | Ok _ => true
  | Raise _ => false
  end.

Declare Scope result_scope.
Delimit Scope result_scope with result.
Notation "x <- m ;; k" := (bind m (fun x => k))
  (at level 100, m at next level, right associativity) : result_scope.
Open Scope result_scope.

(** ** Configuration *)

Record Config : Type := {
  architecture : list string;
  first_subsampling_dl : Q;
  conv_radius : Q;
  in_features_dim_3d : Z;
  in_features_dim_2d : Z;
  first_features_dim : Z;
  num_kernel_points : Z;
  class_w : list Q;
  deform_fitting_mode : string;
  deform_fitting_power : Q;
  deform_lr_factor : Q;
  repulse_extent : Q
}.

(** ** The builder: [KPFCNN_featureAggre.__init__] *)

Module Builder.

(** [UnaryBlock(in_dim, out_dim, use_bn, bn_momentum)], as the head builds it. *)
Record UnaryBlock : Type := {
  u_in_dim : Z;
  u_out_dim : Z;
  u_use_bn : bool;
  u_bn_momentum : Q
}.

(** [torch.nn.CrossEntropyLoss(weight=..., ignore_index=...)]. *)
Record CrossEntropyLoss : Type := {
  ce_weight : option (list Q);
  ce_ignore_index : Z
}.

(** Locals and [self] fields live during the encoder loop (lines 73-138). *)
Record Encoder (Block : Type) : Type := {
  e_layer : Z;
  e_r : Q;
  e_in_dim_3d : Z;
  e_in_dim_2d : Z;
  e_out_dim : Z;
  encoder_blocks_3d : list Block;
  encoder_blocks_2d : list Block;
  encoder_skip_dims : list Z;
  encoder_skips : list nat
}.

(** Locals and [self] fields live during the decoder loop (lines 145-182). *)
Record Decoder (Block : Type) : Type := {
  d_layer : Z;
  d_r : Q;
  d_in_dim : Z;
  d_out_dim : Z;
  decoder_blocks : list Block;
  decoder_concats : list nat
}.

(** The constructed object. *)
Record KPFCNN (Block : Type) : Type := {
  K : Z;
  C : Z;
  enc : Encoder Block;
  dec : Decoder Block;
  head_mlp : UnaryBlock;
  head_softmax : UnaryBlock;
  valid_labels : list Z;
  criterion : CrossEntropyLoss;
  m_deform_fitting_mode : string;
  m_deform_fitting_power : Q;
  m_deform_lr_factor : Q;
  m_repulse_extent : Q
}.

Arguments e_layer {Block}.
Arguments e_r {Block}.
Arguments e_in_dim_3d {Block}.
Arguments e_in_dim_2d {Block}.
Arguments e_out_dim {Block}.
Arguments encoder_blocks_3d {Block}.
Arguments encoder_blocks_2d {Block}.
Arguments encoder_skip_dims {Block}.
Arguments encoder_skips {Block}.
Arguments d_layer {Block}.
Arguments d_r {Block}.
Arguments d_in_dim {Block}.
Arguments d_out_dim {Block}.
Arguments decoder_blocks {Block}.
Arguments decoder_concats {Block}.
Arguments K {Block}.
Arguments C {Block}.
Arguments enc {Block}.
Arguments dec {Block}.
Arguments head_mlp {Block}.
Arguments head_softmax {Block}.
Arguments valid_labels {Block}.
Arguments criterion {Block}.
Arguments m_deform_fitting_mode {Block}.
Arguments m_deform_fitting_power {Block}.
Arguments m_deform_lr_factor {Block}.
Arguments m_repulse_extent {Block}.

Definition equivariant_msg : string :=
  "Equivariant block but features dimension is not a factor of 3".

(** [np.any([tmp in block for tmp in ['pool','strided','upsample','global']])] *)
Definition is_skip_block (block : string) : bool :=
  existsb (fun tmp => Py.str_in tmp block)
          ["pool"; "strided"; "upsample"; "global"].

(** [np.sort] on integer labels (insertion sort). *)
Fixpoint insert_sorted (c : Z) (l : list Z) : list Z :=
  match l with
  | [] => [c]
  | x :: rest => if c <=? x then c :: l else x :: insert_sorted c rest
  end.

Definition np_sort (l : list Z) : list Z := fold_right insert_sorted [] l.

Section WithBlocks.

Variable Block : Type.

(** [block_decider(block, r, in_dim, out_dim, layer, config)] of
    [models/blocks.py]: the block object, or the exception it raises. *)
Variable block_decider : string -> Q -> Z -> Z -> Z -> result Block.

(** Lines 101-104: record the skip tap. *)
Definition record_skip (block_i : nat) (s : Encoder Block) : Encoder Block :=
  {| e_layer := e_layer s;
     e_r := e_r s;
     e_in_dim_3d := e_in_dim_3d s;
     e_in_dim_2d := e_in_dim_2d s;
     e_out_dim := e_out_dim s;
     encoder_blocks_3d := encoder_blocks_3d s;
     encoder_blocks_2d := encoder_blocks_2d s;
     encoder_skip_dims := encoder_skip_dims s ++ [e_in_dim_3d s + e_in_dim_2d s];
     encoder_skips := encoder_skips s ++ [block_i] |}.

(** Lines 101-104: the tap is recorded when the descriptor matches. *)
Definition tap (block_i : nat) (block : string) (s : Encoder Block)
  : Encoder Block :=
  if is_skip_block block then record_skip block_i s else s.

(** Lines 110-138: append the two tower blocks, update the input widths and,
    on a pooling or strided block, move to the next layer. *)
Definition apply_block (block : string) (b3 b2 : Block) (s : Encoder Block)
  : Encoder Block :=
  let in_dim := if Py.str_in "simple" block then e_out_dim s / 2
                else e_out_dim s in
  let sub := Py.str_in "pool" block || Py.str_in "strided" block in
  {| e_layer := if sub then e_layer s + 1 else e_layer s;
     e_r := if sub then (e_r s * 2)%Q else e_r s;
     e_in_dim_3d := in_dim;
     e_in_dim_2d := in_dim;
     e_out_dim := if sub then e_out_dim s * 2 else e_out_dim s;
     encoder_blocks_3d := encoder_blocks_3d s ++ [b3];
     encoder_blocks_2d := encoder_blocks_2d s ++ [b2];
     encoder_skip_dims := encoder_skip_dims s;
     encoder_skips := encoder_skips s |}.

(** One iteration of the encoder loop (lines 95-138).  The boolean tells
    whether the loop was left by [break]. *)
Definition encoder_step (block_i : nat) (block : string) (s : Encoder Block)
  : result (Encoder Block * bool) :=
  if Py.str_in "equivariant" block && negb (e_out_dim s mod 3 =? 0)
  then Raise (ValueError equivariant_msg)
  else
    let s1 := tap block_i block s in
    if Py.str_in "upsample" block then Ok (s1, true)
    else
      b3 <- block_decider block (e_r s1) (e_in_dim_3d s1) (e_out_dim s1)
                          (e_layer s1) ;;
      b2 <- block_decider block (e_r s1) (e_in_dim_2d s1) (e_out_dim s1)
                          (e_layer s1) ;;
      Ok (apply_block block b3 b2 s1, false).

(** [for block_i, block in enumerate(config.architecture)], from [block_i]. *)
Fixpoint encoder_loop (block_i : nat) (blocks : list string)
  (s : Encoder Block) : result (Encoder Block) :=
  match blocks with
  | [] => Ok s
  | block :: rest =>
      sb <- encoder_step block_i block s ;;
      if snd sb then Ok (fst sb)
      else encoder_loop (S block_i) rest (fst sb)
  end.

(** Lines 148-153: index of the first upsampling block, [start_i] if none. *)
Fixpoint find_start (block_i : nat) (blocks : list string) (start_i : nat)
  : nat :=
  match blocks with
  | [] => start_i
  | block :: rest =>
      if Py.str_in "upsample" block then block_i
      else find_start (S block_i) rest start_i
  end.

(** Lines 163-164: add the skip width and mark the concat. *)
Definition add_skip (block_i : nat) (w : Z) (s : Decoder Block)
  : Decoder Block :=
  {| d_layer := d_layer s;
     d_r := d_r s;
     d_in_dim := d_in_dim s + w;
     d_out_dim := d_out_dim s;
     decoder_blocks := decoder_blocks s;
     decoder_concats := decoder_concats s ++ [block_i] |}.

(** Lines 161-164: the skip width is added when the previous block of the
    architecture is an upsampling block. *)
Definition concat_skip (arch : list string) (start_i : nat)
  (skip_dims : list Z) (block_i : nat) (s : Decoder Block)
  : result (Decoder Block) :=
  prev_up <- (if (0 <? block_i)%nat
              then prev <- of_option IndexError
                             (nth_error arch (start_i + block_i - 1)) ;;
                   Ok (Py.str_in "upsample" prev)
              else Ok false) ;;
  if prev_up : bool then
    w <- of_option IndexError (Py.getitem skip_dims (d_layer s)) ;;
    Ok (add_skip block_i w s)
  else Ok s.

(** Lines 166-182: append the block, feed its width forward and, on an
    upsampling block, move back one layer. *)
Definition apply_decoder_block (block : string) (b : Block)
  (s : Decoder Block) : Decoder Block :=
  let up := Py.str_in "upsample" block in
  {| d_layer := if up then d_layer s - 1 else d_layer s;
     d_r := if up then (d_r s * (1 # 2))%Q else d_r s;
     d_in_dim := d_out_dim s;
     d_out_dim := if up then d_out_dim s / 2 else d_out_dim s;
     decoder_blocks := decoder_blocks s ++ [b];
     decoder_concats := decoder_concats s |}.

(** One iteration of the decoder loop (lines 159-182). *)
Definition decoder_step (arch : list string) (start_i : nat)
  (skip_dims : list Z) (block_i : nat) (block : string) (s : Decoder Block)
  : result (Decoder Block) :=
  s1 <- concat_skip arch start_i skip_dims block_i s ;;
  b <- block_decider block (d_r s1) (d_in_dim s1) (d_out_dim s1)
                     (d_layer s1) ;;
  Ok (apply_decoder_block block b s1).

(** [for block_i, block in enumerate(config.architecture[start_i:])]. *)
Fixpoint decoder_loop (arch : list string) (start_i : nat)
  (skip_dims : list Z) (block_i : nat) (blocks : list string)
  (s : Decoder Block) : result (Decoder Block) :=
  match blocks with
  | [] => Ok s
  | block :: rest =>
      s' <- decoder_step arch start_i skip_dims block_i block s ;;
      decoder_loop arch start_i skip_dims (S block_i) rest s'
  end.

(** State at line 93, before the encoder loop. *)
Definition encoder_init (config : Config) : Encoder Block :=
  {| e_layer := 0;
     e_r := (first_subsampling_dl config * conv_radius config)%Q;
     e_in_dim_3d := in_features_dim_3d config;
     e_in_dim_2d := in_features_dim_2d config;
     e_out_dim := first_features_dim config;
     encoder_blocks_3d := [];
     encoder_blocks_2d := [];
     encoder_skip_dims := [];
     encoder_skips := [] |}.

(** State at line 157, before the decoder loop. *)
Definition decoder_init (e : Encoder Block) : Decoder Block :=
  {| d_layer := e_layer e;
     d_r := e_r e;
     d_in_dim := e_in_dim_3d e + e_in_dim_2d e;
     d_out_dim := e_out_dim e;
     decoder_blocks := [];
     decoder_concats := [] |}.

(** Lines 73-138. *)
Definition build_encoder (config : Config) : result (Encoder Block) :=
  encoder_loop 0 (architecture config) (encoder_init config).

(** Lines 145-182. *)
Definition build_decoder (config : Config) (e : Encoder Block)
  : result (Decoder Block) :=
  let arch := architecture config in
  let start_i := find_start 0 arch 0%nat in
  decoder_loop arch start_i (encoder_skip_dims e) 0 (skipn start_i arch)
               (decoder_init e).

(** Lines 196-200. *)
Definition choose_criterion (config : Config) : CrossEntropyLoss :=
  if (0 <? List.length (class_w config))%nat
  then {| ce_weight := Some (class_w config); ce_ignore_index := -1 |}
  else {| ce_weight := None; ce_ignore_index := -1 |}.

(** Line 193. *)
Definition make_valid_labels (lbl_values ign_lbls : list Z) : list Z :=
  np_sort (filter (fun c => negb (existsb (Z.eqb c) ign_lbls)) lbl_values).

(** [__init__], lines 65-207.  The feature aggregation module and the frozen
    2D network (lines 209-228) are built by external code and are not part
    of the model. *)
Definition init (config : Config) (lbl_values ign_lbls : list Z)
  : result (KPFCNN Block) :=
  let c := Z.of_nat (List.length lbl_values)
           - Z.of_nat (List.length ign_lbls) in
  e <- build_encoder config ;;
  d <- build_decoder config e ;;
  Ok {| K := num_kernel_points config;
        C := c;
        enc := e;
        dec := d;
        head_mlp := {| u_in_dim := d_out_dim d;
                       u_out_dim := first_features_dim config;
                       u_use_bn := false;
                       u_bn_momentum := 0 |};
        head_softmax := {| u_in_dim := first_features_dim config;
                           u_out_dim := c;
                           u_use_bn := false;
                           u_bn_momentum := 0 |};
        valid_labels := make_valid_labels lbl_values ign_lbls;
        criterion := choose_criterion config;
        m_deform_fitting_mode := deform_fitting_mode config;
        m_deform_fitting_power := deform_fitting_power config;
        m_deform_lr_factor := deform_lr_factor config;
        m_repulse_extent := repulse_extent config |}.

End WithBlocks.

Section WithExternal.

Variable Block : Type.
Variable block_decider : string -> Q -> Z -> Z -> Z -> result Block.

(** [UnaryBlock(in_dim, out_dim, use_bn, bn_momentum)] of
    [models/blocks.py], as lines 184-185 call it for the two head layers:
    it returns, or raises. *)
Variable unary_block : UnaryBlock -> result unit.

(** Lines 212-227: [FeatureAggregation], [UNetResNet34], [torch.load] of
    the checkpoint file and [load_state_dict] are code and data outside this
    file: together they return, or raise. *)
Variable external_networks : result unit.

(** [__init__], lines 65-230.  Nothing between the decoder loop and line
    212 can fail but the two [UnaryBlock] calls, so they are run after the
    bookkeeping of [init]. *)
Definition construct (config : Config) (lbl_values ign_lbls : list Z)
  : result (KPFCNN Block) :=
  m <- init Block block_decider config lbl_values ign_lbls ;;
  h1 <- unary_block (head_mlp m) ;;
  h2 <- unary_block (head_softmax m) ;;
  n <- external_networks ;;
  Ok m.

End WithExternal.

End Builder.

(** ** Skip bookkeeping of [forward] (lines 289-312)

    Only the control flow around [skip_x] is modelled: the feature tensors,
    the block applications and the tensor operations are parameters. *)

Module Forward.

Fixpoint list_set {A : Type} (l : list A) (i : nat) (v : A) : list A :=
  match l, i with
  | [], _ => []
  | _ :: rest, O => v :: rest
  | x :: rest, S i' => x :: list_set rest i' v
  end.

(** The two encoder passes when every tensor operation returns. *)
Section Replay.

Variables Block X : Type.
Variable block_op : Block -> X -> X.
Variable cat : X -> X -> X.

(** Lines 292-296: the 3D tower captures the raw taps. *)
Fixpoint encoder_3d (skips : list nat) (block_i : nat) (ops : list Block)
  (skip_x : list X) (x_3d : X) : list X * X :=
  match ops with
  | [] => (skip_x, x_3d)
  | op :: rest =>
      let skip_x' := if Py.mem block_i skips then skip_x ++ [x_3d]
                     else skip_x in
      encoder_3d skips (S block_i) rest skip_x' (block_op op x_3d)
  end.

(** Lines 298-303: the 2D tower concatenates onto the captured taps. *)
Fixpoint encoder_2d (skips : list nat) (block_i : nat) (ops : list Block)
  (skip_x : list X) (index : nat) (x_2d : X) : result (list X * X) :=
  match ops with
  | [] => Ok (skip_x, x_2d)
  | op :: rest =>
      si <- (if Py.mem block_i skips
             then t <- of_option IndexError (nth_error skip_x index) ;;
                  Ok (list_set skip_x index (cat t x_2d), S index)
             else Ok (skip_x, index)) ;;
      encoder_2d skips (S block_i) rest (fst si) (snd si) (block_op op x_2d)
  end.

End Replay.

(** The same loops and the decoder loop with the tensor operations as the
    code calls them: each one returns, or raises (a shape that does not
    fit, for instance). *)
Section Run.

Variables Block X : Type.

(** [block_op(x, batch)] *)
Variable block_op : Block -> X -> result X.

(** [torch.cat([a, b], dim=1)] *)
Variable cat : X -> X -> result X.

(** [torch.mean(torch.stack([a, b]), 0)] *)
Variable mean : X -> X -> result X.

(** Lines 292-296. *)
Fixpoint run_encoder_3d (skips : list nat) (block_i : nat) (ops : list Block)
  (skip_x : list X) (x_3d : X) : result (list X * X) :=
  match ops with
  | [] => Ok (skip_x, x_3d)
  | op :: rest =>
      let skip_x' := if Py.mem block_i skips then skip_x ++ [x_3d]
                     else skip_x in
      x' <- block_op op x_3d ;;
      run_encoder_3d skips (S block_i) rest skip_x' x'
  end.

(** Lines 298-303. *)
Fixpoint run_encoder_2d (skips : list nat) (block_i : nat) (ops : list Block)
  (skip_x : list X) (index : nat) (x_2d : X) : result (list X * X) :=
  match ops with
  | [] => Ok (skip_x, x_2d)
  | op :: rest =>
      si <- (if Py.mem block_i skips
             then t <- of_option IndexError (nth_error skip_x index) ;;
                  c <- cat t x_2d ;;
                  Ok (list_set skip_x index c, S index)
             else Ok (skip_x, index)) ;;
      x' <- block_op op x_2d ;;
      run_encoder_2d skips (S block_i) rest (fst si) (snd si) x'
  end.

(** Lines 309-312: the decoder pops one tap per concat marker. *)
Fixpoint run_decoder (concats : list nat) (block_i : nat) (ops : list Block)
  (skip_x : list X) (x : X) : result X :=
  match ops with
  | [] => Ok x
  | op :: rest =>
      xs <- (if Py.mem block_i concats
             then ts <- of_option IndexError (Py.pop skip_x) ;;
                  c <- cat x (fst ts) ;;
                  Ok (c, snd ts)
             else Ok (x, skip_x)) ;;
      x' <- block_op op (fst xs) ;;
      run_decoder concats (S block_i) rest (snd xs) x'
  end.

(** Lines 292-312, from the two input features to the decoder output. *)
Definition forward_blocks (self : Builder.KPFCNN Block) (x_3d x_2d : X)
  : result X :=
  let e := Builder.enc self in
  let d := Builder.dec self in
  r3 <- run_encoder_3d (Builder.encoder_skips e) 0
                       (Builder.encoder_blocks_3d e) [] x_3d ;;
  r2 <- run_encoder_2d (Builder.encoder_skips e) 0
                       (Builder.encoder_blocks_2d e) (fst r3) 0 x_2d ;;
  x <- mean (snd r3) (snd r2) ;;
  run_decoder (Builder.decoder_concats d) 0 (Builder.decoder_blocks d)
              (fst r2) x.

End Run.

End Forward.

(** ** Label remapping, [loss] and [accuracy] (lines 320-372) *)

Module Labels.

(** [- torch.ones_like(labels)] *)
Definition neg_ones_like (labels : list Z) : list Z :=
  map (fun _ => -1) labels.

(** [target[labels == c] = i] *)
Definition masked_assign (labels : list Z) (c i : Z) (target : list Z)
  : list Z :=
  map (fun lt => if fst lt =? c then i else snd lt) (combine labels target).

(** Lines 329-331 of [loss]. *)
Fixpoint loss_target_loop (i : nat) (valid : list Z) (labels target : list Z)
  : list Z :=
  match valid with
  | [] => target
  | c :: rest =>
      loss_target_loop (S i) rest labels
                       (masked_assign labels c (Z.of_nat i) target)
  end.

Definition loss_target (valid labels : list Z) : list Z :=
  loss_target_loop 0 valid labels (neg_ones_like labels).

(** Lines 364-366 of [accuracy]. *)
Fixpoint accuracy_target_loop (i : nat) (valid : list Z)
  (labels target : list Z) : list Z :=
  match valid with
  | [] => target
  | c :: rest =>
      accuracy_target_loop (S i) rest labels
                           (masked_assign labels c (Z.of_nat i) target)
  end.

Definition accuracy_target (valid labels : list Z) : list Z :=
  accuracy_target_loop 0 valid labels (neg_ones_like labels).

Definition p2plane_msg : string :=
  "point2plane fitting mode not implemented yet.".

Definition unknown_mode_msg (mode : string) : string :=
  ("Unknown fitting mode: " ++ mode)%string.

(** [(predicted == target).sum().item()] on two tensors of one dimension:
    the comparison is elementwise when the shapes agree, a tensor of one
    element is broadcast against the other, and any other pair of shapes
    raises RuntimeError. *)
Definition count_equal (predicted target : list Z) : result nat :=
  if (List.length predicted =? List.length target)%nat
  then Ok (List.length (filter (fun pt => fst pt =? snd pt)
                               (combine predicted target)))
  else match predicted, target with
       | [p], _ => Ok (List.length (filter (fun t => p =? t) target))
       | _, [t] => Ok (List.length (filter (fun p => p =? t) predicted))
       | _, _ => Raise RuntimeError
       end.

Section WithTorch.

Variables Block Logits Scalar : Type.

(** [criterion(outputs, target)] after the reshaping of lines 337-339. *)
Variable cross_entropy : Builder.CrossEntropyLoss -> Logits -> list Z -> Scalar.

(** [p2p_fitting_regularizer(self)], on the kernel points the last forward
    pass left in the deformable blocks. *)
Variable p2p_fitting_regularizer : Builder.KPFCNN Block -> Scalar.

Variable add : Scalar -> Scalar -> Scalar.

(** [torch.argmax(outputs.data, dim=1)] *)
Variable argmax : Logits -> list Z.

(** [loss], lines 320-353.  The debugging [print] is not modelled. *)
Definition loss (self : Builder.KPFCNN Block) (outputs : Logits)
  (labels : list Z) : result Scalar :=
  let target := loss_target (Builder.valid_labels self) labels in
  let output_loss := cross_entropy (Builder.criterion self) outputs target in
  let mode := Builder.m_deform_fitting_mode self in
  if String.eqb mode "point2point"
  then Ok (add output_loss (p2p_fitting_regularizer self))
  else if String.eqb mode "point2plane"
  then Raise (ValueError p2plane_msg)
  else Raise (ValueError (unknown_mode_msg mode)).

(** [accuracy], lines 355-372, on a label tensor of one dimension.
    [correct / total] is the exact quotient. *)
Definition accuracy (self : Builder.KPFCNN Block) (outputs : Logits)
  (labels : list Z) : result Q :=
  let target := accuracy_target (Builder.valid_labels self) labels in
  let predicted := argmax outputs in
  let total := List.length target in
  correct <- count_equal predicted target ;;
  match total with
  | O => Raise ZeroDivisionError
  | S _ => Ok (Z.of_nat correct # Pos.of_nat total)
  end.

End WithTorch.

End Labels.

(** ** [p2p_fitting_regularizer] (lines 24-57), over the real numbers *)

Module Regularizer.

Local Open Scope R_scope.

(** The fields of a [KPConv] block the regulariser reads:
    [min_d2] has shape [(n_points, K)], [deformed_KP] has shape
    [(n_points, K, dim)]. *)
Record KPConv : Type := {
  deformable : bool;
  KP_extent : R;
  min_d2 : list (list R);
  deformed_KP : list (list (list R))
}.

(** An element of [net.modules()]. *)
Inductive module : Type :=
| KPConvModule (m : KPConv)
| OtherModule.

(** The fields of [net] the regulariser reads. *)
Record Net : Type := {
  net_K : nat;
  net_repulse_extent : R;
  net_deform_fitting_power : R;
  modules : list module
}.

Definition Rsum (l : list R) : R := fold_right Rplus 0 l.

(** [net.l1(x, torch.zeros_like(x))]: the mean absolute value. *)
Definition l1_zeros (x : list R) : R :=
  Rsum (map (fun v => Rabs (v - 0)) x) / INR (List.length x).

(** [torch.sum((other - kp) ** 2)] over the coordinates of one point. *)
Definition sum_sq_diff (other kp : list R) : R :=
  Rsum (map (fun ok => (fst ok - snd ok) ^ 2) (combine other kp)).

(** [torch.clamp_max(x, max=0.0)] *)
Definition clamp_max0 (x : R) : R := Rmin x 0.

(** Lines 52-53 for one input point: the distances from kernel point [i] to
    the other kernel points.  The code indexes a tensor that holds [net.K]
    kernel points; with fewer than [i + 1] line 53 raises, and the
    statements about the repulsion term assume the shape. *)
Definition distances (kps : list (list R)) (i : nat) : list R :=
  match nth_error kps i with
  | Some kp =>
      map (fun other => sqrt (sum_sq_diff other kp))
          (firstn i kps ++ skipn (S i) kps)
  | None => []
  end.

(** Line 54 for one input point. *)
Definition rep_loss (extent : R) (kps : list (list R)) (i : nat) : R :=
  Rsum (map (fun d => clamp_max0 (d - extent) ^ 2) (distances kps i)).

(** Line 48. *)
Definition KP_locs (m : KPConv) : list (list (list R)) :=
  map (map (map (fun v => v / KP_extent m))) (deformed_KP m).

(** Line 38. *)
Definition KP_min_d2 (m : KPConv) : list (list R) :=
  map (map (fun v => v / KP_extent m ^ 2)) (min_d2 m).

(** Line 55: the increment of [repulsive_loss] for kernel point [i]. *)
Definition repulsive_increment (net : Net) (locs : list (list (list R)))
  (i : nat) : R :=
  l1_zeros (map (fun kps => rep_loss (net_repulse_extent net) kps i) locs)
  / INR (net_K net).

(** Lines 51-55. *)
Definition repulsive_of_module (net : Net) (m : KPConv) (acc : R) : R :=
  fold_left (fun rl i => rl + repulsive_increment net (KP_locs m) i)
            (seq 0 (net_K net)) acc.

(** The body of the loop over [net.modules()]; the accumulator is
    [(fitting_loss, repulsive_loss)]. *)
Definition module_step (net : Net) (acc : R * R) (md : module) : R * R :=
  match md with
  | KPConvModule m =>
      if deformable m
      then (fst acc + l1_zeros (List.concat (KP_min_d2 m)),
            repulsive_of_module net m (snd acc))
      else acc
  | OtherModule => acc
  end.

Definition losses (net : Net) : R * R :=
  fold_left (module_step net) (modules net) (0, 0).

Definition fitting_loss (net : Net) : R := fst (losses net).

Definition repulsive_loss (net : Net) : R := snd (losses net).

Definition p2p_fitting_regularizer (net : Net) : R :=
  net_deform_fitting_power net * (2 * fitting_loss net + repulsive_loss net).

End Regularizer.

(** ** The repulsion term (lines 43-55) in the arithmetic of the tensors

    The tensors are float32: IEEE 754 binary32, rounded to nearest even, as
    [SpecFloat] specifies it.  A Python scalar that enters a tensor
    operation takes the dtype of the tensor. *)

Module Binary32.

Definition prec : Z := 24.
Definition emax : Z := 128.

Definition float32 : Type := SpecFloat.spec_float.

Definition zero : float32 := SpecFloat.S754_zero false.

(** The integer [z] as a float32. *)
Definition of_Z (z : Z) : float32 :=
  SpecFloat.binary_normalize prec emax z 0 false.


Definition add : float32 -> float32 -> float32 := SpecFloat.SFadd prec emax.
Definition sub : float32 -> float32 -> float32 := SpecFloat.SFsub prec emax.
Definition mul : float32 -> float32 -> float32 := SpecFloat.SFmul prec emax.
Definition div : float32 -> float32 -> float32 := SpecFloat.SFdiv prec emax.
Definition sqrt : float32 -> float32 := SpecFloat.SFsqrt prec emax.
Definition abs : float32 -> float32 := SpecFloat.SFabs.
Definition ltb : float32 -> float32 -> bool := SpecFloat.SFltb.

(** [torch.clamp_max(x, max=0.0)] *)
Definition clamp_max0 (x : float32) : float32 :=
  if ltb zero x then zero else x.

(** [torch.sum], accumulated from the left. *)
Definition sum (l : list float32) : float32 := fold_left add l zero.

End Binary32.

Module Regularizer32.
Import Binary32.

(** The fields of a [KPConv] block the repulsion term reads. *)
Record KPConv : Type := {
  deformable : bool;
  KP_extent : float32;
  deformed_KP : list (list (list float32))
}.

Inductive module : Type :=
| KPConvModule (m : KPConv)
| OtherModule.

Record Net : Type := {
  net_K : nat;
  net_repulse_extent : float32;
  modules : list module
}.

(** [net.l1(x, torch.zeros_like(x))]: the mean absolute value. *)
Definition l1_zeros (x : list float32) : float32 :=
  div (sum (map (fun v => abs (sub v zero)) x))
      (of_Z (Z.of_nat (List.length x))).

(** [torch.sum((other - kp) ** 2)] over the coordinates of one point. *)
Definition sum_sq_diff (other kp : list float32) : float32 :=
  sum (map (fun ok => mul (sub (fst ok) (snd ok)) (sub (fst ok) (snd ok)))
           (combine other kp)).

(** The distance, as line 53 computes it, between two kernel points. *)
Definition distance (other kp : list float32) : float32 :=
  sqrt (sum_sq_diff other kp).

(** Lines 52-53 for one input point. *)
Definition distances (kps : list (list float32)) (i : nat) : list float32 :=
  match nth_error kps i with
  | Some kp => map (fun other => distance other kp)
                   (firstn i kps ++ skipn (S i) kps)
  | None => []
  end.

(** Line 54 for one input point. *)
Definition rep_loss (extent : float32) (kps : list (list float32)) (i : nat)
  : float32 :=
  sum (map (fun d => mul (clamp_max0 (sub d extent))
                         (clamp_max0 (sub d extent)))
           (distances kps i)).

(** Line 48. *)
Definition KP_locs (m : KPConv) : list (list (list float32)) :=
  map (map (map (fun v => div v (KP_extent m)))) (deformed_KP m).

(** Line 55: the increment of [repulsive_loss] for kernel point [i]. *)
Definition repulsive_increment (net : Net)
  (locs : list (list (list float32))) (i : nat) : float32 :=
  div (l1_zeros (map (fun kps => rep_loss (net_repulse_extent net) kps i)
                     locs))
      (of_Z (Z.of_nat (net_K net))).

(** Lines 51-55. *)
Definition repulsive_of_module (net : Net) (m : KPConv) (acc : float32)
  : float32 :=
  fold_left (fun rl i => add rl (repulsive_increment net (KP_locs m) i))
            (seq 0 (net_K net)) acc.

(** [repulsive_loss] after the loop over [net.modules()]. *)
Definition repulsive_loss (net : Net) : float32 :=
  fold_left (fun acc md =>
               match md with
               | KPConvModule m =>
                   if deformable m then repulsive_of_module net m acc
                   else acc
               | OtherModule => acc
               end)
            (modules net) zero.

End Regularizer32.

(** ** Vocabulary for stating properties of an architecture list *)

Module Arch.

Definition is_upsample (block : string) : bool := Py.str_in "upsample" block.

Definition is_subsampling (block : string) : bool :=
  Py.str_in "pool" block || Py.str_in "strided" block.

Definition is_equivariant (block : string) : bool :=
  Py.str_in "equivariant" block.

(** The blocks before the first upsampling block: those the encoder loop
    builds. *)
Fixpoint encoder_part (blocks : list string) : list string :=
  match blocks with
  | [] => []
  | block :: rest =>
      if is_upsample block then [] else block :: encoder_part rest
  end.

(** The slice [config.architecture[start_i:]] the decoder loop walks. *)
Definition decoder_part (arch : list string) : list string :=
  skipn (Builder.find_start 0 arch 0%nat) arch.

Definition count (p : string -> bool) (blocks : list string) : Z :=
  Z.of_nat (List.length (filter p blocks)).

(** Pooling or strided transitions processed by the encoder loop. *)
Definition pooling_transitions (arch : list string) : Z :=
  count is_subsampling (encoder_part arch).

(** Upsampling transitions processed by the decoder loop. *)
Definition upsampling_transitions (arch : list string) : Z :=
  count is_upsample (decoder_part arch).

Definition no_upsample (blocks : list string) : Prop :=
  forallb (fun block => negb (is_upsample block)) blocks = true.

(** The blocks the encoder loop looks at: the encoder part and the
    upsampling block that ends it. *)
Fixpoint encoder_visited (blocks : list string) : list string :=
  match blocks with
  | [] => []
  | block :: rest =>
      if is_upsample block then [block] else block :: encoder_visited rest
  end.

(** Upsampling blocks of the decoder slice that are followed by a block:
    each one makes the next iteration look up a skip width. *)
Definition skip_lookups (arch : list string) : Z :=
  count is_upsample (removelast (decoder_part arch)).

(** [prev_is_upsample arch start_i block_i p]: [p] tells whether the decoder
    iteration [block_i] sees an upsampling block just before it. *)
Definition prev_is_upsample (arch : list string) (start_i block_i : nat)
  (p : bool) : Prop :=
  match block_i with
  | O => p = false
  | S i' => exists prev, nth_error arch (start_i + i') = Some prev /\
                         is_upsample prev = p
  end.

End Arch.

(** ** Concrete inputs used to exercise the statements *)

Module Samples.

(** A [block_decider] that accepts every descriptor and keeps the arguments
    it was called with. *)
Definition recorded_block : Type := string * Q * Z * Z * Z.

Definition record_args (block : string) (r : Q) (in_dim out_dim layer : Z)
  : result recorded_block :=
  Ok (block, r, in_dim, out_dim, layer).

Definition config_of (arch : list string) (width : Z) (mode : string)
  : Config :=
  {| architecture := arch;
     first_subsampling_dl := 3 # 100;
     conv_radius := 5 # 2;
     in_features_dim_3d := 4;
     in_features_dim_2d := 64;
     first_features_dim := width;
     num_kernel_points := 15;
     class_w := [];
     deform_fitting_mode := mode;
     deform_fitting_power := 1;
     deform_lr_factor := 1 # 10;
     repulse_extent := 12 # 10 |}.

Definition one_level_arch : list string :=
  ["simple"; "resnetb"; "resnetb_strided"; "resnetb"; "upsample"; "unary"].

Definition two_level_arch : list string :=
  ["simple"; "resnetb_strided"; "resnetb"; "resnetb_strided"; "resnetb";
   "nearest_upsample"; "unary"; "nearest_upsample"; "unary"].

Definition shallow_arch : list string :=
  ["simple"; "nearest_upsample"; "unary"].

Definition equivariant_arch : list string :=
  ["simple"; "resnetb_equivariant"; "resnetb"].

Definition lbl_values : list Z := [0; 1; 2; 3].

Definition ign_lbls : list Z := [0].

End Samples.

(** ** Vocabulary for the label remapping and the configuration *)

Module LabelSpec.

(** What the remapping loop, started at index [i] with value [t], leaves in
    one entry whose label is [l]. *)
Fixpoint remap_entry (i : nat) (valid : list Z) (l t : Z) : Z :=
  match valid with
  | [] => t
  | c :: rest => remap_entry (S i) rest l (if l =? c then Z.of_nat i else t)
  end.

(** The list [0, 1, ..., n-1]. *)
Definition iota (n : nat) : list Z := map Z.of_nat (seq 0 n).

(** The number of valid labels below [l]: its rank in a sorted list. *)
Definition rank (valid : list Z) (l : Z) : Z :=
  Z.of_nat (List.length (filter (fun c => c <? l) valid)).

End LabelSpec.

(** The configuration with another [deform_fitting_mode]. *)
Definition set_deform_fitting_mode (config : Config) (mode : string)
  : Config :=
  {| architecture := architecture config;
     first_subsampling_dl := first_subsampling_dl config;
     conv_radius := conv_radius config;
     in_features_dim_3d := in_features_dim_3d config;
     in_features_dim_2d := in_features_dim_2d config;
     first_features_dim := first_features_dim config;
     num_kernel_points := num_kernel_points config;
     class_w := class_w config;
     deform_fitting_mode := mode;
     deform_fitting_power := deform_fitting_power config;
     deform_lr_factor := deform_lr_factor config;
     repulse_extent := repulse_extent config |}.

(** ** Vocabulary for the regulariser *)

Module RegularizerSpec.
Import Regularizer.
Local Open Scope R_scope.

(** What one element of [net.modules()] adds to [repulsive_loss]. *)
Definition repulsive_contribution (net : Net) (md : module) : R :=
  match md with
  | KPConvModule m =>
      if deformable m
      then Rsum (map (repulsive_increment net (KP_locs m))
                     (seq 0 (net_K net)))
      else 0
  | OtherModule => 0
  end.

(** The distance, as line 53 computes it, between two kernel points. *)
Definition distance (other kp : list R) : R := sqrt (sum_sq_diff other kp).


End RegularizerSpec.

(** ** Concrete kernel-point configurations *)

Module KernelSamples.
Import Regularizer.
Local Open Scope R_scope.

(** One deformable block, one input point, two kernel points on a line at
    distance [gap]. *)
Definition two_points (gap : R) : KPConv :=
  {| deformable := true;
     KP_extent := 1;
     min_d2 := [[0; 0]];
     deformed_KP := [[[0]; [gap]]] |}.

Definition net_of (gap : R) : Net :=
  {| net_K := 2;
     net_repulse_extent := 1;
     net_deform_fitting_power := 1;
     modules := [OtherModule; KPConvModule (two_points gap)] |}.

End KernelSamples.

(** Two coincident kernel points and a repulsion extent of [2 ** -100], in
    binary32. *)
Module KernelSamples32.
Import Binary32 Regularizer32.




End KernelSamples32.

(** ** Vocabulary for the skip bookkeeping *)

Module SkipSpec.

(** The indices, counted from [block_i], of the blocks that satisfy [p]. *)
Fixpoint positions (p : string -> bool) (block_i : nat)
  (blocks : list string) : list nat :=
  match blocks with
  | [] => []
  | block :: rest =>
      (if p block then [block_i] else []) ++ positions p (S block_i) rest
  end.

(** The iterations of an [enumerate] loop over [n] blocks, started at
    [block_i], whose index is found in [marks]. *)
Definition marked (marks : list nat) (block_i n : nat) : list nat :=
  filter (fun k => Py.mem k marks) (seq block_i n).

Section Features.

Variables Block X : Type.
Variable block_op : Block -> X -> X.

(** The feature that enters block [i] of a tower fed with [x]: the first
    [i] blocks applied in order. *)
Definition entering (ops : list Block) (i : nat) (x : X) : X :=
  fold_left (fun x' op => block_op op x') (firstn i ops) x.

End Features.

Section Operations.

Variables Block X : Type.
Variable block_op : Block -> X -> result X.
Variable cat : X -> X -> result X.
Variable mean : X -> X -> result X.

(** No block application and no concatenation raises. *)
Definition loops_return : Prop :=
  (forall op x, exists y, block_op op x = Ok y) /\
  (forall a b, exists c, cat a b = Ok c).

(** No tensor operation of lines 292-312 raises. *)
Definition ops_return : Prop :=
  loops_return /\ (forall a b, exists c, mean a b = Ok c).

End Operations.

End SkipSpec.

(** ** Vocabulary for the regulariser's modules *)

Module RegularizerVariants.
Import Regularizer.
Local Open Scope R_scope.

(** What one element of [net.modules()] adds to [fitting_loss]. *)
Definition fitting_contribution (md : module) : R :=
  match md with
  | KPConvModule m =>
      if deformable m then l1_zeros (List.concat (KP_min_d2 m)) else 0
  | OtherModule => 0
  end.

(** The test of line 31. *)
Definition is_deformable (md : module) : bool :=
  match md with
  | KPConvModule m => deformable m
  | OtherModule => false
  end.

(** The same network with other modules. *)
Definition with_modules (net : Net) (mods : list module) : Net :=
  {| net_K := net_K net;
     net_repulse_extent := net_repulse_extent net;
     net_deform_fitting_power := net_deform_fitting_power net;
     modules := mods |}.

(** A block whose geometry is scaled by [s]: the extent and the kernel
    points by [s], the squared distances by [s ^ 2]. *)
Definition scale_KPConv (s : R) (m : KPConv) : KPConv :=
  {| deformable := deformable m;
     KP_extent := s * KP_extent m;
     min_d2 := map (map (fun v => s ^ 2 * v)) (min_d2 m);
     deformed_KP := map (map (map (fun v => s * v))) (deformed_KP m) |}.

Definition scale_module (s : R) (md : module) : module :=
  match md with
  | KPConvModule m => KPConvModule (scale_KPConv s m)
  | OtherModule => OtherModule
  end.

End RegularizerVariants.

(** ** Vocabulary for the accuracy *)

Module AccuracySpec.




End AccuracySpec.

Module EncoderFacts.
Import Builder Arch.

Section Facts.

Variable Block : Type.
Variable block_decider : string -> Q -> Z -> Z -> Z -> result Block.

Local Abbreviation encoder_step := (Builder.encoder_step Block block_decider).
Local Abbreviation encoder_loop := (Builder.encoder_loop Block block_decider).
Local Abbreviation record_skip := (Builder.record_skip Block).
Local Abbreviation apply_block := (Builder.apply_block Block).

Local Abbreviation tapped := (Builder.tap Block).

Lemma encoder_step_inv block_i block s s' brk :
  encoder_step block_i block s = Ok (s', brk) ->
  (is_equivariant block && negb (e_out_dim s mod 3 =? 0)) = false /\
  brk = is_upsample block /\
  ((is_upsample block = true /\ s' = tapped block_i block s) \/
   (is_upsample block = false /\
    exists b3 b2,
      block_decider block (e_r s) (e_in_dim_3d s) (e_out_dim s) (e_layer s)
        = Ok b3 /\
      block_decider block (e_r s) (e_in_dim_2d s) (e_out_dim s) (e_layer s)
        = Ok b2 /\
      s' = apply_block block b3 b2 (tapped block_i block s))).
Proof.
  unfold Builder.encoder_step, is_equivariant, is_upsample, Builder.tap.
  destruct (Py.str_in "equivariant" block && _); [discriminate|].
  intros H. split; [reflexivity|].
  destruct (Py.str_in "upsample" block).
  - inversion H; subst. split; [reflexivity|]. left. split; reflexivity.
  - assert (Hs : forall f : Encoder Block -> Z, 
       (f = e_in_dim_3d \/ f = e_in_dim_2d \/ f = e_out_dim \/ f = e_layer) -> f (if is_skip_block block then record_skip block_i s else s) = f s).
    { intros f Hf. destruct (is_skip_block block); [|reflexivity].
      destruct Hf as [-> | [-> | [-> | ->]]]; reflexivity. }
    assert (Hr : e_r (if is_skip_block block then record_skip block_i s else s) = e_r s).
    { destruct (is_skip_block block); reflexivity. }
    rewrite Hr, !Hs in H by auto.
    destruct (block_decider block (e_r s) (e_in_dim_3d s) _ _) as [b3|] eqn:E3; [|discriminate].
    destruct (block_decider block (e_r s) (e_in_dim_2d s) _ _) as [b2|] eqn:E2; [|discriminate].
    cbn in H. inversion H; subst. split; [reflexivity|]. right.
    split; [reflexivity|]. exists b3, b2. repeat split; reflexivity.
Qed.


Lemma tapped_fields block_i block s :
  e_layer (tapped block_i block s) = e_layer s /\
  e_r (tapped block_i block s) = e_r s /\
  e_out_dim (tapped block_i block s) = e_out_dim s /\
  e_in_dim_3d (tapped block_i block s) = e_in_dim_3d s /\
  e_in_dim_2d (tapped block_i block s) = e_in_dim_2d s /\
  encoder_blocks_3d (tapped block_i block s) = encoder_blocks_3d s /\
  encoder_blocks_2d (tapped block_i block s) = encoder_blocks_2d s.
Proof.
  unfold Builder.tap. destruct (is_skip_block block); repeat split.
Qed.

Lemma count_cons p block rest :
  count p (block :: rest) = (if p block then 1 else 0) + count p rest.
Proof.
  unfold count. cbn [filter]. destruct (p block); cbn [List.length]; lia.
Qed.

Lemma count_nonneg p blocks : 0 <= count p blocks.
Proof. unfold count. lia. Qed.

Lemma Qpower2_succ (n : Z) : (2 ^ (1 + n) == 2 * 2 ^ n)%Q.
Proof. rewrite Qpower_plus by discriminate. reflexivity. Qed.

Lemma Qpower2_pred (n : Z) : (2 ^ (n - 1) == 2 ^ n * (1 # 2))%Q.
Proof.
  unfold Z.sub. rewrite Qpower_plus by discriminate. reflexivity.
Qed.

(** The encoder loop moves [layer], [r] and [out_dim] by one doubling per
    pooling or strided block it builds. *)
Lemma encoder_loop_law blocks : forall block_i s s',
  encoder_loop block_i blocks s = Ok s' ->
  let n := count is_subsampling (encoder_part blocks) in
  e_layer s' = e_layer s + n /\
  (e_r s' == e_r s * 2 ^ n)%Q /\
  e_out_dim s' = e_out_dim s * 2 ^ n.
Proof.
  induction blocks as [|block rest IH]; intros block_i s s' H.
  - cbn in H. inversion H; subst. cbn. repeat split; try lia.
    change (2 ^ 0)%Q with 1%Q. now rewrite Qmult_1_r.
  - cbn [Builder.encoder_loop] in H.
    destruct (encoder_step block_i block s) as [[s1 brk]|] eqn:E;
      [|discriminate].
    cbn [bind fst snd] in H.
    apply encoder_step_inv in E. destruct E as (_ & -> & E).
    cbn [encoder_part].
    destruct E as [(Hu & ->) | (Hu & b3 & b2 & _ & _ & ->)]; rewrite Hu in *.
    + inversion H; subst.
      destruct (tapped_fields block_i block s) as (-> & -> & -> & _).
      cbn. repeat split; try lia.
      change (2 ^ 0)%Q with 1%Q. now rewrite Qmult_1_r.
    + apply IH in H. cbn zeta in H. destruct H as (Hl & Hr & Ho).
      rewrite count_cons. cbn zeta.
      pose proof (count_nonneg is_subsampling (encoder_part rest)) as Hn.
      set (n := count is_subsampling (encoder_part rest)) in *.
      destruct (tapped_fields block_i block s) as (Tl & Tr & To & _).
      cbn [apply_block Builder.apply_block e_layer e_r e_out_dim] in Hl, Hr, Ho.
      fold (is_subsampling block) in Hl, Hr, Ho.
      rewrite Tl, Tr, To in *.
      destruct (is_subsampling block).
      * repeat split.
        -- lia.
        -- rewrite Hr, Qpower2_succ. ring.
        -- rewrite Ho, Z.pow_add_r by lia. ring.
      * cbn [Z.add]. repeat split; try lia. exact Hr.
Qed.


Lemma encoder_loop_app pre : forall post block_i s,
  no_upsample pre ->
  encoder_loop block_i (pre ++ post) s =
  (s1 <- encoder_loop block_i pre s ;;
   encoder_loop (block_i + List.length pre) post s1).
Proof.
  induction pre as [|block rest IH]; intros post block_i s Hpre.
  - cbn. now rewrite Nat.add_0_r.
  - unfold no_upsample in Hpre. cbn [forallb] in Hpre.
    apply andb_true_iff in Hpre. destruct Hpre as [Hb Hrest].
    apply negb_true_iff in Hb.
    cbn [app Builder.encoder_loop List.length].
    destruct (encoder_step block_i block s) as [[s1 brk]|] eqn:E;
      [|reflexivity].
    apply encoder_step_inv in E. destruct E as (_ & -> & _).
    rewrite Hb. cbn [bind fst snd].
    rewrite IH by exact Hrest. now rewrite Nat.add_succ_r.
Qed.

(** What one iteration does to the registries and to the block lists. *)
Lemma encoder_step_grows block_i block s s' brk :
  encoder_step block_i block s = Ok (s', brk) ->
  exists sk dm b3 b2,
    encoder_skips s' = encoder_skips s ++ sk /\
    encoder_skip_dims s' = encoder_skip_dims s ++ dm /\
    encoder_blocks_3d s' = encoder_blocks_3d s ++ b3 /\
    encoder_blocks_2d s' = encoder_blocks_2d s ++ b2 /\
    List.length sk = List.length dm /\
    List.length b3 = List.length b2 /\
    List.length b3 = (if brk then 0 else 1)%nat.
Proof.
  intros E. apply encoder_step_inv in E. destruct E as (_ & -> & E).
  assert (T : exists sk dm,
             encoder_skips (tapped block_i block s) = encoder_skips s ++ sk /\
             encoder_skip_dims (tapped block_i block s)
               = encoder_skip_dims s ++ dm /\
             List.length sk = List.length dm).
  { unfold Builder.tap. destruct (is_skip_block block).
    - eexists _, _. cbn. repeat split.
    - exists [], []. rewrite !app_nil_r. repeat split. }
  destruct T as (sk & dm & T1 & T2 & T3).
  destruct (tapped_fields block_i block s) as (_ & _ & _ & _ & _ & B3 & B2).
  destruct E as [(Hu & ->) | (Hu & b3 & b2 & _ & _ & ->)]; rewrite Hu.
  - exists sk, dm, [], []. rewrite !app_nil_r. repeat split; assumption.
  - exists sk, dm, [b3], [b2]. cbn. rewrite B3, B2. repeat split; assumption.
Qed.

Lemma encoder_loop_grows blocks : forall block_i s s',
  encoder_loop block_i blocks s = Ok s' ->
  exists sk dm b3 b2,
    encoder_skips s' = encoder_skips s ++ sk /\
    encoder_skip_dims s' = encoder_skip_dims s ++ dm /\
    encoder_blocks_3d s' = encoder_blocks_3d s ++ b3 /\
    encoder_blocks_2d s' = encoder_blocks_2d s ++ b2 /\
    List.length sk = List.length dm /\
    List.length b3 = List.length b2 /\
    List.length b3 = List.length (encoder_part blocks).
Proof.
  induction blocks as [|block rest IH]; intros block_i s s' H.
  - cbn in H. inversion H; subst. exists [], [], [], [].
    rewrite !app_nil_r. repeat split.
  - cbn [Builder.encoder_loop] in H.
    destruct (encoder_step block_i block s) as [[s1 brk]|] eqn:E;
      [|discriminate].
    cbn [bind fst snd] in H.
    pose proof (encoder_step_grows _ _ _ _ _ E)
      as (sk & dm & b3 & b2 & H1 & H2 & H3 & H4 & H5 & H6 & H7).
    apply encoder_step_inv in E. destruct E as (_ & -> & _).
    cbn [encoder_part].
    destruct (is_upsample block).
    + inversion H; subst. exists sk, dm, b3, b2. repeat split; assumption.
    + apply IH in H.
      destruct H as (sk' & dm' & b3' & b2' & G1 & G2 & G3 & G4 & G5 & G6 & G7).
      exists (sk ++ sk'), (dm ++ dm'), (b3 ++ b3'), (b2 ++ b2').
      rewrite G1, G2, G3, G4, H1, H2, H3, H4, !app_assoc, !length_app.
      cbn [List.length]. repeat split; lia.
Qed.


Lemma encoder_part_no_upsample blocks :
  no_upsample blocks -> encoder_part blocks = blocks.
Proof.
  unfold no_upsample. induction blocks as [|block rest IH]; cbn; [easy|].
  intros H. apply andb_true_iff in H. destruct H as [Hb Hrest].
  apply negb_true_iff in Hb. rewrite Hb. now rewrite IH.
Qed.

Lemma nth_error_middle {A : Type} (l1 l2 : list A) (x : A) :
  nth_error ((l1 ++ [x]) ++ l2) (List.length l1) = Some x.
Proof.
  rewrite <- app_assoc. rewrite nth_error_app2 by lia.
  now rewrite Nat.sub_diag.
Qed.

(** Splitting a successful run of the encoder loop at a block it reaches. *)
Lemma encoder_loop_reaches pre block post s0 e :
  no_upsample pre ->
  encoder_loop 0 (pre ++ block :: post) s0 = Ok e ->
  exists s s1 brk,
    encoder_loop 0 pre s0 = Ok s /\
    encoder_step (List.length pre) block s = Ok (s1, brk) /\
    (if brk then Ok s1 else encoder_loop (S (List.length pre)) post s1) = Ok e.
Proof.
  intros Hpre H. rewrite encoder_loop_app in H by exact Hpre.
  destruct (encoder_loop 0 pre s0) as [s|] eqn:E; [|discriminate].
  cbn [bind Builder.encoder_loop Nat.add] in H.
  destruct (encoder_step (List.length pre) block s) as [[s1 brk]|] eqn:E1;
    [|discriminate].
  cbn [bind fst snd] in H. now exists s, s1, brk.
Qed.


Lemma double_mod3 (x : Z) : (x * 2) mod 3 = 0 <-> x mod 3 = 0.
Proof.
  pose proof (Z.mod_pos_bound x 3 ltac:(lia)) as Hb.
  pose proof (Z.div_mod x 3 ltac:(lia)) as Hx.
  pose proof (Z.mod_pos_bound (x * 2) 3 ltac:(lia)) as Hb2.
  pose proof (Z.div_mod (x * 2) 3 ltac:(lia)) as Hx2.
  lia.
Qed.

Lemma subsampling_is_skip block :
  is_subsampling block = true -> is_skip_block block = true.
Proof.
  unfold is_subsampling, is_skip_block. cbn [existsb].
  intros H. apply orb_true_iff in H. destruct H as [-> | ->]; cbn;
    rewrite ?orb_true_r; reflexivity.
Qed.

Lemma upsample_is_skip block :
  is_upsample block = true -> is_skip_block block = true.
Proof.
  unfold is_upsample, is_skip_block. cbn [existsb].
  intros ->. rewrite ?orb_true_r. reflexivity.
Qed.

Lemma transitions_le_taps blocks :
  count is_subsampling (encoder_part blocks)
  <= count is_skip_block (encoder_visited blocks).
Proof.
  induction blocks as [|block rest IH]; cbn [encoder_part encoder_visited].
  - unfold count; cbn; lia.
  - destruct (is_upsample block) eqn:Hu.
    + unfold count; cbn; lia.
    + rewrite !count_cons.
      destruct (is_subsampling block) eqn:Hs.
      * rewrite (subsampling_is_skip _ Hs). lia.
      * destruct (is_skip_block block); lia.
Qed.

(** The skip registry gets one entry per visited block that matches. *)
Lemma encoder_loop_taps blocks : forall block_i s s',
  encoder_loop block_i blocks s = Ok s' ->
  Z.of_nat (List.length (encoder_skip_dims s')) =
  Z.of_nat (List.length (encoder_skip_dims s))
  + count is_skip_block (encoder_visited blocks).
Proof.
  induction blocks as [|block rest IH]; intros block_i s s' H.
  - cbn in H. inversion H; subst. unfold count; cbn; lia.
  - cbn [Builder.encoder_loop] in H.
    destruct (encoder_step block_i block s) as [[s1 brk]|] eqn:E;
      [|discriminate].
    cbn [bind fst snd] in H.
    apply encoder_step_inv in E. destruct E as (_ & -> & E).
    cbn [encoder_visited].
    assert (T : Z.of_nat (List.length
                  (encoder_skip_dims (tapped block_i block s))) =
                Z.of_nat (List.length (encoder_skip_dims s))
                + (if is_skip_block block then 1 else 0)).
    { unfold Builder.tap. destruct (is_skip_block block); cbn.
      - rewrite length_app. cbn. lia.
      - lia. }
    destruct E as [(Hu & ->) | (Hu & b3 & b2 & _ & _ & ->)]; rewrite Hu in *.
    + inversion H; subst. rewrite T, count_cons.
      change (count is_skip_block []) with 0. lia.
    + apply IH in H. rewrite H. cbn [apply_block Builder.apply_block
        encoder_skip_dims]. rewrite T, count_cons. lia.
Qed.

(** With every descriptor accepted by [block_decider], the encoder loop can
    only fail on the equivariance check. *)
Lemma encoder_loop_succeeds blocks : forall block_i s,
  (forall block, In block blocks ->
     forall r i o l, exists b, block_decider block r i o l = Ok b) ->
  (exists s', encoder_loop block_i blocks s = Ok s') <->
  (e_out_dim s mod 3 = 0 \/
   existsb is_equivariant (encoder_visited blocks) = false).
Proof.
  induction blocks as [|block rest IH]; intros block_i s Hbd.
  - cbn. split; [now right | intros _; now exists s].
  - cbn [Builder.encoder_loop encoder_visited].
    unfold Builder.encoder_step. fold (is_equivariant block).
    fold (is_upsample block).
    destruct (tapped_fields block_i block s) as (Tl & Tr & To & T3 & T2 & _).
    rewrite Tl, Tr, To, T3, T2.
    destruct (Z.eqb_spec (e_out_dim s mod 3) 0) as [Hm|Hm].
    + rewrite andb_false_r.
      destruct (is_upsample block).
      * cbn. split; [now left | intros _; eexists; reflexivity].
      * destruct (Hbd block (or_introl eq_refl) (e_r s) (e_in_dim_3d s)
                      (e_out_dim s) (e_layer s)) as [b3 ->].
        destruct (Hbd block (or_introl eq_refl) (e_r s) (e_in_dim_2d s)
                      (e_out_dim s) (e_layer s)) as [b2 ->].
        cbn [bind fst snd]. rewrite IH by (intros b' Hb'; apply Hbd; now right).
        split; [now left|]. intros _. left.
        cbn [apply_block Builder.apply_block e_out_dim]. rewrite To.
        destruct (_ || _); [now apply double_mod3 | assumption].
    + rewrite andb_true_r.
      destruct (is_equivariant block) eqn:He.
      * cbn [bind]. split; [intros [s' H]; discriminate|].
        intros [H|H]; [contradiction|].
        destruct (is_upsample block); cbn [existsb] in H; rewrite He in H;
          discriminate.
      * destruct (is_upsample block).
        -- cbn. rewrite He. split; [now right | intros _; eexists; reflexivity].
        -- destruct (Hbd block (or_introl eq_refl) (e_r s) (e_in_dim_3d s)
                         (e_out_dim s) (e_layer s)) as [b3 ->].
           destruct (Hbd block (or_introl eq_refl) (e_r s) (e_in_dim_2d s)
                         (e_out_dim s) (e_layer s)) as [b2 ->].
           cbn [bind fst snd existsb]. rewrite He, orb_false_l.
           rewrite IH by (intros b' Hb'; apply Hbd; now right).
           cbn [apply_block Builder.apply_block e_out_dim]. rewrite To.
           assert (Hm' : (if Py.str_in "pool" block || Py.str_in "strided" block
                          then e_out_dim s * 2 else e_out_dim s) mod 3 <> 0).
           { destruct (_ || _); [rewrite double_mod3|]; assumption. }
           split; (intros [H|H]; [contradiction | now right]).
Qed.

(** With every descriptor accepted by [block_decider], the encoder loop can
    only fail in the equivariance check. *)
Lemma encoder_loop_raises blocks : forall block_i s e,
  (forall block, In block blocks ->
     forall r i o l, exists b, block_decider block r i o l = Ok b) ->
  encoder_loop block_i blocks s = Raise e ->
  e = ValueError equivariant_msg.
Proof.
  induction blocks as [|block rest IH]; intros block_i s e Hbd H.
  - discriminate.
  - cbn [Builder.encoder_loop] in H.
    unfold Builder.encoder_step in H.
    destruct (Py.str_in "equivariant" block && negb (e_out_dim s mod 3 =? 0)).
    + cbn [bind] in H. congruence.
    + destruct (Py.str_in "upsample" block).
      * cbn [bind fst snd] in H. discriminate.
      * destruct (Hbd block (or_introl eq_refl)
                      (e_r (tapped block_i block s))
                      (e_in_dim_3d (tapped block_i block s))
                      (e_out_dim (tapped block_i block s))
                      (e_layer (tapped block_i block s))) as [b3 H3].
        destruct (Hbd block (or_introl eq_refl)
                      (e_r (tapped block_i block s))
                      (e_in_dim_2d (tapped block_i block s))
                      (e_out_dim (tapped block_i block s))
                      (e_layer (tapped block_i block s))) as [b2 H2].
        rewrite H3 in H. cbn [bind] in H. rewrite H2 in H.
        cbn [bind fst snd] in H.
        apply IH in H; [exact H|]. intros b Hb. apply Hbd. now right.
Qed.

End Facts.
End EncoderFacts.
Module DecoderFacts.
Import Builder Arch.

Section Facts.

Variable Block : Type.
Variable block_decider : string -> Q -> Z -> Z -> Z -> result Block.

Local Abbreviation concat_skip := (Builder.concat_skip Block).
Local Abbreviation decoder_step := (Builder.decoder_step Block block_decider).
Local Abbreviation decoder_loop := (Builder.decoder_loop Block block_decider).
Local Abbreviation apply_decoder_block := (Builder.apply_decoder_block Block).

Local Abbreviation with_skip := (Builder.add_skip Block).

Lemma concat_skip_view arch start_i dims block_i s p :
  prev_is_upsample arch start_i block_i p ->
  concat_skip arch start_i dims block_i s =
  if p then w <- of_option IndexError (Py.getitem dims (d_layer s)) ;;
            Ok (with_skip block_i w s)
  else Ok s.
Proof.
  unfold Builder.concat_skip, prev_is_upsample.
  destruct block_i as [|i'].
  - intros ->. reflexivity.
  - intros (prev & Hn & <-).
    replace (start_i + S i' - 1)%nat with (start_i + i')%nat by lia.
    cbn [Nat.ltb Nat.leb]. rewrite Hn. cbn [of_option bind].
    reflexivity.
Qed.

Lemma concat_skip_inv arch start_i dims block_i s s1 :
  concat_skip arch start_i dims block_i s = Ok s1 ->
  d_layer s1 = d_layer s /\ d_r s1 = d_r s /\ d_out_dim s1 = d_out_dim s /\
  decoder_blocks s1 = decoder_blocks s.
Proof.
  unfold Builder.concat_skip.
  destruct ((0 <? block_i)%nat).
  - destruct (nth_error arch _) as [prev|]; [|discriminate].
    cbn [of_option bind]. destruct (Py.str_in "upsample" prev).
    + destruct (Py.getitem dims (d_layer s)) as [w|]; [|discriminate].
      cbn. intros H. inversion H; subst. cbn. repeat split.
    + intros H. inversion H; subst. repeat split.
  - cbn. intros H. inversion H; subst. repeat split.
Qed.

Lemma decoder_step_inv arch start_i dims block_i block s s' :
  decoder_step arch start_i dims block_i block s = Ok s' ->
  exists s1 b,
    concat_skip arch start_i dims block_i s = Ok s1 /\
    block_decider block (d_r s1) (d_in_dim s1) (d_out_dim s1) (d_layer s1)
      = Ok b /\
    s' = apply_decoder_block block b s1.
Proof.
  unfold Builder.decoder_step.
  destruct (concat_skip arch start_i dims block_i s) as [s1|]; [|discriminate].
  cbn [bind].
  destruct (block_decider block _ _ _ _) as [b|] eqn:E; [|discriminate].
  cbn [bind]. intros H. inversion H; subst. now exists s1, b.
Qed.

Lemma Zdiv2_pow (x n : Z) : 0 <= n -> x / 2 / 2 ^ n = x / 2 ^ (1 + n).
Proof.
  intros Hn. rewrite Z.pow_add_r by lia. change (2 ^ 1) with 2.
  rewrite Z.div_div by lia. reflexivity.
Qed.

(** The decoder loop moves [layer], [r] and [out_dim] by one halving per
    upsampling block; the width is halved by floor division. *)
Lemma decoder_loop_law arch start_i dims blocks : forall block_i s s',
  decoder_loop arch start_i dims block_i blocks s = Ok s' ->
  let m := count is_upsample blocks in
  d_layer s' = d_layer s - m /\
  (d_r s' == d_r s * 2 ^ (- m))%Q /\
  d_out_dim s' = d_out_dim s / 2 ^ m.
Proof.
  induction blocks as [|block rest IH]; intros block_i s s' H.
  - cbn in H. inversion H; subst. cbn. repeat split; try lia.
    + change (2 ^ (- 0))%Q with 1%Q. now rewrite Qmult_1_r.
    + now rewrite Z.div_1_r.
  - cbn [Builder.decoder_loop] in H.
    destruct (decoder_step arch start_i dims block_i block s) as [s1|] eqn:E;
      [|discriminate].
    cbn [bind] in H. apply IH in H. cbn zeta in H.
    destruct H as (Hl & Hr & Ho).
    apply decoder_step_inv in E. destruct E as (s0 & b & Hc & _ & ->).
    apply concat_skip_inv in Hc. destruct Hc as (Cl & Cr & Co & _).
    rewrite EncoderFacts.count_cons. cbn zeta.
    pose proof (EncoderFacts.count_nonneg is_upsample rest) as Hn.
    set (m := count is_upsample rest) in *.
    cbn [apply_decoder_block Builder.apply_decoder_block
         d_layer d_r d_out_dim] in Hl, Hr, Ho.
    fold (is_upsample block) in Hl, Hr, Ho.
    rewrite Cl, Cr, Co in *.
    destruct (is_upsample block).
    + repeat split.
      * lia.
      * rewrite Hr. replace (- (1 + m)) with (- m - 1) by lia.
        rewrite EncoderFacts.Qpower2_pred. ring.
      * rewrite Ho. apply Zdiv2_pow. lia.
    + cbn [Z.add]. repeat split; try lia; assumption.
Qed.


Lemma getitem_in_range {A : Type} (l : list A) (i : Z) :
  (exists x, Py.getitem l i = Some x) <->
  - Z.of_nat (List.length l) <= i < Z.of_nat (List.length l).
Proof.
  unfold Py.getitem.
  destruct (Z.leb_spec 0 i) as [Hi|Hi].
  - split.
    + intros (x & Hx).
      assert (Hlt : (Z.to_nat i < List.length l)%nat)
        by (apply nth_error_Some; congruence).
      lia.
    + intros Hr.
      destruct (nth_error l (Z.to_nat i)) as [x|] eqn:E; [now exists x|].
      apply nth_error_None in E. lia.
  - destruct (Z.leb_spec (- Z.of_nat (List.length l)) i) as [Hl|Hl].
    + split; [intros _; lia|]. intros _.
      destruct (nth_error l (Z.to_nat (Z.of_nat (List.length l) + i)))
        as [x|] eqn:E; [now exists x|].
      apply nth_error_None in E. lia.
    + split; [intros (x & Hx); discriminate | lia].
Qed.

Lemma skipn_cons_inv {A : Type} (l : list A) : forall n x rest,
  skipn n l = x :: rest -> nth_error l n = Some x /\ skipn (S n) l = rest.
Proof.
  induction l as [|y l IH]; intros n x rest H.
  - rewrite skipn_nil in H. discriminate.
  - destruct n as [|n].
    + cbn in H. inversion H; subst. split; reflexivity.
    + cbn [skipn] in H. apply IH in H. exact H.
Qed.

Lemma removelast_cons_count block rest :
  rest <> [] ->
  count is_upsample (removelast (block :: rest)) =
  (if is_upsample block then 1 else 0) + count is_upsample (removelast rest).
Proof.
  intros Hr. destruct rest as [|b' rest']; [congruence|].
  cbn [removelast]. now rewrite EncoderFacts.count_cons.
Qed.

(** With every descriptor accepted by [block_decider], the decoder loop can
    only fail in the lookup of a skip width. *)
Lemma decoder_loop_raises arch start_i dims blocks : forall block_i s e,
  (forall block, In block blocks ->
     forall r i o l, exists b, block_decider block r i o l = Ok b) ->
  decoder_loop arch start_i dims block_i blocks s = Raise e ->
  e = IndexError.
Proof.
  induction blocks as [|block rest IH]; intros block_i s e Hbd H.
  - discriminate.
  - cbn [Builder.decoder_loop] in H. unfold Builder.decoder_step in H.
    destruct (concat_skip arch start_i dims block_i s) as [s1|e1] eqn:Hc.
    + cbn [bind] in H.
      destruct (Hbd block (or_introl eq_refl) (d_r s1) (d_in_dim s1)
                    (d_out_dim s1) (d_layer s1)) as [b Hb].
      rewrite Hb in H. cbn [bind] in H.
      apply IH in H; [exact H|]. intros b' Hb'. apply Hbd. now right.
    + cbn [bind] in H. injection H as <-.
      unfold Builder.concat_skip in Hc.
      destruct (0 <? block_i)%nat.
      * destruct (nth_error arch (start_i + block_i - 1)) as [prev|];
          cbn [of_option bind] in Hc; [|congruence].
        destruct (Py.str_in "upsample" prev); [|discriminate].
        destruct (Py.getitem dims (d_layer s)) as [w|];
          cbn [of_option bind] in Hc; [discriminate | congruence].
      * cbn [bind] in Hc. discriminate.
Qed.

Section Success.

Variable arch : list string.
Variable start_i : nat.
Variable dims : list Z.

Let len : Z := Z.of_nat (List.length dims).

(** The decoder loop succeeds exactly when every skip width it looks up is
    in range; [layer] only decreases, so the deepest lookup decides. *)
Lemma decoder_loop_succeeds blocks : forall block_i s p,
  (forall block, In block blocks ->
     forall r i o l, exists b, block_decider block r i o l = Ok b) ->
  skipn (start_i + block_i) arch = blocks ->
  prev_is_upsample arch start_i block_i p ->
  d_layer s <= len - (if p then 1 else 0) ->
  let cnt := count is_upsample (removelast blocks) in
  (exists s', decoder_loop arch start_i dims block_i blocks s = Ok s') <->
  (blocks = [] \/ ((p = true \/ 0 < cnt) -> cnt <= d_layer s + len)).
Proof.
  induction blocks as [|block rest IH]; intros block_i s p Hbd Hskip Hp Hl.
  - cbn. split; [now left | intros _; now exists s].
  - cbn zeta.
    destruct (skipn_cons_inv _ _ _ _ Hskip) as [Hnth Hrest].
    cbn [Builder.decoder_loop]. unfold Builder.decoder_step.
    rewrite (concat_skip_view _ _ _ _ _ _ Hp).
    pose proof (EncoderFacts.count_nonneg is_upsample (removelast rest))
      as Hcnt.
    assert (Hnext : forall s1,
      d_layer s1 = d_layer s ->
      (exists s',
         (s' <- (b <- block_decider block (d_r s1) (d_in_dim s1)
                        (d_out_dim s1) (d_layer s1) ;;
                 Ok (apply_decoder_block block b s1)) ;;
          decoder_loop arch start_i dims (S block_i) rest s') = Ok s') <->
      (rest = [] \/
       ((is_upsample block = true \/
         0 < count is_upsample (removelast rest)) ->
        count is_upsample (removelast rest)
        <= d_layer s - (if is_upsample block then 1 else 0) + len))).
    { intros s1 Hs1.
      destruct (Hbd block (or_introl eq_refl) (d_r s1) (d_in_dim s1)
                    (d_out_dim s1) (d_layer s1)) as [b Hb].
      rewrite Hb. cbn [bind].
      rewrite (IH (S block_i) (apply_decoder_block block b s1)
                  (is_upsample block)).
      - cbn [apply_decoder_block Builder.apply_decoder_block d_layer].
        fold (is_upsample block). rewrite Hs1.
        destruct (is_upsample block); [reflexivity|].
        now rewrite Z.sub_0_r.
      - intros b' Hb'. apply Hbd. now right.
      - rewrite Nat.add_succ_r. exact Hrest.
      - cbn [prev_is_upsample]. now exists block.
      - cbn [apply_decoder_block Builder.apply_decoder_block d_layer].
        fold (is_upsample block). rewrite Hs1.
        destruct (is_upsample block), p; lia. }
    destruct rest as [|b' rest'] eqn:Erest.
    + (* the last block *)
      change (count is_upsample (removelast [block])) with 0.
      destruct p.
      * destruct (Py.getitem dims (d_layer s)) as [w|] eqn:G.
        -- cbn [of_option bind]. rewrite (Hnext (with_skip block_i w s))
             by reflexivity.
           assert (Hin : exists x, Py.getitem dims (d_layer s) = Some x)
             by now exists w.
           apply getitem_in_range in Hin. fold len in Hin.
           split; intros _; [right; lia | now left].
        -- cbn [of_option bind].
           assert (Hout : ~ (- len <= d_layer s < len)).
           { intros Hr. apply getitem_in_range in Hr.
             destruct Hr as [x Hx]. congruence. }
           split; [intros [s' H]; discriminate|].
           intros [H|H]; [discriminate|]. lia.
      * cbn [bind]. rewrite (Hnext s) by reflexivity.
        split; intros _; [right; lia | now left].
    + rewrite <- Erest in *.
      assert (Hne : rest <> []) by (rewrite Erest; discriminate).
      rewrite (removelast_cons_count block rest Hne).
      set (cnt' := count is_upsample (removelast rest)) in *.
      destruct p.
      * destruct (Py.getitem dims (d_layer s)) as [w|] eqn:G.
        -- cbn [of_option bind]. rewrite (Hnext (with_skip block_i w s))
             by reflexivity.
           assert (Hin : exists x, Py.getitem dims (d_layer s) = Some x)
             by now exists w.
           apply getitem_in_range in Hin. fold len in Hin.
           split.
           ++ intros [H|H]; [contradiction|]. right. intros _.
              destruct (is_upsample block); lia.
           ++ intros [H|H]; [discriminate|]. right. intros _.
              destruct (is_upsample block); lia.
        -- cbn [of_option bind].
           assert (Hout : ~ (- len <= d_layer s < len)).
           { intros Hr. apply getitem_in_range in Hr.
             destruct Hr as [x Hx]. congruence. }
           split; [intros [s' H]; discriminate|].
           intros [H|H]; [discriminate|].
           destruct (is_upsample block); lia.
      * cbn [bind]. rewrite (Hnext s) by reflexivity.
        split.
        -- intros [H|H]; [contradiction|]. right. intros [H'|H'];
             [discriminate|].
           destruct (is_upsample block); [|lia].
           assert (cnt' <= d_layer s - 1 + len) by (apply H; now left). lia.
        -- intros [H|H]; [discriminate|]. right. intros H'.
           destruct (is_upsample block); [|destruct H'; [discriminate|]]; lia.
Qed.

End Success.

End Facts.
End DecoderFacts.
(** * Properties of the label remapping, the loss and the accuracy *)

Module LabelFacts.
Import Labels LabelSpec.

Lemma masked_assign_length labels c i target :
  List.length labels = List.length target ->
  List.length (masked_assign labels c i target) = List.length labels.
Proof.
  intros H. unfold masked_assign. rewrite length_map, length_combine. lia.
Qed.

Lemma loss_target_loop_pointwise valid : forall i labels target,
  List.length labels = List.length target ->
  loss_target_loop i valid labels target =
  map (fun lt => remap_entry i valid (fst lt) (snd lt))
      (combine labels target).
Proof.
  induction valid as [|c rest IH]; intros i labels target Hlen.
  - cbn. revert target Hlen.
    induction labels as [|l labels IHl]; intros [|t target] Hlen;
      cbn in *; try discriminate; [reflexivity|].
    f_equal. apply IHl. lia.
  - cbn [loss_target_loop remap_entry].
    rewrite IH by (rewrite masked_assign_length; [reflexivity | exact Hlen]).
    unfold masked_assign. clear IH. revert target Hlen.
    induction labels as [|l labels IHl]; intros [|t target] Hlen;
      cbn in *; try discriminate; [reflexivity|].
    f_equal. apply IHl. lia.
Qed.

Lemma loss_target_pointwise valid labels :
  loss_target valid labels = map (fun l => remap_entry 0 valid l (-1)) labels.
Proof.
  unfold loss_target, neg_ones_like.
  rewrite loss_target_loop_pointwise by now rewrite length_map.
  induction labels as [|l labels IH]; cbn; [reflexivity|]. now rewrite IH.
Qed.

Lemma targets_agree_loop valid : forall i labels target,
  loss_target_loop i valid labels target
  = accuracy_target_loop i valid labels target.
Proof.
  induction valid as [|c rest IH]; intros i labels target; cbn;
    [reflexivity | apply IH].
Qed.

(** An entry keeps its start value when the label is not valid; otherwise
    it is the position of the label in the list, counted from [i]. *)
Lemma remap_entry_spec valid : forall i l t,
  (remap_entry i valid l t = t /\ ~ In l valid) \/
  (exists k, remap_entry i valid l t = Z.of_nat (i + k) /\
             nth_error valid k = Some l).
Proof.
  induction valid as [|c rest IH]; intros i l t; cbn [remap_entry].
  - left. split; [reflexivity | intros []].
  - destruct (IH (S i) l (if l =? c then Z.of_nat i else t))
      as [[Hr Hn] | (k & Hr & Hk)].
    + destruct (Z.eqb_spec l c) as [->|Hne].
      * right. exists 0%nat. rewrite Hr, Nat.add_0_r. split; reflexivity.
      * left. split; [exact Hr|]. intros [H|H]; [congruence | contradiction].
    + right. exists (S k). rewrite Hr. split; [f_equal; lia | exact Hk].
Qed.

Lemma remap_entry_iota n : forall i l t,
  (forall j, (i <= j < i + n)%nat -> l = Z.of_nat j -> False) ->
  remap_entry i (map Z.of_nat (seq i n)) l t = t.
Proof.
  induction n as [|n IH]; intros i l t H; cbn; [reflexivity|].
  destruct (Z.eqb_spec l (Z.of_nat i)) as [E|E].
  - exfalso. apply (H i); [lia | exact E].
  - apply IH. intros j Hj. apply H. lia.
Qed.

Lemma remap_entry_iota_hit n : forall i j t,
  (i <= j < i + n)%nat ->
  remap_entry i (map Z.of_nat (seq i n)) (Z.of_nat j) t = Z.of_nat j.
Proof.
  induction n as [|n IH]; intros i j t Hj; [lia|]. cbn.
  destruct (Z.eqb_spec (Z.of_nat j) (Z.of_nat i)) as [E|E].
  - apply Nat2Z.inj in E. subst j.
    apply remap_entry_iota. intros j Hj' Hij. apply Nat2Z.inj in Hij. lia.
  - apply IH. assert (j <> i) by congruence. lia.
Qed.

(** On the labels [0..n-1] the remapping fixes every value it produces. *)
Lemma remap_entry_iota_fixed n l :
  let t := remap_entry 0 (iota n) l (-1) in
  remap_entry 0 (iota n) t (-1) = t.
Proof.
  cbn zeta. unfold iota.
  destruct (remap_entry_spec (map Z.of_nat (seq 0 n)) 0 l (-1))
    as [[Hr _] | (k & Hr & Hk)]; rewrite Hr.
  - apply remap_entry_iota. intros j _ Hj. lia.
  - cbn [Nat.add]. apply remap_entry_iota_hit.
    assert (k < List.length (map Z.of_nat (seq 0 n)))%nat
      by (apply nth_error_Some; congruence).
    rewrite length_map, length_seq in H. lia.
Qed.

Lemma rank_of_sorted valid : forall k l,
  StronglySorted Z.lt valid ->
  nth_error valid k = Some l ->
  rank valid l = Z.of_nat k.
Proof.
  unfold rank.
  induction valid as [|c rest IH]; intros k l Hs Hk.
  - destruct k; discriminate.
  - inversion Hs as [|? ? Hs' Hall]; subst.
    destruct k as [|k]; cbn in Hk.
    + inversion Hk; subst. cbn [filter]. rewrite Z.ltb_irrefl.
      assert (E : filter (fun c => c <? l) rest = []).
      { clear IH Hs Hs' Hk.
        induction rest as [|x rest IHr]; [reflexivity|]. cbn.
        inversion Hall; subst.
        destruct (Z.ltb_spec x l); [lia | now apply IHr]. }
      now rewrite E.
    + assert (Hlt : c < l).
      { rewrite Forall_forall in Hall. apply Hall.
        eapply nth_error_In; eassumption. }
      cbn [filter]. destruct (Z.ltb_spec c l); [|lia].
      cbn [List.length]. rewrite Nat2Z.inj_succ.
      rewrite (IH k l Hs' Hk). lia.
Qed.

End LabelFacts.

(** * Properties of the deformable regulariser *)

Module RegularizerFacts.
Import Regularizer RegularizerSpec.
Local Open Scope R_scope.

Lemma Rsum_nil : Rsum [] = 0.
Proof. reflexivity. Qed.

Lemma Rsum_cons (x : R) (l : list R) : Rsum (x :: l) = x + Rsum l.
Proof. reflexivity. Qed.

Lemma Rsum_nonneg (l : list R) :
  (forall x, In x l -> 0 <= x) -> 0 <= Rsum l.
Proof.
  induction l as [|x l IH]; intros H; [rewrite Rsum_nil; lra|].
  rewrite Rsum_cons.
  assert (0 <= x) by (apply H; now left).
  assert (0 <= Rsum l) by (apply IH; intros y Hy; apply H; now right).
  lra.
Qed.



Lemma div_INR_nonneg (a : R) (n : nat) : 0 <= a -> 0 <= a / INR n.
Proof.
  intros Ha. destruct n as [|n].
  - cbn [INR]. unfold Rdiv. rewrite Rinv_0. lra.
  - apply Rmult_le_pos; [exact Ha|].
    apply Rlt_le, Rinv_0_lt_compat, lt_0_INR. lia.
Qed.


Lemma fold_left_plus {A : Type} (f : A -> R) (l : list A) : forall acc,
  fold_left (fun rl i => rl + f i) l acc = acc + Rsum (map f l).
Proof.
  induction l as [|x l IH]; intros acc; cbn [fold_left map].
  - rewrite Rsum_nil. lra.
  - rewrite IH, Rsum_cons. lra.
Qed.



Lemma clamp_sq_nonneg (x : R) : 0 <= clamp_max0 x ^ 2.
Proof. apply pow2_ge_0. Qed.



Lemma rep_loss_nonneg extent kps i : 0 <= rep_loss extent kps i.
Proof.
  unfold rep_loss. apply Rsum_nonneg. intros x Hx.
  apply in_map_iff in Hx. destruct Hx as (d & <- & _).
  apply clamp_sq_nonneg.
Qed.

Lemma l1_zeros_nonneg (x : list R) : 0 <= l1_zeros x.
Proof.
  unfold l1_zeros. apply div_INR_nonneg, Rsum_nonneg.
  intros y Hy. apply in_map_iff in Hy. destruct Hy as (v & <- & _).
  apply Rabs_pos.
Qed.

Lemma repulsive_increment_nonneg net locs i :
  0 <= repulsive_increment net locs i.
Proof. unfold repulsive_increment. apply div_INR_nonneg, l1_zeros_nonneg. Qed.

(** What one module adds to [repulsive_loss]. *)
Lemma module_step_snd net acc md :
  snd (module_step net acc md) = snd acc + repulsive_contribution net md.
Proof.
  destruct md as [m|]; cbn [module_step repulsive_contribution]; [|lra].
  destruct (deformable m); cbn [snd]; [|lra].
  unfold repulsive_of_module. apply fold_left_plus.
Qed.

Lemma losses_snd net mods : forall acc,
  snd (fold_left (module_step net) mods acc) =
  snd acc + Rsum (map (repulsive_contribution net) mods).
Proof.
  induction mods as [|md mods IH]; intros acc; cbn [fold_left map].
  - rewrite Rsum_nil. lra.
  - rewrite IH, module_step_snd, Rsum_cons. lra.
Qed.

Lemma repulsive_loss_sum net :
  repulsive_loss net = Rsum (map (repulsive_contribution net) (modules net)).
Proof.
  unfold repulsive_loss, losses. rewrite losses_snd. cbn [snd]. lra.
Qed.

Lemma repulsive_contribution_nonneg net md :
  0 <= repulsive_contribution net md.
Proof.
  destruct md as [m|]; cbn [repulsive_contribution]; [|lra].
  destruct (deformable m); [|lra].
  apply Rsum_nonneg. intros x Hx. apply in_map_iff in Hx.
  destruct Hx as (i & <- & _). apply repulsive_increment_nonneg.
Qed.



End RegularizerFacts.

(** * The skip bookkeeping of the forward pass *)

Module ForwardFacts.
Import SkipSpec.

Lemma pop_nil {A : Type} : Py.pop (@nil A) = None.
Proof. reflexivity. Qed.

Lemma pop_snoc {A : Type} (l : list A) (x : A) :
  Py.pop (l ++ [x]) = Some (x, l).
Proof.
  unfold Py.pop. rewrite rev_app_distr. cbn. now rewrite rev_involutive.
Qed.

Lemma pop_length {A : Type} (l : list A) :
  match Py.pop l with
  | None => l = []
  | Some (_, rest) => List.length l = S (List.length rest)
  end.
Proof.
  destruct l as [|y l'] using rev_ind; [reflexivity|].
  rewrite pop_snoc, length_app. cbn. lia.
Qed.

Lemma marked_cons marks block_i n :
  marked marks block_i (S n) =
  (if Py.mem block_i marks then [block_i] else [])
  ++ marked marks (S block_i) n.
Proof.
  unfold marked. cbn [seq filter].
  now destruct (Py.mem block_i marks).
Qed.

Lemma marked_ge marks block_i n k :
  In k (marked marks block_i n) -> (block_i <= k)%nat.
Proof.
  unfold marked. intros H. apply filter_In in H. destruct H as [H _].
  apply in_seq in H. lia.
Qed.

Lemma list_set_middle {A : Type} (pre : list A) (t v : A) (post : list A) :
  Forward.list_set (pre ++ t :: post) (List.length pre) v = pre ++ v :: post.
Proof.
  induction pre as [|y pre IH]; [reflexivity|].
  cbn. now rewrite IH.
Qed.

Section Replay.

Variables Block X : Type.
Variable block_op : Block -> X -> X.
Variable cat : X -> X -> X.

Local Abbreviation encoder_3d := (Forward.encoder_3d Block X block_op).
Local Abbreviation encoder_2d := (Forward.encoder_2d Block X block_op cat).
Local Abbreviation entering := (SkipSpec.entering Block X block_op).

Lemma entering_cons op rest i x :
  entering (op :: rest) (S i) x = entering rest i (block_op op x).
Proof. reflexivity. Qed.

Lemma entering_shift op rest skips block_i n (x : X) (f : nat -> X -> X) :
  map (fun k => f k (entering (op :: rest) (k - block_i) x))
      (marked skips (S block_i) n) =
  map (fun k => f k (entering rest (k - S block_i) (block_op op x)))
      (marked skips (S block_i) n).
Proof.
  apply map_ext_in. intros k Hk. apply marked_ge in Hk.
  replace (k - block_i)%nat with (S (k - S block_i)) by lia.
  reflexivity.
Qed.

(** The 3D pass appends, for every marked iteration, the feature that enters
    that block. *)
Lemma encoder_3d_spec skips ops : forall block_i skip_x x,
  encoder_3d skips block_i ops skip_x x =
  (skip_x ++ map (fun k => entering ops (k - block_i) x)
                 (marked skips block_i (List.length ops)),
   entering ops (List.length ops) x).
Proof.
  induction ops as [|op rest IH]; intros block_i skip_x x.
  - cbn. now rewrite app_nil_r.
  - cbn [Forward.encoder_3d List.length]. rewrite IH, marked_cons.
    pose proof (entering_shift op rest skips block_i (List.length rest) x
                               (fun _ y => y)) as E.
    cbn beta in E. rewrite map_app, E, entering_cons. f_equal.
    destruct (Py.mem block_i skips).
    + cbn [map app]. rewrite Nat.sub_diag, <- app_assoc. reflexivity.
    + reflexivity.
Qed.

(** The 2D pass, run on taps the 3D pass captured with the same marks and
    the same number of blocks, concatenates onto every tap the 2D feature
    that enters the same block. *)
Lemma encoder_2d_spec skips ops : forall block_i pre (f3 : nat -> X) x,
  encoder_2d skips block_i ops
             (pre ++ map f3 (marked skips block_i (List.length ops)))
             (List.length pre) x =
  Ok (pre ++ map (fun k => cat (f3 k) (entering ops (k - block_i) x))
                 (marked skips block_i (List.length ops)),
      entering ops (List.length ops) x).
Proof.
  induction ops as [|op rest IH]; intros block_i pre f3 x.
  - reflexivity.
  - cbn [Forward.encoder_2d List.length]. rewrite marked_cons, !map_app.
    pose proof (entering_shift op rest skips block_i (List.length rest) x
                               (fun k y => cat (f3 k) y)) as E.
    cbn beta in E. rewrite E, entering_cons.
    destruct (Py.mem block_i skips).
    + cbn [map app].
      rewrite nth_error_app2, Nat.sub_diag by lia. cbn [nth_error of_option bind fst snd].
      rewrite list_set_middle.
      specialize (IH (S block_i) (pre ++ [cat (f3 block_i) x]) f3
                     (block_op op x)).
      rewrite <- app_assoc, length_app, Nat.add_1_r in IH. cbn [app] in IH.
      rewrite IH, Nat.sub_diag, <- app_assoc. reflexivity.
    + cbn [map app bind fst snd]. apply IH.
Qed.

End Replay.

Lemma list_set_length {A : Type} (l : list A) : forall i v,
  List.length (Forward.list_set l i v) = List.length l.
Proof.
  induction l as [|x l IH]; intros [|i] v; cbn; try reflexivity.
  now rewrite IH.
Qed.

Section Run.

Variables Block X : Type.
Variable block_op : Block -> X -> result X.
Variable cat : X -> X -> result X.

Local Abbreviation run_encoder_3d :=
  (Forward.run_encoder_3d Block X block_op).
Local Abbreviation run_encoder_2d :=
  (Forward.run_encoder_2d Block X block_op cat).
Local Abbreviation run_decoder := (Forward.run_decoder Block X block_op cat).

Local Abbreviation ops_return :=
  (SkipSpec.loops_return Block X block_op cat).

(** When the 3D pass returns it has appended one tap per marked
    iteration. *)
Lemma run_encoder_3d_length skips ops : forall block_i skip_x x skip_x' x',
  run_encoder_3d skips block_i ops skip_x x = Ok (skip_x', x') ->
  List.length skip_x'
  = (List.length skip_x
     + List.length (marked skips block_i (List.length ops)))%nat.
Proof.
  induction ops as [|op rest IH]; intros block_i skip_x x skip_x' x' H.
  - cbn in H. injection H as <- <-. cbn. lia.
  - cbn [Forward.run_encoder_3d] in H.
    destruct (block_op op x) as [y|]; [|discriminate]. cbn [bind] in H.
    apply IH in H. cbn [List.length]. rewrite marked_cons, length_app, H.
    destruct (Py.mem block_i skips); [rewrite length_app|]; cbn; lia.
Qed.

Lemma run_encoder_3d_returns skips ops : forall block_i skip_x x,
  ops_return ->
  exists r, run_encoder_3d skips block_i ops skip_x x = Ok r.
Proof.
  induction ops as [|op rest IH]; intros block_i skip_x x Hops.
  - eexists. reflexivity.
  - cbn [Forward.run_encoder_3d].
    destruct (proj1 Hops op x) as [y ->]. cbn [bind]. now apply IH.
Qed.

(** When the 2D pass returns it has kept the number of taps. *)
Lemma run_encoder_2d_length skips ops :
  forall block_i skip_x index x skip_x' x',
    run_encoder_2d skips block_i ops skip_x index x = Ok (skip_x', x') ->
    List.length skip_x' = List.length skip_x.
Proof.
  induction ops as [|op rest IH]; intros block_i skip_x index x skip_x' x' H.
  - cbn in H. injection H as <- <-. reflexivity.
  - cbn [Forward.run_encoder_2d] in H.
    destruct (Py.mem block_i skips).
    + destruct (nth_error skip_x index) as [t|]; [|discriminate].
      cbn [of_option bind] in H.
      destruct (cat t x) as [c|]; [|discriminate]. cbn [bind fst snd] in H.
      destruct (block_op op x) as [y|]; [|discriminate]. cbn [bind] in H.
      apply IH in H. now rewrite H, list_set_length.
    + cbn [bind fst snd] in H.
      destruct (block_op op x) as [y|]; [|discriminate]. cbn [bind] in H.
      now apply IH in H.
Qed.

Lemma run_encoder_2d_returns skips ops : forall block_i skip_x index x,
  ops_return ->
  (index + List.length (marked skips block_i (List.length ops))
   <= List.length skip_x)%nat ->
  exists r, run_encoder_2d skips block_i ops skip_x index x = Ok r.
Proof.
  induction ops as [|op rest IH]; intros block_i skip_x index x Hops Hle.
  - eexists. reflexivity.
  - cbn [Forward.run_encoder_2d]. cbn [List.length] in Hle.
    rewrite marked_cons, length_app in Hle.
    destruct (Py.mem block_i skips).
    + cbn [List.length] in Hle.
      destruct (nth_error skip_x index) as [t|] eqn:E.
      * cbn [of_option bind].
        destruct (proj2 Hops t x) as [c ->]. cbn [bind fst snd].
        destruct (proj1 Hops op x) as [y ->]. cbn [bind].
        apply IH; [exact Hops|]. rewrite list_set_length. lia.
      * apply nth_error_None in E. lia.
    + cbn [bind fst snd].
      destruct (proj1 Hops op x) as [y ->]. cbn [bind].
      apply IH; [exact Hops|]. cbn [List.length] in Hle. lia.
Qed.

Lemma run_decoder_returns concats ops : forall block_i skip_x x,
  ops_return ->
  (List.length (marked concats block_i (List.length ops))
   <= List.length skip_x)%nat ->
  exists y, run_decoder concats block_i ops skip_x x = Ok y.
Proof.
  induction ops as [|op rest IH]; intros block_i skip_x x Hops H.
  - now exists x.
  - cbn [Forward.run_decoder]. cbn [List.length] in H.
    rewrite marked_cons, length_app in H.
    destruct (Py.mem block_i concats).
    + pose proof (pop_length skip_x) as Hp.
      destruct (Py.pop skip_x) as [[t rest_x]|].
      * cbn [of_option bind fst snd].
        destruct (proj2 Hops x t) as [c ->]. cbn [bind fst snd].
        destruct (proj1 Hops op c) as [y ->]. cbn [bind].
        apply IH; [exact Hops|]. cbn in H. lia.
      * subst. cbn in H. lia.
    + cbn [bind fst snd].
      destruct (proj1 Hops op x) as [y ->]. cbn [bind].
      apply IH; [exact Hops|]. exact H.
Qed.

(** With more concat markers to meet than taps left, the decoder loop never
    returns, whatever the tensor operations do ... *)
Lemma run_decoder_never_returns concats ops : forall block_i skip_x x y,
  (List.length skip_x
   < List.length (marked concats block_i (List.length ops)))%nat ->
  run_decoder concats block_i ops skip_x x <> Ok y.
Proof.
  induction ops as [|op rest IH]; intros block_i skip_x x y H.
  - cbn in H. lia.
  - cbn [Forward.run_decoder]. cbn [List.length] in H.
    rewrite marked_cons, length_app in H.
    destruct (Py.mem block_i concats).
    + pose proof (pop_length skip_x) as Hp.
      destruct (Py.pop skip_x) as [[t rest_x]|]; [|discriminate].
      cbn [of_option bind fst snd].
      destruct (cat x t) as [c|]; [|discriminate]. cbn [bind fst snd].
      destruct (block_op op c) as [z|]; [|discriminate]. cbn [bind].
      apply IH. cbn in H. lia.
    + cbn [bind fst snd].
      destruct (block_op op x) as [z|]; [|discriminate]. cbn [bind].
      apply IH. exact H.
Qed.

(** ... and when they all return, it is the pop that raises. *)
Lemma run_decoder_underflows concats ops : forall block_i skip_x x,
  ops_return ->
  (List.length skip_x
   < List.length (marked concats block_i (List.length ops)))%nat ->
  run_decoder concats block_i ops skip_x x = Raise IndexError.
Proof.
  induction ops as [|op rest IH]; intros block_i skip_x x Hops H.
  - cbn in H. lia.
  - cbn [Forward.run_decoder]. cbn [List.length] in H.
    rewrite marked_cons, length_app in H.
    destruct (Py.mem block_i concats).
    + pose proof (pop_length skip_x) as Hp.
      destruct (Py.pop skip_x) as [[t rest_x]|]; [|reflexivity].
      cbn [of_option bind fst snd].
      destruct (proj2 Hops x t) as [c ->]. cbn [bind fst snd].
      destruct (proj1 Hops op c) as [z ->]. cbn [bind].
      apply IH; [exact Hops|]. cbn in H. lia.
    + cbn [bind fst snd].
      destruct (proj1 Hops op x) as [z ->]. cbn [bind].
      apply IH; [exact Hops | exact H].
Qed.

(** With operations that return, the fallible passes are the passes of
    [Forward.encoder_3d] and [Forward.encoder_2d]. *)
Lemma run_encoder_3d_total (f : Block -> X -> X) skips ops :
  (forall op x, block_op op x = Ok (f op x)) ->
  forall block_i skip_x x,
    run_encoder_3d skips block_i ops skip_x x
    = Ok (Forward.encoder_3d Block X f skips block_i ops skip_x x).
Proof.
  intros Hf. induction ops as [|op rest IH]; intros block_i skip_x x.
  - reflexivity.
  - cbn [Forward.run_encoder_3d Forward.encoder_3d].
    rewrite Hf. cbn [bind]. apply IH.
Qed.

Lemma run_encoder_2d_total (f : Block -> X -> X) (g : X -> X -> X)
  skips ops :
  (forall op x, block_op op x = Ok (f op x)) ->
  (forall a b, cat a b = Ok (g a b)) ->
  forall block_i skip_x index x,
    run_encoder_2d skips block_i ops skip_x index x
    = Forward.encoder_2d Block X f g skips block_i ops skip_x index x.
Proof.
  intros Hf Hg. induction ops as [|op rest IH];
    intros block_i skip_x index x.
  - reflexivity.
  - cbn [Forward.run_encoder_2d Forward.encoder_2d].
    destruct (Py.mem block_i skips).
    + destruct (nth_error skip_x index) as [t|]; [|reflexivity].
      cbn [of_option bind]. rewrite Hg. cbn [bind fst snd].
      rewrite Hf. cbn [bind]. apply IH.
    + cbn [bind fst snd]. rewrite Hf. cbn [bind]. apply IH.
Qed.

Variable mean : X -> X -> result X.

Local Abbreviation forward_blocks :=
  (Forward.forward_blocks Block X block_op cat mean).

(** The three outcomes of the block loops of [forward], by the number of
    taps the encoder loop captures and the number of concat markers the
    decoder loop meets. *)
Lemma forward_blocks_outcome (self : Builder.KPFCNN Block) (x_3d x_2d : X)
  (taps pops : nat) :
  List.length (Builder.encoder_blocks_2d (Builder.enc self))
  = List.length (Builder.encoder_blocks_3d (Builder.enc self)) ->
  List.length (marked (Builder.encoder_skips (Builder.enc self)) 0
                 (List.length (Builder.encoder_blocks_3d (Builder.enc self))))
  = taps ->
  List.length (marked (Builder.decoder_concats (Builder.dec self)) 0
                 (List.length (Builder.decoder_blocks (Builder.dec self))))
  = pops ->
  ((pops <= taps)%nat -> SkipSpec.ops_return Block X block_op cat mean ->
   exists y, forward_blocks self x_3d x_2d = Ok y) /\
  ((taps < pops)%nat ->
   (forall y, forward_blocks self x_3d x_2d <> Ok y) /\
   (SkipSpec.ops_return Block X block_op cat mean ->
    forward_blocks self x_3d x_2d = Raise IndexError)).
Proof.
  intros Hlen Htaps Hpops. unfold Forward.forward_blocks.
  set (e := Builder.enc self) in *. set (d := Builder.dec self) in *.
  assert (Hafter : forall sx x3 sx' x2,
    run_encoder_3d (Builder.encoder_skips e) 0 (Builder.encoder_blocks_3d e)
                   [] x_3d = Ok (sx, x3) ->
    run_encoder_2d (Builder.encoder_skips e) 0 (Builder.encoder_blocks_2d e)
                   sx 0 x_2d = Ok (sx', x2) ->
    List.length sx' = taps).
  { intros sx x3 sx' x2 H3 H2.
    apply run_encoder_2d_length in H2. apply run_encoder_3d_length in H3.
    rewrite H2, H3, Htaps. reflexivity. }
  split; [|split].
  - intros Hle [Hloops Hmean].
    destruct (run_encoder_3d_returns (Builder.encoder_skips e)
                (Builder.encoder_blocks_3d e) 0 [] x_3d Hloops)
      as [[sx x3] H3].
    rewrite H3. cbn [bind fst snd].
    destruct (run_encoder_2d_returns (Builder.encoder_skips e)
                (Builder.encoder_blocks_2d e) 0 sx 0 x_2d Hloops)
      as [[sx' x2] H2].
    { rewrite (run_encoder_3d_length _ _ _ _ _ _ _ H3), Hlen. cbn. lia. }
    rewrite H2. cbn [bind fst snd].
    destruct (Hmean x3 x2) as [x ->]. cbn [bind].
    apply run_decoder_returns; [exact Hloops|].
    rewrite (Hafter _ _ _ _ H3 H2), Hpops. exact Hle.
  - intros y.
    destruct (run_encoder_3d _ _ _ _ _) as [[sx x3]|] eqn:H3;
      [|discriminate].
    cbn [bind fst snd].
    destruct (run_encoder_2d _ _ _ _ _ _) as [[sx' x2]|] eqn:H2;
      [|discriminate].
    cbn [bind fst snd].
    destruct (mean x3 x2) as [x|]; [|discriminate]. cbn [bind].
    apply run_decoder_never_returns.
    rewrite (Hafter _ _ _ _ eq_refl H2), Hpops. exact H.
  - intros [Hloops Hmean].
    destruct (run_encoder_3d_returns (Builder.encoder_skips e)
                (Builder.encoder_blocks_3d e) 0 [] x_3d Hloops)
      as [[sx x3] H3].
    rewrite H3. cbn [bind fst snd].
    destruct (run_encoder_2d_returns (Builder.encoder_skips e)
                (Builder.encoder_blocks_2d e) 0 sx 0 x_2d Hloops)
      as [[sx' x2] H2].
    { rewrite (run_encoder_3d_length _ _ _ _ _ _ _ H3), Hlen. cbn. lia. }
    rewrite H2. cbn [bind fst snd].
    destruct (Hmean x3 x2) as [x ->]. cbn [bind].
    apply run_decoder_underflows; [exact Hloops|].
    rewrite (Hafter _ _ _ _ H3 H2), Hpops. exact H.
Qed.

End Run.

End ForwardFacts.

(** * The positions the builder records *)

Module SkipFacts.
Import Builder Arch SkipSpec.

Lemma firstn_encoder_part blocks :
  firstn (List.length (encoder_part blocks)) (encoder_visited blocks)
  = encoder_part blocks.
Proof.
  induction blocks as [|block rest IH]; [reflexivity|].
  cbn [encoder_part encoder_visited].
  destruct (is_upsample block); [reflexivity|].
  cbn [List.length firstn]. now rewrite IH.
Qed.

Lemma mem_app k l1 l2 : Py.mem k (l1 ++ l2) = Py.mem k l1 || Py.mem k l2.
Proof. unfold Py.mem. apply existsb_app. Qed.

Lemma positions_ge p blocks : forall block_i k,
  In k (positions p block_i blocks) -> (block_i <= k)%nat.
Proof.
  induction blocks as [|block rest IH]; intros block_i k H; [destruct H|].
  cbn [positions] in H. apply in_app_or in H. destruct H as [H|H].
  - destruct (p block); [destruct H as [<-|[]]; lia | destruct H].
  - apply IH in H. lia.
Qed.

Lemma In_positions p blocks : forall block_i i,
  In i (positions p block_i blocks) <->
  exists b, (block_i <= i)%nat /\
            nth_error blocks (i - block_i) = Some b /\ p b = true.
Proof.
  induction blocks as [|block rest IH]; intros block_i i.
  - cbn [positions In]. split; [intros [] |].
    intros (b & _ & H & _). now rewrite nth_error_nil in H.
  - cbn [positions]. rewrite in_app_iff, IH. split.
    + intros [H | (b & Hle & Hn & Hp)].
      * destruct (p block) eqn:E; [|destruct H].
        destruct H as [<-|[]]. exists block.
        rewrite Nat.sub_diag. repeat split; [lia | exact E].
      * exists b. split; [lia|]. split; [|exact Hp].
        replace (i - block_i)%nat with (S (i - S block_i)) by lia.
        exact Hn.
    + intros (b & Hle & Hn & Hp).
      destruct (Nat.eq_dec i block_i) as [->|Hne].
      * left. rewrite Nat.sub_diag in Hn. cbn in Hn.
        injection Hn as ->. rewrite Hp. now left.
      * right. exists b. split; [lia|]. split; [|exact Hp].
        replace (i - block_i)%nat with (S (i - S block_i)) in Hn by lia.
        exact Hn.
Qed.

Lemma encoder_visited_length blocks :
  (List.length (encoder_visited blocks)
   <= S (List.length (encoder_part blocks)))%nat.
Proof.
  induction blocks as [|block rest IH]; [cbn; lia|].
  cbn [encoder_visited encoder_part].
  destruct (is_upsample block); cbn [List.length]; lia.
Qed.

Lemma mem_positions_below p blocks block_i k :
  (k < block_i)%nat -> Py.mem k (positions p block_i blocks) = false.
Proof.
  intros Hk. unfold Py.mem.
  destruct (existsb (Nat.eqb k) (positions p block_i blocks)) eqn:E;
    [|reflexivity].
  apply existsb_exists in E. destruct E as (j & Hj & Ej).
  apply Nat.eqb_eq in Ej. subst j. apply positions_ge in Hj. lia.
Qed.

(** Among the iterations of a loop over the first [n] blocks, those found
    in the positions of [p] are as many as the blocks that satisfy [p]. *)
Lemma marked_positions p blocks : forall block_i n,
  List.length (marked (positions p block_i blocks) block_i n)
  = List.length (filter p (firstn n blocks)).
Proof.
  induction blocks as [|block rest IH]; intros block_i n.
  - rewrite firstn_nil. unfold marked. cbn [positions].
    induction (seq block_i n) as [|k l IHl]; [reflexivity | exact IHl].
  - destruct n as [|n]; [reflexivity|].
    rewrite ForwardFacts.marked_cons, length_app. cbn [firstn filter positions].
    rewrite mem_app, (mem_positions_below p rest (S block_i) block_i),
            orb_false_r by lia.
    assert (Hrest : marked ((if p block then [block_i] else [])
                            ++ positions p (S block_i) rest) (S block_i) n
                    = marked (positions p (S block_i) rest) (S block_i) n).
    { unfold marked. apply filter_ext_in. intros k Hk. apply in_seq in Hk.
      rewrite mem_app.
      replace (Py.mem k (if p block then [block_i] else [])) with false;
        [reflexivity|].
      destruct (p block); [|reflexivity].
      cbn. destruct (Nat.eqb_spec k block_i); [lia | reflexivity]. }
    rewrite Hrest, IH.
    destruct (p block); cbn; now rewrite ?Nat.eqb_refl.
Qed.

Lemma marked_shift marks n : forall block_i,
  List.length (marked (map S marks) (S block_i) n)
  = List.length (marked marks block_i n).
Proof.
  assert (Hm : forall k, Py.mem (S k) (map S marks) = Py.mem k marks).
  { intros k. unfold Py.mem. induction marks as [|j l IHl]; [reflexivity|].
    cbn [map existsb]. now rewrite IHl. }
  induction n as [|n IH]; intros block_i; [reflexivity|].
  rewrite !ForwardFacts.marked_cons, !length_app, Hm, IH.
  now destruct (Py.mem block_i marks).
Qed.

Lemma mem_zero_succ marks : Py.mem 0 (map S marks) = false.
Proof. unfold Py.mem. now induction marks. Qed.

Lemma removelast_length {A : Type} (l : list A) :
  l <> [] -> List.length l = S (List.length (removelast l)).
Proof.
  intros H. destruct (exists_last H) as (l' & x & ->).
  rewrite removelast_last, length_app. cbn. lia.
Qed.

(** Marks placed right after the blocks that satisfy [p], the last block
    excepted, are all met by a loop over the whole list. *)
Lemma marked_after p blocks :
  List.length (marked (map S (positions p 0 (removelast blocks))) 0
                      (List.length blocks))
  = List.length (filter p (removelast blocks)).
Proof.
  destruct blocks as [|b rest] eqn:E; [reflexivity|]. rewrite <- E.
  assert (Hne : blocks <> []) by (rewrite E; discriminate).
  rewrite (removelast_length blocks Hne), ForwardFacts.marked_cons.
  rewrite mem_zero_succ. cbn [app].
  rewrite marked_shift, marked_positions, firstn_all. reflexivity.
Qed.

Section Loops.

Variable Block : Type.
Variable block_decider : string -> Q -> Z -> Z -> Z -> result Block.

Local Abbreviation encoder_loop := (Builder.encoder_loop Block block_decider).
Local Abbreviation decoder_loop := (Builder.decoder_loop Block block_decider).
Local Abbreviation decoder_step := (Builder.decoder_step Block block_decider).
Local Abbreviation tapped := (Builder.tap Block).

Lemma tapped_skips block_i block s :
  encoder_skips (tapped block_i block s) =
  encoder_skips s ++ (if is_skip_block block then [block_i] else []).
Proof.
  unfold Builder.tap. destruct (is_skip_block block); cbn.
  - reflexivity.
  - now rewrite app_nil_r.
Qed.

(** The encoder loop records the indices of the skip blocks it looks at, in
    the order of the architecture. *)
Lemma encoder_loop_skips blocks : forall block_i s s',
  encoder_loop block_i blocks s = Ok s' ->
  encoder_skips s' =
  encoder_skips s ++ positions is_skip_block block_i (encoder_visited blocks).
Proof.
  induction blocks as [|block rest IH]; intros block_i s s' H.
  - cbn in H. inversion H; subst. cbn. now rewrite app_nil_r.
  - cbn [Builder.encoder_loop] in H.
    destruct (Builder.encoder_step Block block_decider block_i block s)
      as [[s1 brk]|] eqn:E; [|discriminate].
    cbn [bind fst snd] in H.
    apply EncoderFacts.encoder_step_inv in E.
    destruct E as (_ & -> & [[Hu ->] | (Hu & b3 & b2 & _ & _ & ->)]);
      rewrite Hu in H; cbn [encoder_visited positions]; rewrite Hu.
    + inversion H; subst. rewrite tapped_skips. cbn [positions].
      now rewrite app_nil_r.
    + apply IH in H. rewrite H.
      cbn [Builder.apply_block encoder_skips]. rewrite tapped_skips.
      now rewrite <- app_assoc.
Qed.

Lemma concat_skip_marks arch start_i dims block_i s s1 p :
  prev_is_upsample arch start_i block_i p ->
  Builder.concat_skip Block arch start_i dims block_i s = Ok s1 ->
  decoder_concats s1 = decoder_concats s ++ (if p then [block_i] else []).
Proof.
  intros Hp. rewrite (DecoderFacts.concat_skip_view _ _ _ _ _ _ _ Hp).
  destruct p.
  - destruct (Py.getitem dims (d_layer s)) as [w|]; [|discriminate].
    cbn. intros H. inversion H; subst. reflexivity.
  - intros H. inversion H; subst. now rewrite app_nil_r.
Qed.

(** The decoder loop builds one block per descriptor and marks the
    iterations that directly follow an upsampling block. *)
Lemma decoder_loop_marks arch start_i dims blocks : forall block_i s s' p,
  decoder_loop arch start_i dims block_i blocks s = Ok s' ->
  skipn (start_i + block_i) arch = blocks ->
  prev_is_upsample arch start_i block_i p ->
  List.length (decoder_blocks s')
  = (List.length (decoder_blocks s) + List.length blocks)%nat /\
  decoder_concats s' =
  decoder_concats s
  ++ match blocks with
     | [] => []
     | _ :: _ => (if p then [block_i] else [])
                 ++ map S (positions is_upsample block_i (removelast blocks))
     end.
Proof.
  induction blocks as [|block rest IH]; intros block_i s s' p H Hskip Hp.
  - cbn in H. inversion H; subst. rewrite app_nil_r. cbn. split; [lia|].
    reflexivity.
  - destruct (DecoderFacts.skipn_cons_inv _ _ _ _ Hskip) as [Hnth Hrest].
    cbn [Builder.decoder_loop] in H.
    destruct (decoder_step arch start_i dims block_i block s) as [s2|] eqn:E;
      [|discriminate].
    cbn [bind] in H.
    apply (DecoderFacts.decoder_step_inv Block block_decider) in E.
    destruct E as (s1 & b & Hc & _ & ->).
    pose proof (concat_skip_marks _ _ _ _ _ _ _ Hp Hc) as Hm.
    apply DecoderFacts.concat_skip_inv in Hc.
    destruct Hc as (_ & _ & _ & Hb).
    apply (IH (S block_i) _ _ (is_upsample block)) in H.
    + destruct H as [Hlen Hmarks].
      cbn [Builder.apply_decoder_block decoder_blocks decoder_concats]
        in Hlen, Hmarks.
      rewrite length_app, Hb in Hlen. cbn [List.length] in Hlen |- *.
      split; [lia|].
      rewrite Hmarks, Hm, <- app_assoc. f_equal. f_equal.
      destruct rest as [|b' rest']; [reflexivity|].
      cbn [removelast positions]. rewrite map_app.
      destruct (is_upsample block); reflexivity.
    + rewrite Nat.add_succ_r. exact Hrest.
    + cbn [prev_is_upsample]. now exists block.
Qed.

Lemma built_skips config e :
  Builder.build_encoder Block block_decider config = Ok e ->
  encoder_skips e
  = positions is_skip_block 0 (encoder_visited (architecture config)) /\
  List.length (encoder_blocks_3d e)
  = List.length (encoder_part (architecture config)) /\
  List.length (encoder_blocks_2d e)
  = List.length (encoder_part (architecture config)).
Proof.
  unfold Builder.build_encoder. intros H.
  pose proof (encoder_loop_skips _ _ _ _ H) as Hs.
  apply EncoderFacts.encoder_loop_grows in H.
  destruct H as (sk & dm & b3 & b2 & _ & _ & H3 & H2 & _ & Hl & Hn).
  cbn in Hs, H3, H2. subst. repeat split; [exact Hs | exact Hn | lia].
Qed.

Lemma built_concats config e d :
  Builder.build_decoder Block block_decider config e = Ok d ->
  decoder_concats d
  = map S (positions is_upsample 0
                     (removelast (decoder_part (architecture config)))) /\
  List.length (decoder_blocks d)
  = List.length (decoder_part (architecture config)).
Proof.
  unfold Builder.build_decoder. cbn zeta. intros H.
  apply (decoder_loop_marks _ _ _ _ _ _ _ false) in H.
  - destruct H as [Hl Hm]. cbn in Hl, Hm. fold (decoder_part (architecture config)) in Hl, Hm.
    split; [|exact Hl]. rewrite Hm.
    destruct (decoder_part (architecture config)); reflexivity.
  - now rewrite Nat.add_0_r.
  - reflexivity.
Qed.

End Loops.

End SkipFacts.

(** * The decoder slice *)

Module SliceFacts.
Import Builder Arch SkipSpec.

Lemma find_start_spec blocks : forall block_i start_i,
  find_start block_i blocks start_i =
  if existsb is_upsample blocks
  then (block_i + List.length (encoder_part blocks))%nat
  else start_i.
Proof.
  induction blocks as [|block rest IH]; intros block_i start_i;
    [reflexivity|].
  cbn [find_start existsb encoder_part]. fold (is_upsample block).
  destruct (is_upsample block).
  - cbn. now rewrite Nat.add_0_r.
  - cbn [orb List.length]. rewrite IH.
    destruct (existsb is_upsample rest); [|reflexivity].
    now rewrite Nat.add_succ_r.
Qed.

Lemma encoder_part_length blocks :
  (List.length (encoder_part blocks) <= List.length blocks)%nat.
Proof.
  induction blocks as [|block rest IH]; [reflexivity|].
  cbn [encoder_part]. destruct (is_upsample block); cbn; lia.
Qed.

Lemma no_upsample_existsb blocks :
  no_upsample blocks <-> existsb is_upsample blocks = false.
Proof.
  unfold no_upsample. induction blocks as [|block rest IH];
    [now split|].
  cbn [forallb existsb]. destruct (is_upsample block); cbn.
  - split; discriminate.
  - exact IH.
Qed.

Lemma positions_none p blocks : forall block_i,
  existsb p blocks = false -> positions p block_i blocks = [].
Proof.
  induction blocks as [|block rest IH]; intros block_i H; [reflexivity|].
  cbn [existsb] in H. apply orb_false_iff in H. destruct H as [Hb Hr].
  cbn [positions]. rewrite Hb. cbn [app]. now apply IH.
Qed.

Lemma existsb_removelast {A : Type} (p : A -> bool) (l : list A) :
  existsb p l = false -> existsb p (removelast l) = false.
Proof.
  induction l as [|x l IH]; [reflexivity|].
  cbn [existsb]. intros H. apply orb_false_iff in H. destruct H as [Hx Hl].
  destruct l as [|y l']; [reflexivity|].
  cbn [removelast existsb]. rewrite Hx. apply IH. exact Hl.
Qed.

End SliceFacts.

(** * The valid labels and the accuracy count *)

Module ValidLabelFacts.
Import Builder.

Lemma insert_sorted_count (c x : Z) (l : list Z) :
  count_occ Z.eq_dec (insert_sorted c l) x
  = count_occ Z.eq_dec (c :: l) x.
Proof.
  induction l as [|y l IH]; [reflexivity|].
  cbn [insert_sorted]. destruct (c <=? y); [reflexivity|].
  cbn [count_occ] in *.
  destruct (Z.eq_dec y x), (Z.eq_dec c x); rewrite IH; reflexivity.
Qed.

Lemma np_sort_count (x : Z) (l : list Z) :
  count_occ Z.eq_dec (np_sort l) x = count_occ Z.eq_dec l x.
Proof.
  induction l as [|c l IH]; [reflexivity|].
  cbn [np_sort fold_right]. fold (np_sort l).
  rewrite insert_sorted_count. cbn [count_occ]. now rewrite IH.
Qed.

Lemma insert_sorted_In (c x : Z) (l : list Z) :
  In x (insert_sorted c l) <-> x = c \/ In x l.
Proof.
  rewrite (count_occ_In Z.eq_dec (insert_sorted c l)), insert_sorted_count.
  rewrite <- (count_occ_In Z.eq_dec). cbn [In].
  split; (intros [H|H]; [left; congruence | now right]).
Qed.

Lemma insert_sorted_sorted (c : Z) (l : list Z) :
  StronglySorted Z.le l -> StronglySorted Z.le (insert_sorted c l).
Proof.
  induction l as [|y l IH]; intros Hs.
  - repeat constructor.
  - cbn [insert_sorted]. inversion Hs as [|? ? Hs' Hall]; subst.
    destruct (Z.leb_spec c y) as [Hle|Hgt].
    + constructor; [exact Hs|]. constructor; [exact Hle|].
      rewrite Forall_forall in Hall |- *. intros z Hz.
      specialize (Hall z Hz). lia.
    + constructor; [now apply IH|].
      rewrite Forall_forall in Hall |- *. intros z Hz.
      apply insert_sorted_In in Hz. destruct Hz as [->|Hz]; [lia|].
      now apply Hall.
Qed.

Lemma np_sort_sorted (l : list Z) : StronglySorted Z.le (np_sort l).
Proof.
  induction l as [|c l IH]; [constructor|].
  cbn [np_sort fold_right]. now apply insert_sorted_sorted.
Qed.

Lemma insert_sorted_length (c : Z) (l : list Z) :
  List.length (insert_sorted c l) = S (List.length l).
Proof.
  induction l as [|y l IH]; [reflexivity|].
  cbn [insert_sorted]. destruct (c <=? y); cbn; [reflexivity | now rewrite IH].
Qed.

Lemma np_sort_length (l : list Z) : List.length (np_sort l) = List.length l.
Proof.
  induction l as [|c l IH]; [reflexivity|].
  cbn [np_sort fold_right]. fold (np_sort l).
  rewrite insert_sorted_length. cbn. now rewrite IH.
Qed.

Lemma existsb_eqb_In (c : Z) (l : list Z) :
  existsb (Z.eqb c) l = true <-> In c l.
Proof.
  rewrite existsb_exists. split.
  - intros (x & Hx & E). apply Z.eqb_eq in E. now subst.
  - intros H. exists c. split; [exact H | apply Z.eqb_refl].
Qed.

Lemma make_valid_labels_In lbl_values ign_lbls (c : Z) :
  In c (make_valid_labels lbl_values ign_lbls) <->
  In c lbl_values /\ ~ In c ign_lbls.
Proof.
  unfold make_valid_labels.
  rewrite (count_occ_In Z.eq_dec (np_sort _)), np_sort_count.
  rewrite <- (count_occ_In Z.eq_dec), filter_In, negb_true_iff.
  rewrite <- (existsb_eqb_In c ign_lbls).
  destruct (existsb (Z.eqb c) ign_lbls).
  - split; intros [_ H]; [discriminate | now contradiction H].
  - split; intros [H _]; (split; [exact H|]);
      [discriminate | reflexivity].
Qed.

Lemma filter_split_length {A : Type} (f : A -> bool) (l : list A) :
  (List.length (filter (fun x => negb (f x)) l)
   + List.length (filter f l))%nat = List.length l.
Proof.
  induction l as [|x l IH]; [reflexivity|].
  cbn [filter]. destruct (f x); cbn; lia.
Qed.

(** The number of valid labels is the number of label values minus the
    number of those that are ignored, counted in [lbl_values]. *)
Lemma make_valid_labels_length lbl_values ign_lbls :
  (List.length (make_valid_labels lbl_values ign_lbls)
   + List.length (filter (fun c => existsb (Z.eqb c) ign_lbls) lbl_values))%nat
  = List.length lbl_values.
Proof.
  unfold make_valid_labels. rewrite np_sort_length.
  apply filter_split_length.
Qed.

Lemma ignored_count lbl_values ign_lbls :
  NoDup lbl_values -> NoDup ign_lbls -> incl ign_lbls lbl_values ->
  List.length (filter (fun c => existsb (Z.eqb c) ign_lbls) lbl_values)
  = List.length ign_lbls.
Proof.
  intros Hl Hi Hincl. apply Nat.le_antisymm.
  - apply NoDup_incl_length; [now apply NoDup_filter|].
    intros c Hc. apply filter_In in Hc. now apply existsb_eqb_In.
  - apply NoDup_incl_length; [exact Hi|].
    intros c Hc. apply filter_In. split; [now apply Hincl|].
    now apply existsb_eqb_In.
Qed.

Lemma np_sort_NoDup (l : list Z) : NoDup l -> NoDup (np_sort l).
Proof.
  intros H. apply (NoDup_count_occ Z.eq_dec). intros x.
  rewrite np_sort_count. now apply (NoDup_count_occ Z.eq_dec).
Qed.

Section Init.

Variable Block : Type.
Variable block_decider : string -> Q -> Z -> Z -> Z -> result Block.

Lemma init_labels config lbl_values ign_lbls m :
  Builder.init Block block_decider config lbl_values ign_lbls = Ok m ->
  C m = Z.of_nat (List.length lbl_values) - Z.of_nat (List.length ign_lbls) /\
  valid_labels m = make_valid_labels lbl_values ign_lbls /\
  u_out_dim (head_softmax m) = C m /\
  u_in_dim (head_softmax m) = u_out_dim (head_mlp m).
Proof.
  unfold Builder.init.
  destruct (Builder.build_encoder Block block_decider config) as [e|];
    [|discriminate].
  cbn [bind].
  destruct (Builder.build_decoder Block block_decider config e) as [d|];
    [|discriminate].
  cbn [bind]. intros H. inversion H; subst. cbn. repeat split.
Qed.

End Init.

End ValidLabelFacts.

Module AccuracyFacts.
Import Labels LabelSpec AccuracySpec.

Lemma count_equal_same_shape predicted target :
  List.length predicted = List.length target ->
  count_equal predicted target =
  Ok (List.length (filter (fun pt => fst pt =? snd pt)
                          (combine predicted target))).
Proof.
  intros H. unfold count_equal. now rewrite H, Nat.eqb_refl.
Qed.

Lemma accuracy_target_pointwise valid labels :
  accuracy_target valid labels
  = map (fun l => remap_entry 0 valid l (-1)) labels.
Proof.
  unfold accuracy_target. rewrite <- LabelFacts.targets_agree_loop.
  apply LabelFacts.loss_target_pointwise.
Qed.









Lemma equal_pairs_le (target : list Z) : forall predicted : list Z,
  (List.length (filter (fun pt => (fst pt =? snd pt)%Z)
                       (combine predicted target))
   <= List.length target)%nat.
Proof.
  induction target as [|t target IH]; intros [|p predicted];
    cbn [combine filter List.length]; try lia.
  cbn [fst snd]. specialize (IH predicted).
  destruct (p =? t); cbn [List.length]; lia.
Qed.

Lemma equal_pairs_full (target : list Z) : forall predicted : list Z,
  List.length predicted = List.length target ->
  (List.length (filter (fun pt => fst pt =? snd pt)
                       (combine predicted target))
   = List.length target <-> predicted = target).
Proof.
  induction target as [|t target IH]; intros [|p predicted] Hlen;
    cbn in Hlen; try discriminate.
  - cbn. tauto.
  - cbn [combine filter fst snd].
    pose proof (equal_pairs_le target predicted) as Hle.
    specialize (IH predicted ltac:(lia)).
    destruct (Z.eqb_spec p t) as [->|Hne]; cbn [List.length].
    + split.
      * intros H. f_equal. apply IH. lia.
      * intros H. inversion H as [H']. rewrite H' in *.
        f_equal. now apply IH.
    + split; [lia|]. intros H. inversion H. contradiction.
Qed.

Lemma Qden_of_nat (n : nat) : Z.pos (Pos.of_nat (S n)) = Z.of_nat (S n).
Proof. rewrite <- Pos.of_nat_succ, Zpos_P_of_succ_nat. lia. Qed.

End AccuracyFacts.

(** * The fitting term and the modules of the regulariser *)

Module RegularizerMoreFacts.
Import Regularizer RegularizerSpec RegularizerVariants.
Local Open Scope R_scope.

Lemma module_step_fst net acc md :
  fst (module_step net acc md) = fst acc + fitting_contribution md.
Proof.
  destruct md as [m|]; cbn [module_step fitting_contribution].
  - destruct (deformable m); cbn [fst]; lra.
  - lra.
Qed.

Lemma losses_fst net mods : forall acc,
  fst (fold_left (module_step net) mods acc) =
  fst acc + Rsum (map fitting_contribution mods).
Proof.
  induction mods as [|md mods IH]; intros acc.
  - cbn [fold_left map]. rewrite RegularizerFacts.Rsum_nil. lra.
  - cbn [fold_left map]. rewrite IH, module_step_fst.
    rewrite RegularizerFacts.Rsum_cons. lra.
Qed.

Lemma fitting_loss_sum net :
  fitting_loss net = Rsum (map fitting_contribution (modules net)).
Proof.
  unfold fitting_loss, losses. rewrite losses_fst. cbn [fst]. lra.
Qed.

Lemma fitting_contribution_nonneg md : 0 <= fitting_contribution md.
Proof.
  destruct md as [m|]; cbn [fitting_contribution]; [|lra].
  destruct (deformable m); [apply RegularizerFacts.l1_zeros_nonneg | lra].
Qed.

Lemma fitting_loss_nonneg net : 0 <= fitting_loss net.
Proof.
  rewrite fitting_loss_sum. apply RegularizerFacts.Rsum_nonneg.
  intros x Hx. apply in_map_iff in Hx. destruct Hx as (md & <- & _).
  apply fitting_contribution_nonneg.
Qed.

Lemma repulsive_loss_nonneg net : 0 <= repulsive_loss net.
Proof.
  rewrite RegularizerFacts.repulsive_loss_sum.
  apply RegularizerFacts.Rsum_nonneg.
  intros x Hx. apply in_map_iff in Hx. destruct Hx as (md & <- & _).
  apply RegularizerFacts.repulsive_contribution_nonneg.
Qed.

Lemma module_step_skip net acc md :
  is_deformable md = false -> module_step net acc md = acc.
Proof.
  destruct md as [m|]; cbn [is_deformable module_step]; [|reflexivity].
  now intros ->.
Qed.

Lemma module_step_with_modules net mods acc md :
  module_step (with_modules net mods) acc md = module_step net acc md.
Proof. reflexivity. Qed.

Lemma fold_filter_deformable net net' mods : forall acc,
  (forall a md, module_step net' a md = module_step net a md) ->
  fold_left (module_step net') (filter is_deformable mods) acc
  = fold_left (module_step net) mods acc.
Proof.
  induction mods as [|md mods IH]; intros acc Hext; [reflexivity|].
  cbn [filter fold_left].
  destruct (is_deformable md) eqn:E.
  - cbn [fold_left]. rewrite Hext. now apply IH.
  - rewrite (module_step_skip net acc md E). now apply IH.
Qed.

Lemma KP_min_d2_scale s m :
  s <> 0 -> KP_extent m <> 0 ->
  KP_min_d2 (scale_KPConv s m) = KP_min_d2 m.
Proof.
  intros Hs He. unfold KP_min_d2. cbn [scale_KPConv min_d2 KP_extent].
  rewrite map_map. apply map_ext. intros row.
  rewrite map_map. apply map_ext. intros v. field. split; assumption.
Qed.

Lemma KP_locs_scale s m :
  s <> 0 -> KP_extent m <> 0 ->
  KP_locs (scale_KPConv s m) = KP_locs m.
Proof.
  intros Hs He. unfold KP_locs. cbn [scale_KPConv deformed_KP KP_extent].
  rewrite map_map. apply map_ext. intros kps.
  rewrite map_map. apply map_ext. intros kp.
  rewrite map_map. apply map_ext. intros v. field. split; assumption.
Qed.

Lemma module_step_scale net acc s md :
  s <> 0 ->
  (forall m, md = KPConvModule m -> KP_extent m <> 0) ->
  module_step net acc (scale_module s md) = module_step net acc md.
Proof.
  intros Hs He. destruct md as [m|]; [|reflexivity].
  cbn [scale_module module_step]. unfold repulsive_of_module.
  rewrite (KP_min_d2_scale s m Hs (He m eq_refl)).
  rewrite (KP_locs_scale s m Hs (He m eq_refl)).
  reflexivity.
Qed.

End RegularizerMoreFacts.

(** * Widths and blocks along the loops *)

Module TowerFacts.
Import Builder Arch.

Section Loops.

Variable Block : Type.
Variable block_decider : string -> Q -> Z -> Z -> Z -> result Block.

Local Abbreviation encoder_loop := (Builder.encoder_loop Block block_decider).
Local Abbreviation decoder_loop := (Builder.decoder_loop Block block_decider).

(** From the first block on, the two towers are fed the same width. *)
Lemma encoder_loop_widths blocks : forall block_i s s',
  encoder_loop block_i blocks s = Ok s' ->
  encoder_part blocks <> [] \/ e_in_dim_3d s = e_in_dim_2d s ->
  e_in_dim_3d s' = e_in_dim_2d s'.
Proof.
  induction blocks as [|block rest IH]; intros block_i s s' H Hw.
  - cbn in H. inversion H; subst. destruct Hw as [Hw|Hw]; [|exact Hw].
    now contradiction Hw.
  - cbn [Builder.encoder_loop] in H.
    destruct (Builder.encoder_step Block block_decider block_i block s)
      as [[s1 brk]|] eqn:E; [|discriminate].
    cbn [bind fst snd] in H.
    apply EncoderFacts.encoder_step_inv in E.
    destruct E as (_ & -> & [[Hu ->] | (Hu & b3 & b2 & _ & _ & ->)]);
      rewrite Hu in H.
    + inversion H; subst.
      destruct (EncoderFacts.tapped_fields Block block_i block s)
        as (_ & _ & _ & -> & -> & _).
      destruct Hw as [Hw|Hw]; [|exact Hw].
      cbn [encoder_part] in Hw. rewrite Hu in Hw. now contradiction Hw.
    + apply IH in H; [exact H|]. right. reflexivity.
Qed.

Lemma decoder_loop_grows arch start_i dims blocks : forall block_i s s',
  decoder_loop arch start_i dims block_i blocks s = Ok s' ->
  exists bs, decoder_blocks s' = decoder_blocks s ++ bs.
Proof.
  induction blocks as [|block rest IH]; intros block_i s s' H.
  - cbn in H. inversion H; subst. exists []. now rewrite app_nil_r.
  - cbn [Builder.decoder_loop] in H.
    destruct (Builder.decoder_step Block block_decider arch start_i dims
                block_i block s) as [s2|] eqn:E; [|discriminate].
    cbn [bind] in H.
    apply (DecoderFacts.decoder_step_inv Block block_decider) in E.
    destruct E as (s1 & b & Hc & _ & ->).
    apply DecoderFacts.concat_skip_inv in Hc.
    destruct Hc as (_ & _ & _ & Hb).
    apply IH in H. destruct H as [bs H]. exists (b :: bs).
    rewrite H. cbn [Builder.apply_decoder_block decoder_blocks].
    now rewrite Hb, <- app_assoc.
Qed.

End Loops.

End TowerFacts.

(** * Splitting the decoder loop *)

Module DecoderMoreFacts.
Import Builder Arch.

Section Loops.

Variable Block : Type.
Variable block_decider : string -> Q -> Z -> Z -> Z -> result Block.

Local Abbreviation decoder_loop := (Builder.decoder_loop Block block_decider).
Local Abbreviation decoder_step := (Builder.decoder_step Block block_decider).

Lemma decoder_loop_app arch start_i dims pre : forall post block_i s,
  decoder_loop arch start_i dims block_i (pre ++ post) s =
  (s1 <- decoder_loop arch start_i dims block_i pre s ;;
   decoder_loop arch start_i dims (block_i + List.length pre) post s1).
Proof.
  induction pre as [|block pre IH]; intros post block_i s.
  - cbn. now rewrite Nat.add_0_r.
  - cbn [app Builder.decoder_loop List.length].
    destruct (decoder_step arch start_i dims block_i block s) as [s1|];
      [|reflexivity].
    cbn [bind]. rewrite IH. now rewrite Nat.add_succ_r.
Qed.

Lemma decoder_loop_reaches arch start_i dims pre block post s0 d :
  decoder_loop arch start_i dims 0 (pre ++ block :: post) s0 = Ok d ->
  exists s s1,
    decoder_loop arch start_i dims 0 pre s0 = Ok s /\
    decoder_step arch start_i dims (List.length pre) block s = Ok s1 /\
    decoder_loop arch start_i dims (S (List.length pre)) post s1 = Ok d.
Proof.
  rewrite decoder_loop_app. cbn [Nat.add].
  destruct (decoder_loop arch start_i dims 0 pre s0) as [s|]; [|discriminate].
  cbn [bind Builder.decoder_loop].
  destruct (decoder_step arch start_i dims (List.length pre) block s)
    as [s1|] eqn:E; [|discriminate].
  cbn [bind]. intros H. now exists s, s1.
Qed.

Lemma decoder_loop_length arch start_i dims blocks : forall block_i s s',
  decoder_loop arch start_i dims block_i blocks s = Ok s' ->
  List.length (decoder_blocks s')
  = (List.length (decoder_blocks s) + List.length blocks)%nat.
Proof.
  induction blocks as [|block rest IH]; intros block_i s s' H.
  - cbn in H. inversion H; subst. cbn. lia.
  - cbn [Builder.decoder_loop] in H.
    destruct (decoder_step arch start_i dims block_i block s) as [s2|] eqn:E;
      [|discriminate].
    cbn [bind] in H.
    apply (DecoderFacts.decoder_step_inv Block block_decider) in E.
    destruct E as (s1 & b & Hc & _ & ->).
    apply DecoderFacts.concat_skip_inv in Hc.
    destruct Hc as (_ & _ & _ & Hb).
    apply IH in H. rewrite H.
    cbn [Builder.apply_decoder_block decoder_blocks List.length].
    rewrite length_app, Hb. cbn. lia.
Qed.

Lemma concat_skip_width arch start_i dims block_i s s1 p :
  prev_is_upsample arch start_i block_i p ->
  Builder.concat_skip Block arch start_i dims block_i s = Ok s1 ->
  if p then exists w, Py.getitem dims (d_layer s) = Some w /\
                      d_in_dim s1 = d_in_dim s + w
  else d_in_dim s1 = d_in_dim s.
Proof.
  intros Hp. rewrite (DecoderFacts.concat_skip_view _ _ _ _ _ _ _ Hp).
  destruct p.
  - destruct (Py.getitem dims (d_layer s)) as [w|]; [|discriminate].
    cbn. intros H. inversion H; subst. now exists w.
  - intros H. inversion H; subst. reflexivity.
Qed.

End Loops.

End DecoderMoreFacts.

(** * Properties of the builder *)

Module BuilderTheorems.
Import Builder Arch.

Section Claims.

Variable Block : Type.
Variable block_decider : string -> Q -> Z -> Z -> Z -> result Block.

Local Abbreviation encoder_step := (Builder.encoder_step Block block_decider).
Local Abbreviation encoder_loop := (Builder.encoder_loop Block block_decider).
Local Abbreviation decoder_step := (Builder.decoder_step Block block_decider).
Local Abbreviation build_encoder := (Builder.build_encoder Block block_decider).
Local Abbreviation build_decoder := (Builder.build_decoder Block block_decider).
Local Abbreviation init := (Builder.init Block block_decider).
Local Abbreviation encoder_init := (Builder.encoder_init Block).

Lemma init_inv config lbl_values ign_lbls m :
  init config lbl_values ign_lbls = Ok m ->
  build_encoder config = Ok (enc m) /\
  build_decoder config (enc m) = Ok (dec m) /\
  u_in_dim (head_mlp m) = d_out_dim (dec m) /\
  m_deform_fitting_mode m = deform_fitting_mode config /\
  criterion m = choose_criterion config.
Proof.
  unfold Builder.init.
  destruct (build_encoder config) as [e|] eqn:He; [|discriminate].
  cbn [bind].
  destruct (build_decoder config e) as [d|] eqn:Hd; [|discriminate].
  cbn [bind].
  intros H. inversion H; subst. cbn. repeat split. exact Hd.
Qed.

(** C1 (amended): for every block the encoder loop reaches (no upsampling
    block before it) whose descriptor contains 'pool', 'strided', 'upsample'
    or 'global', the block's index is appended to encoder_skips and the sum
    in_dim_3d + in_dim_2d of the state before the block is appended to
    encoder_skip_dims at the same position; the block is not yet built at
    that point, and unless it is the upsampling block that ends the loop it
    is then built from those same input widths.  The loop breaks at the
    first upsampling block: encoder_skips holds exactly the indices of the
    matching blocks up to and including that block, no tower block is built
    from it on, and no block after it gets a tap. *)
Theorem skip_tap_recorded_before_block config lbl_values ign_lbls m
  pre block post :
  architecture config = pre ++ block :: post ->
  no_upsample pre ->
  is_skip_block block = true ->
  init config lbl_values ign_lbls = Ok m ->
  (exists s,
     encoder_loop 0 pre (encoder_init config) = Ok s /\
     List.length (encoder_blocks_3d s) = List.length pre /\
     List.length (encoder_blocks_2d s) = List.length pre /\
     List.length (encoder_skip_dims s) = List.length (encoder_skips s) /\
     nth_error (encoder_skips (enc m)) (List.length (encoder_skips s))
       = Some (List.length pre) /\
     nth_error (encoder_skip_dims (enc m)) (List.length (encoder_skips s))
       = Some (e_in_dim_3d s + e_in_dim_2d s) /\
     (is_upsample block = false ->
      exists b3 b2,
        block_decider block (e_r s) (e_in_dim_3d s) (e_out_dim s) (e_layer s)
          = Ok b3 /\
        block_decider block (e_r s) (e_in_dim_2d s) (e_out_dim s) (e_layer s)
          = Ok b2 /\
        nth_error (encoder_blocks_3d (enc m)) (List.length pre) = Some b3 /\
        nth_error (encoder_blocks_2d (enc m)) (List.length pre) = Some b2)) /\
  (forall i,
     In i (encoder_skips (enc m)) <->
     exists b, nth_error (encoder_visited (architecture config)) i = Some b /\
               is_skip_block b = true) /\
  List.length (encoder_blocks_3d (enc m))
  = List.length (encoder_part (architecture config)) /\
  List.length (encoder_skip_dims (enc m))
  = List.length (encoder_skips (enc m)) /\
  (forall i,
     (List.length (encoder_part (architecture config)) < i)%nat ->
     ~ In i (encoder_skips (enc m))).
Proof.
  intros Harch Hpre Hskip Hinit.
  apply init_inv in Hinit. destruct Hinit as (He & _).
  assert (Hpos : forall i,
            In i (encoder_skips (enc m)) <->
            exists b,
              nth_error (encoder_visited (architecture config)) i = Some b /\
              is_skip_block b = true).
  { intros i.
    destruct (SkipFacts.built_skips _ _ _ _ He) as (-> & _).
    rewrite SkipFacts.In_positions. rewrite Nat.sub_0_r.
    split; intros (b & H); exists b; [tauto|].
    split; [lia | exact H]. }
  split; [|split; [exact Hpos|split; [|split]]].
  2: { apply (SkipFacts.built_skips _ _ _ _ He). }
  2: { unfold Builder.build_encoder in He.
       apply EncoderFacts.encoder_loop_grows in He.
       destruct He as (sk & dm & _ & _ & -> & -> & _ & _ & Hl & _).
       cbn. lia. }
  2: { intros i Hi Hin. apply Hpos in Hin. destruct Hin as (b & Hn & _).
       assert (i < List.length (encoder_visited (architecture config)))%nat
         by (apply nth_error_Some; congruence).
       pose proof (SkipFacts.encoder_visited_length (architecture config)).
       lia. }
  unfold Builder.build_encoder in He. rewrite Harch in He.
  destruct (EncoderFacts.encoder_loop_reaches _ _ _ _ _ _ _ Hpre He)
    as (s & s1 & brk & Hs & Hstep & Hrest).
  exists s. split; [exact Hs|].
  destruct (EncoderFacts.encoder_loop_grows _ _ _ _ _ _ Hs)
    as (sk & dm & p3 & p2 & G1 & G2 & G3 & G4 & G5 & G6 & G7).
  cbn [Builder.encoder_init encoder_skips encoder_skip_dims
       encoder_blocks_3d encoder_blocks_2d app] in G1, G2, G3, G4.
  rewrite (EncoderFacts.encoder_part_no_upsample _ Hpre) in G7.
  assert (L3 : List.length (encoder_blocks_3d s) = List.length pre)
    by (rewrite G3; exact G7).
  assert (L2 : List.length (encoder_blocks_2d s) = List.length pre)
    by (rewrite G4; lia).
  assert (Lk : List.length (encoder_skip_dims s)
               = List.length (encoder_skips s))
    by (rewrite G1, G2; lia).
  split; [exact L3|]. split; [exact L2|]. split; [exact Lk|].
  apply EncoderFacts.encoder_step_inv in Hstep.
  destruct Hstep as (_ & -> & Hstep).
  unfold Builder.tap in Hstep. rewrite Hskip in Hstep.
  destruct Hstep as [(Hu & ->) | (Hu & b3 & b2 & E3 & E2 & ->)];
    rewrite Hu in Hrest.
  - inversion Hrest; subst. cbn [Builder.record_skip encoder_skips
      encoder_skip_dims].
    split; [|split; [|congruence]].
    + rewrite nth_error_app2 by lia. now rewrite Nat.sub_diag.
    + rewrite <- Lk. rewrite nth_error_app2 by lia. now rewrite Nat.sub_diag.
  - destruct (EncoderFacts.encoder_loop_grows _ _ _ _ _ _ Hrest)
      as (sk' & dm' & q3 & q2 & R1 & R2 & R3 & R4 & _).
    cbn [Builder.apply_block Builder.record_skip encoder_skips
         encoder_skip_dims encoder_blocks_3d encoder_blocks_2d]
      in R1, R2, R3, R4.
    rewrite R1, R2, R3, R4.
    split; [apply EncoderFacts.nth_error_middle|].
    split; [rewrite <- Lk; apply EncoderFacts.nth_error_middle|].
    intros _. exists b3, b2. split; [exact E3|]. split; [exact E2|].
    rewrite <- L3 at 1. rewrite <- L2.
    split; apply EncoderFacts.nth_error_middle.
Qed.


(** C2 (amended): with N the pooling/strided blocks the encoder loop has
    processed and M the upsampling blocks the decoder loop has processed,
    the layer index is N - M and the radius is the initial radius times
    2^(N-M); the output width is first_features_dim * 2^N floor-divided by
    2^M, which is first_features_dim * 2^(N-M) whenever M <= N.  Each
    pooling or strided block increments the layer and doubles radius and
    width exactly once; each upsampling block decrements the layer, halves
    the radius and floor-halves the width exactly once. *)
Theorem radius_and_width_law config e d :
  build_encoder config = Ok e ->
  build_decoder config e = Ok d ->
  let n := pooling_transitions (architecture config) in
  let m := upsampling_transitions (architecture config) in
  let r0 := (first_subsampling_dl config * conv_radius config)%Q in
  let w0 := first_features_dim config in
  (e_layer e = n /\ (e_r e == r0 * 2 ^ n)%Q /\ e_out_dim e = w0 * 2 ^ n) /\
  (d_layer d = n - m /\ (d_r d == r0 * 2 ^ (n - m))%Q /\
   d_out_dim d = w0 * 2 ^ n / 2 ^ m) /\
  (m <= n -> d_out_dim d = w0 * 2 ^ (n - m)) /\
  (forall block_i block s s',
     encoder_step block_i block s = Ok (s', false) ->
     e_layer s' = e_layer s + (if is_subsampling block then 1 else 0) /\
     e_r s' = (if is_subsampling block then e_r s * 2 else e_r s)%Q /\
     e_out_dim s' = (if is_subsampling block then e_out_dim s * 2
                     else e_out_dim s)) /\
  (forall arch start_i dims block_i block s s',
     decoder_step arch start_i dims block_i block s = Ok s' ->
     d_layer s' = d_layer s - (if is_upsample block then 1 else 0) /\
     d_r s' = (if is_upsample block then d_r s * (1 # 2) else d_r s)%Q /\
     d_out_dim s' = (if is_upsample block then d_out_dim s / 2
                     else d_out_dim s)).
Proof.
  intros He Hd n m r0 w0.
  unfold Builder.build_encoder in He.
  apply EncoderFacts.encoder_loop_law in He. cbn zeta in He.
  fold (pooling_transitions (architecture config)) in He. fold n in He.
  cbn [Builder.encoder_init e_layer e_r e_out_dim] in He.
  fold r0 w0 in He. destruct He as (El & Er & Eo).
  unfold Builder.build_decoder in Hd.
  apply DecoderFacts.decoder_loop_law in Hd. cbn zeta in Hd.
  fold (decoder_part (architecture config)) in Hd.
  fold (upsampling_transitions (architecture config)) in Hd. fold m in Hd.
  cbn [Builder.decoder_init d_layer d_r d_out_dim] in Hd.
  destruct Hd as (Dl & Dr & Do).
  assert (Hn : 0 <= n) by apply EncoderFacts.count_nonneg.
  assert (Hm : 0 <= m) by apply EncoderFacts.count_nonneg.
  split; [|split; [|split; [|split]]].
  - split; [lia|]. split; [exact Er|exact Eo].
  - split; [lia|]. split.
    + rewrite Dr, Er. unfold Z.sub.
      rewrite (Qpower_plus 2 n (- m)) by discriminate. ring.
    + rewrite Do, Eo. reflexivity.
  - intros Hle. rewrite Do, Eo.
    replace n with ((n - m) + m) at 1 by lia.
    rewrite Z.pow_add_r by lia. rewrite Z.mul_assoc.
    apply Z.div_mul. apply Z.pow_nonzero; lia.
  - intros block_i block s s' Hstep.
    apply EncoderFacts.encoder_step_inv in Hstep.
    destruct Hstep as (_ & Hbrk & Hstep).
    destruct Hstep as [(Hu & _) | (_ & b3 & b2 & _ & _ & ->)];
      [congruence|].
    destruct (EncoderFacts.tapped_fields Block block_i block s)
      as (Tl & Tr & To & _).
    cbn [Builder.apply_block e_layer e_r e_out_dim].
    fold (is_subsampling block). rewrite Tl, Tr, To.
    destruct (is_subsampling block); repeat split; lia.
  - intros arch start_i dims block_i block s s' Hstep.
    apply DecoderFacts.decoder_step_inv in Hstep.
    destruct Hstep as (s1 & b & Hc & _ & ->).
    apply DecoderFacts.concat_skip_inv in Hc. destruct Hc as (Cl & Cr & Co & _).
    cbn [Builder.apply_decoder_block d_layer d_r d_out_dim].
    fold (is_upsample block). rewrite Cl, Cr, Co.
    destruct (is_upsample block); repeat split; lia.
Qed.

(** C3: when the encoder loop reaches a block whose descriptor contains
    'equivariant' while out_dim is not a multiple of 3, that iteration
    raises the ValueError at once and so does the whole construction. *)
Theorem equivariant_check_raises config lbl_values ign_lbls pre block post s :
  architecture config = pre ++ block :: post ->
  no_upsample pre ->
  encoder_loop 0 pre (encoder_init config) = Ok s ->
  is_equivariant block = true ->
  e_out_dim s mod 3 <> 0 ->
  encoder_step (List.length pre) block s
    = Raise (ValueError equivariant_msg) /\
  build_encoder config = Raise (ValueError equivariant_msg) /\
  init config lbl_values ign_lbls = Raise (ValueError equivariant_msg).
Proof.
  intros Harch Hpre Hs Heq Hmod.
  assert (Hstep : encoder_step (List.length pre) block s
                  = Raise (ValueError equivariant_msg)).
  { unfold Builder.encoder_step. fold (is_equivariant block). rewrite Heq.
    destruct (Z.eqb_spec (e_out_dim s mod 3) 0); [contradiction|].
    reflexivity. }
  assert (Henc : build_encoder config = Raise (ValueError equivariant_msg)).
  { unfold Builder.build_encoder. rewrite Harch.
    rewrite EncoderFacts.encoder_loop_app by exact Hpre.
    rewrite Hs. cbn [bind Builder.encoder_loop Nat.add].
    rewrite Hstep. reflexivity. }
  split; [exact Hstep|]. split; [exact Henc|].
  unfold Builder.init. rewrite Henc. reflexivity.
Qed.


Ltac run_block Hbd :=
  lazymatch goal with
  | |- context [block_decider ?blk ?rad ?din ?dout ?lay] =>
      let built := fresh "built" in
      let Hbuilt := fresh "Hbuilt" in
      destruct (Hbd blk rad din dout lay) as [built Hbuilt];
      [ cbn; tauto | rewrite Hbuilt; clear Hbuilt; cbn [bind] ]
  end.

(** C4 (amended): for the architecture
    ["simple","resnetb","resnetb_strided","resnetb","upsample","unary"]
    construction records two skip-tap indices, 2 (the strided block) and 4
    (the upsampling block that ends the encoder), with widths 2*w0 and 4*w0;
    the four encoder blocks have indices 0..3, so the forward pass captures
    only the tap at index 2.  It records exactly one decoder concat marker,
    at decoder index 1 (right after the upsampling block), and the final
    output width, the input width of the head, is w0; the final radius is
    the initial radius and the final layer is 0. *)
Theorem one_level_example config lbl_values ign_lbls :
  architecture config = Samples.one_level_arch ->
  (forall block r i o l, In block Samples.one_level_arch ->
     exists b, block_decider block r i o l = Ok b) ->
  let r0 := (first_subsampling_dl config * conv_radius config)%Q in
  let w0 := first_features_dim config in
  exists m,
    init config lbl_values ign_lbls = Ok m /\
    encoder_skips (enc m) = [2; 4]%nat /\
    encoder_skip_dims (enc m) = [w0 + w0; w0 * 2 + w0 * 2] /\
    List.length (encoder_blocks_3d (enc m)) = 4%nat /\
    (forall (X : Type) (block_op : Block -> X -> X) (x_3d : X),
       List.length
         (fst (Forward.encoder_3d Block X block_op (encoder_skips (enc m)) 0
                 (encoder_blocks_3d (enc m)) [] x_3d)) = 1%nat) /\
    decoder_concats (dec m) = [1%nat] /\
    List.length (decoder_blocks (dec m)) = 2%nat /\
    d_out_dim (dec m) = w0 /\
    u_in_dim (head_mlp m) = w0 /\
    d_layer (dec m) = 0 /\
    (d_r (dec m) == r0)%Q.
Proof.
  intros Harch Hbd r0 w0.
  unfold Builder.init, Builder.build_encoder, Builder.build_decoder.
  rewrite Harch. unfold Samples.one_level_arch, Builder.encoder_init.
  fold r0 w0.
  repeat first [ run_block Hbd
               | progress cbn -[Qmult Z.mul Z.div Z.modulo]
               | progress unfold Builder.decoder_step, Builder.concat_skip ].
  eexists. split; [reflexivity|].
  cbn -[Qmult Z.mul Z.div Z.modulo].
  assert (Hw : w0 * 2 / 2 = w0) by (apply Z.div_mul; lia).
  repeat split; try assumption.
  rewrite <- Qmult_assoc. change (2 * (1 # 2))%Q with (2 # 2)%Q.
  setoid_replace (2 # 2)%Q with 1%Q by reflexivity.
  apply Qmult_1_r.
Qed.

Lemma In_skipn {A : Type} (x : A) (n : nat) (l : list A) :
  In x (skipn n l) -> In x l.
Proof.
  intros H. rewrite <- (firstn_skipn n l). apply in_or_app. now right.
Qed.

Lemma count_removelast_le p blocks :
  count p (removelast blocks) <= count p blocks.
Proof.
  induction blocks as [|block rest IH].
  - cbn. lia.
  - destruct rest as [|b' rest'].
    + cbn [removelast]. rewrite EncoderFacts.count_cons.
      change (count p []) with 0. destruct (p block); lia.
    + change (removelast (block :: b' :: rest'))
        with (block :: removelast (b' :: rest')).
      rewrite !EncoderFacts.count_cons.
      rewrite EncoderFacts.count_cons in IH. lia.
Qed.

(** With every descriptor accepted by [block_decider], the loops of the
    constructor complete exactly when the equivariance check passes and
    every skip width the decoder loop looks up is in the range Python
    accepts; they complete in particular when the upsampling blocks of the
    decoder slice are at most as many as the pooling or strided blocks
    before it. *)
Lemma loops_complete_iff config lbl_values ign_lbls :
  (forall block, In block (architecture config) ->
     forall r i o l, exists b, block_decider block r i o l = Ok b) ->
  let arch := architecture config in
  let equivariance_ok :=
    first_features_dim config mod 3 = 0 \/
    existsb is_equivariant (encoder_visited arch) = false in
  ((exists m, init config lbl_values ign_lbls = Ok m) <->
   equivariance_ok /\
   skip_lookups arch
   <= pooling_transitions arch + count is_skip_block (encoder_visited arch))
  /\
  (equivariance_ok ->
   upsampling_transitions arch <= pooling_transitions arch ->
   exists m, init config lbl_values ign_lbls = Ok m).
Proof.
  intros Hbd arch equivariance_ok.
  assert (Henc : (exists e, build_encoder config = Ok e) <-> equivariance_ok).
  { unfold Builder.build_encoder.
    rewrite (EncoderFacts.encoder_loop_succeeds Block block_decider
               (architecture config) 0 (encoder_init config) Hbd).
    reflexivity. }
  assert (Hdec : forall e, build_encoder config = Ok e ->
            ((exists d, build_decoder config e = Ok d) <->
             skip_lookups arch
             <= pooling_transitions arch
                + count is_skip_block (encoder_visited arch))).
  { intros e He.
    pose proof (EncoderFacts.encoder_loop_law _ _ _ _ _ _ He) as (Hl & _).
    pose proof (EncoderFacts.encoder_loop_taps _ _ _ _ _ _ He) as Ht.
    cbn [Builder.encoder_init e_layer encoder_skip_dims List.length] in Hl, Ht.
    fold arch in Hl, Ht. fold (pooling_transitions arch) in Hl.
    pose proof (EncoderFacts.transitions_le_taps arch) as Hle.
    fold (pooling_transitions arch) in Hle.
    unfold Builder.build_decoder. fold arch.
    rewrite (DecoderFacts.decoder_loop_succeeds Block block_decider arch
               (find_start 0 arch 0) (encoder_skip_dims e)
               (decoder_part arch) 0 (decoder_init Block e) false).
    - cbn [Builder.decoder_init d_layer]. fold (skip_lookups arch).
      pose proof (EncoderFacts.count_nonneg is_upsample
                    (removelast (decoder_part arch))) as Hc.
      fold (skip_lookups arch) in Hc.
      rewrite Hl, Ht.
      pose proof (EncoderFacts.count_nonneg is_subsampling
                    (encoder_part arch)) as Hn.
      fold (pooling_transitions arch) in Hn.
      split.
      + intros [H|H].
        * unfold skip_lookups in *. rewrite H in *. cbn in *. lia.
        * destruct (Z.eq_dec (skip_lookups arch) 0); [lia|].
          apply H. right. lia.
      + intros H. right. intros _. lia.
    - intros block Hin. apply Hbd. apply (In_skipn _ _ _ Hin).
    - rewrite Nat.add_0_r. reflexivity.
    - reflexivity.
    - cbn [Builder.decoder_init d_layer]. rewrite Hl, Ht. lia. }
  assert (Hiff : (exists m, init config lbl_values ign_lbls = Ok m) <->
                 equivariance_ok /\
                 skip_lookups arch
                 <= pooling_transitions arch
                    + count is_skip_block (encoder_visited arch)).
  { split.
    - intros [m Hm]. apply init_inv in Hm. destruct Hm as (He & Hd & _).
      split; [apply Henc; now exists (enc m)|].
      apply (Hdec _ He). now exists (dec m).
    - intros [Heq Hlk]. apply Henc in Heq. destruct Heq as [e He].
      apply (Hdec _ He) in Hlk. destruct Hlk as [d Hd].
      unfold Builder.init. rewrite He. cbn [bind]. rewrite Hd. cbn [bind].
      eexists. reflexivity. }
  split; [exact Hiff|].
  intros Heq Hmn. apply Hiff. split; [exact Heq|].
  pose proof (count_removelast_le is_upsample (decoder_part arch)) as H1.
  fold (skip_lookups arch) in H1. fold (upsampling_transitions arch) in H1.
  pose proof (EncoderFacts.count_nonneg is_skip_block (encoder_visited arch)).
  lia.
Qed.

Section Construction.

Variable unary_block : UnaryBlock -> result unit.
Variable external_networks : result unit.

Local Abbreviation construct :=
  (Builder.construct Block block_decider unary_block external_networks).

Lemma construct_of_init config lbl_values ign_lbls :
  (forall u, exists t, unary_block u = Ok t) ->
  (exists t, external_networks = Ok t) ->
  construct config lbl_values ign_lbls = init config lbl_values ign_lbls.
Proof.
  intros Hu [t Ht]. unfold Builder.construct.
  destruct (init config lbl_values ign_lbls) as [m|e]; [|reflexivity].
  cbn [bind].
  destruct (Hu (head_mlp m)) as [t1 ->]. cbn [bind].
  destruct (Hu (head_softmax m)) as [t2 ->]. cbn [bind].
  rewrite Ht. reflexivity.
Qed.

Lemma init_raises config lbl_values ign_lbls e :
  (forall block, In block (architecture config) ->
     forall r i o l, exists b, block_decider block r i o l = Ok b) ->
  init config lbl_values ign_lbls = Raise e ->
  (e = ValueError equivariant_msg /\
   forall e', build_encoder config <> Ok e') \/
  e = IndexError.
Proof.
  intros Hbd. unfold Builder.init.
  destruct (build_encoder config) as [e1|e1] eqn:He; cbn [bind].
  - destruct (build_decoder config e1) as [d|e2] eqn:Hd; cbn [bind];
      [discriminate|].
    intros H. injection H as <-. right.
    unfold Builder.build_decoder in Hd.
    apply (DecoderFacts.decoder_loop_raises Block block_decider) in Hd;
      [exact Hd|].
    intros block Hin. apply Hbd. apply (In_skipn _ _ _ Hin).
  - intros H. injection H as <-. left. split; [|discriminate].
    unfold Builder.build_encoder in He.
    apply (EncoderFacts.encoder_loop_raises Block block_decider) in He;
      [exact He | exact Hbd].
Qed.

(** C5 (amended): provided block_decider accepts every descriptor and the
    head layers and the external networks build, construction succeeds
    whenever the equivariance check passes and M <= N, where N counts the
    pooling or strided blocks before the first upsampling block and M the
    upsampling blocks from there on.  It fails with the equivariance
    ValueError exactly when that check fails, and the only other failure is
    an IndexError of the skip-width lookup of line 163. *)
Theorem construction_succeeds_when_balanced config lbl_values ign_lbls :
  (forall block, In block (architecture config) ->
     forall r i o l, exists b, block_decider block r i o l = Ok b) ->
  (forall u, exists t, unary_block u = Ok t) ->
  (exists t, external_networks = Ok t) ->
  let arch := architecture config in
  let equivariance_ok :=
    first_features_dim config mod 3 = 0 \/
    existsb is_equivariant (encoder_visited arch) = false in
  (equivariance_ok ->
   upsampling_transitions arch <= pooling_transitions arch ->
   exists m, construct config lbl_values ign_lbls = Ok m) /\
  (construct config lbl_values ign_lbls = Raise (ValueError equivariant_msg)
   <-> ~ equivariance_ok) /\
  (forall e, construct config lbl_values ign_lbls = Raise e ->
     e = ValueError equivariant_msg \/ e = IndexError).
Proof.
  intros Hbd Hu Hn arch equivariance_ok.
  rewrite (construct_of_init config lbl_values ign_lbls Hu Hn).
  destruct (loops_complete_iff config lbl_values ign_lbls Hbd)
    as [Hiff Hsuff].
  cbn zeta in Hiff, Hsuff. fold arch in Hiff, Hsuff.
  fold equivariance_ok in Hiff, Hsuff.
  assert (Henc : (exists e, build_encoder config = Ok e) <-> equivariance_ok).
  { unfold Builder.build_encoder.
    rewrite (EncoderFacts.encoder_loop_succeeds Block block_decider
               (architecture config) 0 (encoder_init config) Hbd).
    reflexivity. }
  split; [exact Hsuff|]. split.
  - split.
    + intros H Hok.
      destruct (init_raises _ _ _ _ Hbd H) as [[_ Hno] | Hix];
        [|discriminate].
      apply Henc in Hok. destruct Hok as [e He]. exact (Hno e He).
    + intros Hno.
      destruct (init config lbl_values ign_lbls) as [m|e] eqn:Hm.
      * exfalso. apply Hno. apply Hiff. now exists m.
      * destruct (init_raises _ _ _ _ Hbd Hm) as [[-> _] | ->];
          [reflexivity|].
        exfalso. apply Hno. apply Henc.
        unfold Builder.init in Hm.
        destruct (build_encoder config) as [e1|e1] eqn:He;
          [now exists e1|].
        cbn [bind] in Hm. injection Hm as ->.
        unfold Builder.build_encoder in He.
        apply (EncoderFacts.encoder_loop_raises Block block_decider) in He;
          [discriminate | exact Hbd].
  - intros e He.
    destruct (init_raises _ _ _ _ Hbd He) as [[-> _] | ->];
      [now left | now right].
Qed.

End Construction.

End Claims.

End BuilderTheorems.

(** ** The statements on concrete architectures *)

Module BuilderExamples.
Import Builder Arch Samples.

Lemma record_args_total (blocks : list string) :
  forall block, In block blocks ->
    forall r i o l, exists b, record_args block r i o l = Ok b.
Proof. intros block _ r i o l. eexists. reflexivity. Qed.

Lemma skip_tap_recorded_witness :
  exists m,
    init _ record_args (config_of two_level_arch 128 "point2point")
         lbl_values ign_lbls = Ok m /\
    nth_error (encoder_skips (enc m)) 1 = Some 3%nat /\
    nth_error (encoder_skip_dims (enc m)) 1 = Some 512 /\
    ~ In 7%nat (encoder_skips (enc m)).
Proof.
  assert (Hinit : exists m,
            init _ record_args (config_of two_level_arch 128 "point2point")
                 lbl_values ign_lbls = Ok m)
    by (eexists; vm_compute; reflexivity).
  destruct Hinit as [m Hinit]. exists m. split; [exact Hinit|].
  destruct (BuilderTheorems.skip_tap_recorded_before_block _ record_args
              (config_of two_level_arch 128 "point2point")
              lbl_values ign_lbls m
              ["simple"; "resnetb_strided"; "resnetb"] "resnetb_strided"
              ["resnetb"; "nearest_upsample"; "unary"; "nearest_upsample";
               "unary"]
              ltac:(reflexivity) ltac:(vm_compute; reflexivity)
              ltac:(vm_compute; reflexivity) Hinit)
    as [(s & Hs & _ & _ & _ & Hk & Hd & _) (_ & _ & _ & Hafter)].
  vm_compute in Hs. injection Hs as <-.
  split; [exact Hk|]. split; [exact Hd|].
  apply Hafter. vm_compute. lia.
Defined.

(** The second upsampling block of a two-level architecture is never
    looked at by the encoder loop: its index is not in [encoder_skips]. *)
Lemma later_upsample_not_recorded :
  ~ (forall i block m,
       nth_error two_level_arch i = Some block ->
       is_skip_block block = true ->
       init _ record_args (config_of two_level_arch 128 "point2point")
            lbl_values ign_lbls = Ok m ->
       In i (encoder_skips (enc m))).
Proof.
  intros H.
  assert (E : exists m,
            init _ record_args (config_of two_level_arch 128 "point2point")
                 lbl_values ign_lbls = Ok m /\
            encoder_skips (enc m) = [1; 3; 5]%nat)
    by (eexists; split; vm_compute; reflexivity).
  destruct E as (m & Hm & Hs).
  assert (Hn : nth_error two_level_arch 7 = Some "nearest_upsample")
    by reflexivity.
  assert (Hb : is_skip_block "nearest_upsample" = true)
    by (vm_compute; reflexivity).
  pose proof (H 7%nat "nearest_upsample" m Hn Hb Hm) as Hin.
  rewrite Hs in Hin.
  destruct Hin as [Hin | [Hin | [Hin | Hin]]];
    [discriminate | discriminate | discriminate | exact Hin].
Defined.

Lemma radius_and_width_witness :
  exists e d,
    build_encoder _ record_args (config_of one_level_arch 128 "point2point")
      = Ok e /\
    build_decoder _ record_args (config_of one_level_arch 128 "point2point") e
      = Ok d /\
    e_layer e = 1 /\ e_out_dim e = 256 /\ d_layer d = 0 /\ d_out_dim d = 128.
Proof.
  assert (E : exists e d,
            build_encoder _ record_args
              (config_of one_level_arch 128 "point2point") = Ok e /\
            build_decoder _ record_args
              (config_of one_level_arch 128 "point2point") e = Ok d)
    by (eexists; eexists; split; vm_compute; reflexivity).
  destruct E as (e & d & He & Hd). exists e, d.
  split; [exact He|]. split; [exact Hd|].
  destruct (BuilderTheorems.radius_and_width_law _ record_args
              (config_of one_level_arch 128 "point2point") e d He Hd)
    as ((El & _ & Eo) & (Dl & _ & _) & Do & _).
  vm_compute in El, Eo, Dl.
  split; [exact El|]. split; [exact Eo|]. split; [exact Dl|].
  rewrite Do; [reflexivity | vm_compute; discriminate].
Defined.

(** With width 3 and one more upsampling than pooling transition the final
    width is 3 // 2 = 1, not 3 * 2^(-1). *)
Lemma odd_width_is_floored :
  exists m,
    init _ record_args (config_of shallow_arch 3 "point2point")
         lbl_values ign_lbls = Ok m /\
    pooling_transitions shallow_arch = 0 /\
    upsampling_transitions shallow_arch = 1 /\
    d_out_dim (dec m) = 1 /\
    ~ (inject_Z (d_out_dim (dec m)) == inject_Z 3 * 2 ^ (0 - 1))%Q.
Proof.
  eexists. split; [vm_compute; reflexivity|].
  split; [reflexivity|]. split; [reflexivity|]. split; [reflexivity|].
  vm_compute. discriminate.
Defined.

Lemma equivariant_check_witness :
  init _ record_args (config_of equivariant_arch 128 "point2point")
       lbl_values ign_lbls = Raise (ValueError equivariant_msg).
Proof.
  eapply (fun s Hs Hm =>
            proj2 (proj2 (BuilderTheorems.equivariant_check_raises
                            _ record_args
                            (config_of equivariant_arch 128 "point2point")
                            lbl_values ign_lbls
                            ["simple"] "resnetb_equivariant" ["resnetb"] s
                            eq_refl eq_refl Hs eq_refl Hm))).
  - vm_compute. reflexivity.
  - vm_compute. discriminate.
Defined.

Lemma one_level_example_witness :
  exists m,
    init _ record_args (config_of one_level_arch 128 "point2point")
         lbl_values ign_lbls = Ok m /\
    encoder_skips (enc m) = [2; 4]%nat /\
    decoder_concats (dec m) = [1%nat] /\
    u_in_dim (head_mlp m) = 128.
Proof.
  destruct (BuilderTheorems.one_level_example _ record_args
              (config_of one_level_arch 128 "point2point")
              lbl_values ign_lbls eq_refl
              (fun block r i o l _ =>
                 ex_intro _ (block, r, i, o, l) eq_refl))
    as (m & Hm & Hs & _ & _ & _ & Hc & _ & _ & Hu & _).
  exists m. repeat split; assumption.
Defined.

(** The one-level example records two skip-tap indices, not one. *)
Lemma one_level_example_two_taps :
  ~ (exists m,
       init _ record_args (config_of one_level_arch 128 "point2point")
            lbl_values ign_lbls = Ok m /\
       List.length (encoder_skips (enc m)) = 1%nat).
Proof.
  intros (m & Hm & Hl). vm_compute in Hm. injection Hm as <-.
  vm_compute in Hl. discriminate.
Defined.

Lemma construction_succeeds_witness :
  exists m,
    construct _ record_args (fun _ => Ok tt) (Ok tt)
              (config_of one_level_arch 128 "point2point")
              lbl_values ign_lbls = Ok m.
Proof.
  apply (proj1 (BuilderTheorems.construction_succeeds_when_balanced
                  _ record_args (fun _ => Ok tt) (Ok tt)
                  (config_of one_level_arch 128 "point2point")
                  lbl_values ign_lbls (record_args_total _)
                  (fun _ => ex_intro _ tt eq_refl)
                  (ex_intro _ tt eq_refl))).
  - right. reflexivity.
  - vm_compute. discriminate.
Defined.

(** One upsampling block and no pooling block: construction still
    succeeds, because [encoder_skip_dims[-1]] is a valid Python index. *)
Lemma more_upsampling_still_builds :
  ~ (succeeds (construct _ record_args (fun _ => Ok tt) (Ok tt)
                         (config_of shallow_arch 128 "point2point")
                         lbl_values ign_lbls) = true <->
     upsampling_transitions shallow_arch <= pooling_transitions shallow_arch).
Proof.
  intros [H _]. specialize (H eq_refl). vm_compute in H. apply H. reflexivity.
Defined.

(** On that model the underflow shows up in the forward pass: no tap was
    captured and the decoder pops one. *)
Example shallow_forward_underflows :
  exists m,
    init _ record_args (config_of shallow_arch 128 "point2point")
         lbl_values ign_lbls = Ok m /\
    Forward.forward_blocks _ unit (fun _ x => Ok x) (fun x _ => Ok x)
                           (fun x _ => Ok x) m tt tt = Raise IndexError.
Proof. eexists. split; vm_compute; reflexivity. Qed.

End BuilderExamples.

Module LabelTheorems.
Import Labels LabelSpec.

(** C7 (amended): the remapping is total and keeps the shape of the label
    tensor; every entry is either an index t in [0, C-1] with
    valid_labels[t] equal to the label (its rank when the list is strictly
    sorted), or the sentinel -1, which it is exactly for the labels that
    are not valid.  Remapping a second time gives the same result when the
    valid labels are exactly 0, 1, ..., C-1. *)
Theorem label_remap_total valid labels :
  List.length (loss_target valid labels) = List.length labels /\
  (forall k l, nth_error labels k = Some l ->
     exists t, nth_error (loss_target valid labels) k = Some t /\
       ((0 <= t < Z.of_nat (List.length valid) /\
         nth_error valid (Z.to_nat t) = Some l /\
         (StronglySorted Z.lt valid -> t = rank valid l)) \/
        (t = -1 /\ ~ In l valid))) /\
  (valid = iota (List.length valid) ->
   loss_target valid (loss_target valid labels) = loss_target valid labels).
Proof.
  rewrite LabelFacts.loss_target_pointwise.
  split; [apply length_map|]. split.
  - intros k l Hk.
    exists (remap_entry 0 valid l (-1)). split.
    + rewrite nth_error_map, Hk. reflexivity.
    + destruct (LabelFacts.remap_entry_spec valid 0 l (-1))
        as [[Hr Hn] | (j & Hr & Hj)].
      * right. split; assumption.
      * left. rewrite Hr. cbn [Nat.add]. rewrite Nat2Z.id.
        assert (j < List.length valid)%nat
          by (apply nth_error_Some; congruence).
        split; [lia|]. split; [exact Hj|].
        intros Hs. symmetry. now apply LabelFacts.rank_of_sorted.
  - intros Hv. rewrite LabelFacts.loss_target_pointwise, map_map.
    apply map_ext. intros l. rewrite Hv.
    apply (LabelFacts.remap_entry_iota_fixed (List.length valid) l).
Qed.


Section WithTorch.

Variables Block Logits Scalar : Type.
Variable block_decider : string -> Q -> Z -> Z -> Z -> result Block.
Variable cross_entropy : Builder.CrossEntropyLoss -> Logits -> list Z -> Scalar.
Variable p2p_fitting_regularizer : Builder.KPFCNN Block -> Scalar.
Variable add : Scalar -> Scalar -> Scalar.
Variable argmax : Logits -> list Z.

Local Abbreviation init := (Builder.init Block block_decider).
Local Abbreviation loss :=
  (Labels.loss Block Logits Scalar cross_entropy p2p_fitting_regularizer add).
Local Abbreviation accuracy := (Labels.accuracy Block Logits argmax).

(** C6 (amended): construction does not look at deform_fitting_mode: it
    stores the value, and a configuration that builds also builds with any
    other mode.  The error is raised when the loss is computed: for every
    built model whose mode is not 'point2point', loss raises ValueError,
    'point2plane fitting mode not implemented yet.' for 'point2plane' and
    'Unknown fitting mode: ' followed by the mode otherwise. *)
Theorem fitting_mode_checked_in_loss config lbl_values ign_lbls m
  outputs labels :
  init config lbl_values ign_lbls = Ok m ->
  deform_fitting_mode config <> "point2point" ->
  Builder.m_deform_fitting_mode m = deform_fitting_mode config /\
  (forall mode,
     succeeds (init (set_deform_fitting_mode config mode)
                    lbl_values ign_lbls) = true) /\
  loss m outputs labels =
  Raise (ValueError
           (if String.eqb (deform_fitting_mode config) "point2plane"
            then p2plane_msg
            else unknown_mode_msg (deform_fitting_mode config))).
Proof.
  intros Hinit Hmode.
  pose proof (BuilderTheorems.init_inv _ _ _ _ _ _ Hinit)
    as (He & Hd & _ & Hm & _).
  split; [exact Hm|]. split.
  - intros mode. unfold Builder.init.
    change (Builder.build_encoder Block block_decider
              (set_deform_fitting_mode config mode))
      with (Builder.build_encoder Block block_decider config).
    rewrite He. cbn [bind].
    change (Builder.build_decoder Block block_decider
              (set_deform_fitting_mode config mode) (Builder.enc m))
      with (Builder.build_decoder Block block_decider config (Builder.enc m)).
    rewrite Hd. reflexivity.
  - unfold Labels.loss. rewrite Hm.
    destruct (String.eqb_spec (deform_fitting_mode config) "point2point");
      [contradiction|].
    destruct (String.eqb (deform_fitting_mode config) "point2plane");
      reflexivity.
Qed.


(** C10: for every model and every label tensor the target built in loss
    equals the target built in accuracy, and the loss is the criterion
    applied to that very target. *)
Theorem loss_and_accuracy_targets_agree (self : Builder.KPFCNN Block)
  outputs labels :
  loss_target (Builder.valid_labels self) labels
  = accuracy_target (Builder.valid_labels self) labels /\
  (Builder.m_deform_fitting_mode self = "point2point" ->
   loss self outputs labels =
   Ok (add (cross_entropy (Builder.criterion self) outputs
              (accuracy_target (Builder.valid_labels self) labels))
           (p2p_fitting_regularizer self))).
Proof.
  assert (H : loss_target (Builder.valid_labels self) labels
              = accuracy_target (Builder.valid_labels self) labels)
    by apply LabelFacts.targets_agree_loop.
  split; [exact H|].
  intros Hmode. unfold Labels.loss. rewrite Hmode, H. reflexivity.
Qed.

End WithTorch.

End LabelTheorems.

(** ** The statements on concrete labels *)

Module LabelExamples.
Import Labels LabelSpec Samples.

Lemma label_remap_witness :
  loss_target (iota 3) (loss_target (iota 3) [0; 2; 7; 1])
  = loss_target (iota 3) [0; 2; 7; 1].
Proof.
  exact (proj2 (proj2 (LabelTheorems.label_remap_total (iota 3) [0; 2; 7; 1]))
               eq_refl).
Defined.

(** With the labels of the samples ([0] ignored, [1;2;3] valid) a second
    remapping changes the result. *)
Lemma label_remap_not_idempotent :
  Builder.make_valid_labels lbl_values ign_lbls = [1; 2; 3] /\
  loss_target [1; 2; 3] [0; 1; 2; 3] = [-1; 0; 1; 2] /\
  loss_target [1; 2; 3] (loss_target [1; 2; 3] [0; 1; 2; 3])
  <> loss_target [1; 2; 3] [0; 1; 2; 3].
Proof.
  split; [reflexivity|]. split; [reflexivity|]. vm_compute. discriminate.
Defined.

Lemma fitting_mode_witness :
  Labels.loss recorded_block unit unit (fun _ _ _ => tt) (fun _ => tt)
              (fun _ _ => tt)
              {| Builder.K := 15; Builder.C := 3;
                 Builder.enc := Builder.encoder_init _
                   (config_of [] 128 "point2plane");
                 Builder.dec := Builder.decoder_init _
                   (Builder.encoder_init _ (config_of [] 128 "point2plane"));
                 Builder.head_mlp :=
                   {| Builder.u_in_dim := 128; Builder.u_out_dim := 128;
                      Builder.u_use_bn := false;
                      Builder.u_bn_momentum := 0 |};
                 Builder.head_softmax :=
                   {| Builder.u_in_dim := 128; Builder.u_out_dim := 3;
                      Builder.u_use_bn := false;
                      Builder.u_bn_momentum := 0 |};
                 Builder.valid_labels := [1; 2; 3];
                 Builder.criterion :=
                   {| Builder.ce_weight := None;
                      Builder.ce_ignore_index := -1 |};
                 Builder.m_deform_fitting_mode := "point2plane";
                 Builder.m_deform_fitting_power := 1;
                 Builder.m_deform_lr_factor := 1 # 10;
                 Builder.m_repulse_extent := 12 # 10 |}
              tt [0; 1]
  = Raise (ValueError p2plane_msg).
Proof.
  refine (proj2 (proj2 (LabelTheorems.fitting_mode_checked_in_loss
                          recorded_block unit unit record_args
                          (fun _ _ _ => tt) (fun _ => tt) (fun _ _ => tt)
                          (config_of [] 128 "point2plane")
                          lbl_values ign_lbls _ tt [0; 1] eq_refl _))).
  vm_compute. discriminate.
Defined.

(** Construction accepts both the unimplemented mode and an unknown one. *)
Lemma fitting_mode_not_checked_at_construction :
  succeeds (Builder.init _ record_args
              (config_of one_level_arch 128 "point2plane")
              lbl_values ign_lbls) = true /\
  succeeds (Builder.init _ record_args
              (config_of one_level_arch 128 "no_such_mode")
              lbl_values ign_lbls) = true.
Proof. split; reflexivity. Defined.


(** Two points, the first one ignored: one correct prediction out of two. *)
Example accuracy_with_ignored_label :
  forall self : Builder.KPFCNN recorded_block,
    Builder.valid_labels self = [1; 2; 3] ->
    Labels.accuracy recorded_block (list Z) (fun outputs => outputs)
                    self [0; 0] [0; 1] = Ok (1 # 2).
Proof.
  intros self Hv. unfold Labels.accuracy. rewrite Hv. reflexivity.
Qed.

(** Outside the shape hypothesis: three predictions against one label are
    broadcast, and the quotient is 3; shapes that do not broadcast raise
    RuntimeError; an empty label tensor raises ZeroDivisionError. *)
Example accuracy_outside_the_shape :
  forall self : Builder.KPFCNN recorded_block,
    Builder.valid_labels self = [1; 2; 3] ->
    Labels.accuracy recorded_block (list Z) (fun outputs => outputs)
                    self [0; 0; 0] [1] = Ok (3 # 1) /\
    Labels.accuracy recorded_block (list Z) (fun outputs => outputs)
                    self [0; 0; 0] [1; 1] = Raise RuntimeError /\
    Labels.accuracy recorded_block (list Z) (fun outputs => outputs)
                    self [] [] = Raise ZeroDivisionError.
Proof.
  intros self Hv. unfold Labels.accuracy. rewrite Hv.
  repeat split; reflexivity.
Qed.

End LabelExamples.

Module RegularizerTheorems.
Import Regularizer RegularizerSpec.
Local Open Scope R_scope.


End RegularizerTheorems.

(** ** The statement on concrete kernel points *)

Module RegularizerExamples.
Import Regularizer RegularizerSpec KernelSamples.
Local Open Scope R_scope.







End RegularizerExamples.

(** * Properties of the forward pass and of the recorded positions *)

Module ForwardTheorems.
Import Builder Arch SkipSpec.

Section Replay.

Variables Block X : Type.
Variable block_op : Block -> X -> X.
Variable cat : X -> X -> X.

Local Abbreviation encoder_3d := (Forward.encoder_3d Block X block_op).
Local Abbreviation encoder_2d := (Forward.encoder_2d Block X block_op cat).
Local Abbreviation entering := (SkipSpec.entering Block X block_op).

(** X1: when the two towers have the same number of blocks, the 2D pass
    never fails, and after both encoder passes skip_x holds, for every
    block index found in encoder_skips and in increasing order of the
    index, the concatenation of the 3D feature and the 2D feature that
    enter that block; the towers' outputs are the features after all their
    blocks. *)
Theorem skip_taps_are_fused (skips : list nat) (ops_3d ops_2d : list Block)
  (x_3d x_2d : X) :
  List.length ops_2d = List.length ops_3d ->
  encoder_2d skips 0 ops_2d (fst (encoder_3d skips 0 ops_3d [] x_3d)) 0 x_2d
  = Ok (map (fun k => cat (entering ops_3d k x_3d) (entering ops_2d k x_2d))
            (marked skips 0 (List.length ops_3d)),
        entering ops_2d (List.length ops_2d) x_2d) /\
  snd (encoder_3d skips 0 ops_3d [] x_3d)
  = entering ops_3d (List.length ops_3d) x_3d.
Proof.
  intros Hlen. rewrite ForwardFacts.encoder_3d_spec. cbn [fst snd app].
  split; [|reflexivity].
  rewrite <- Hlen.
  pose proof (ForwardFacts.encoder_2d_spec Block X block_op cat skips ops_2d
                0%nat [] (fun k => entering ops_3d (k - 0) x_3d) x_2d) as H.
  cbn [app List.length] in H. rewrite H. f_equal. f_equal.
  apply map_ext. intros k. now rewrite Nat.sub_0_r.
Qed.

End Replay.

Section Run.

Variables Block X : Type.
Variable block_decider : string -> Q -> Z -> Z -> Z -> result Block.
Variable block_op : Block -> X -> result X.
Variable cat : X -> X -> result X.
Variable mean : X -> X -> result X.

Local Abbreviation init := (Builder.init Block block_decider).
Local Abbreviation forward_blocks :=
  (Forward.forward_blocks Block X block_op cat mean).
Local Abbreviation ops_return :=
  (SkipSpec.ops_return Block X block_op cat mean).

(** X2: on a model whose two towers have the same number of blocks, let
    taps be the encoder iterations whose index is in encoder_skips and
    pops the decoder iterations whose index is in decoder_concats.  With
    pops <= taps the block loops of forward return whenever no tensor
    operation raises.  With taps < pops they never return, whatever the
    tensor operations do, and when no tensor operation raises the failure
    is the IndexError of skip_x.pop(). *)
Theorem forward_underflows_iff (self : KPFCNN Block) (x_3d x_2d : X) :
  List.length (encoder_blocks_2d (enc self))
  = List.length (encoder_blocks_3d (enc self)) ->
  let taps := marked (encoder_skips (enc self)) 0
                     (List.length (encoder_blocks_3d (enc self))) in
  let pops := marked (decoder_concats (dec self)) 0
                     (List.length (decoder_blocks (dec self))) in
  ((List.length pops <= List.length taps)%nat -> ops_return ->
   exists y, forward_blocks self x_3d x_2d = Ok y) /\
  ((List.length taps < List.length pops)%nat ->
   (forall y, forward_blocks self x_3d x_2d <> Ok y) /\
   (ops_return -> forward_blocks self x_3d x_2d = Raise IndexError)).
Proof.
  intros Hlen taps pops.
  exact (ForwardFacts.forward_blocks_outcome Block X block_op cat mean
           self x_3d x_2d (List.length taps) (List.length pops)
           Hlen eq_refl eq_refl).
Qed.

(** X3: on a model built by the constructor, let N be the pool, strided or
    global blocks before the first upsampling block and L the upsampling
    blocks that are followed by another block.  With L <= N the block
    loops of forward return whenever no tensor operation raises.  With
    N < L they never return, whatever the tensor operations do, and when no
    tensor operation raises the failure is the IndexError of skip_x.pop()
    (the tap recorded at the first upsampling block itself is never
    captured, since no encoder block has that index). *)
Theorem built_model_forward config lbl_values ign_lbls m (x_3d x_2d : X) :
  init config lbl_values ign_lbls = Ok m ->
  let arch := architecture config in
  (skip_lookups arch <= count is_skip_block (encoder_part arch) ->
   ops_return ->
   exists y, forward_blocks m x_3d x_2d = Ok y) /\
  (count is_skip_block (encoder_part arch) < skip_lookups arch ->
   (forall y, forward_blocks m x_3d x_2d <> Ok y) /\
   (ops_return -> forward_blocks m x_3d x_2d = Raise IndexError)).
Proof.
  intros Hm arch.
  apply BuilderTheorems.init_inv in Hm. destruct Hm as (He & Hd & _).
  apply SkipFacts.built_skips in He. destruct He as (Hs & H3 & H2).
  apply SkipFacts.built_concats in Hd. destruct Hd as (Hc & Hb).
  fold arch in Hs, H3, H2, Hc, Hb.
  assert (Htaps :
    List.length (marked (encoder_skips (enc m)) 0
                        (List.length (encoder_blocks_3d (enc m))))
    = List.length (filter is_skip_block (encoder_part arch))).
  { rewrite Hs, H3, SkipFacts.marked_positions.
    now rewrite SkipFacts.firstn_encoder_part. }
  assert (Hpops :
    List.length (marked (decoder_concats (dec m)) 0
                        (List.length (decoder_blocks (dec m))))
    = List.length (filter is_upsample (removelast (decoder_part arch)))).
  { rewrite Hc, Hb. apply SkipFacts.marked_after. }
  destruct (ForwardFacts.forward_blocks_outcome Block X block_op cat mean
              m x_3d x_2d _ _ ltac:(now rewrite H3, H2) Htaps Hpops)
    as [Hok Hfail].
  unfold skip_lookups, count.
  split; intros Hle; [apply Hok | apply Hfail]; lia.
Qed.

End Run.

Section Positions.

Variable Block : Type.
Variable block_decider : string -> Q -> Z -> Z -> Z -> result Block.

Local Abbreviation init := (Builder.init Block block_decider).

(** X4: encoder_skips of a built model lists, in increasing order, the
    indices of the pool, strided, upsample or global blocks up to and
    including the first upsampling block; decoder_concats lists, in
    increasing order, the indices within the decoder slice of the blocks
    that directly follow an upsampling block. *)
Theorem recorded_positions config lbl_values ign_lbls m :
  init config lbl_values ign_lbls = Ok m ->
  let arch := architecture config in
  encoder_skips (enc m) = positions is_skip_block 0 (encoder_visited arch) /\
  decoder_concats (dec m)
  = map S (positions is_upsample 0 (removelast (decoder_part arch))).
Proof.
  intros Hm arch.
  apply BuilderTheorems.init_inv in Hm. destruct Hm as (He & Hd & _).
  apply SkipFacts.built_skips in He. apply SkipFacts.built_concats in Hd.
  split; [apply He | apply Hd].
Qed.

End Positions.

End ForwardTheorems.

(** * Depth of the towers and of the decoder *)

Module DepthTheorems.
Import Builder Arch SkipSpec.

Section Depth.

Variable Block : Type.
Variable block_decider : string -> Q -> Z -> Z -> Z -> result Block.

Local Abbreviation init := (Builder.init Block block_decider).

(** X5: in a built model the two encoder towers have one block for every
    descriptor before the first upsampling block, the decoder has one block
    for every descriptor of the slice it walks, and every recorded skip
    index has its recorded width. *)
Theorem towers_have_equal_depth config lbl_values ign_lbls m :
  init config lbl_values ign_lbls = Ok m ->
  let arch := architecture config in
  List.length (encoder_blocks_3d (enc m)) = List.length (encoder_part arch) /\
  List.length (encoder_blocks_2d (enc m)) = List.length (encoder_part arch) /\
  List.length (decoder_blocks (dec m)) = List.length (decoder_part arch) /\
  List.length (encoder_skip_dims (enc m))
  = List.length (encoder_skips (enc m)).
Proof.
  intros Hm arch.
  apply BuilderTheorems.init_inv in Hm. destruct Hm as (He & Hd & _).
  apply SkipFacts.built_concats in Hd. destruct Hd as (_ & Hb).
  unfold Builder.build_encoder in He.
  apply EncoderFacts.encoder_loop_grows in He.
  destruct He as (sk & dm & b3 & b2 & Hs & Hdm & H3 & H2 & Hl & Hl' & Hn).
  cbn in Hs, Hdm, H3, H2. subst sk dm b3 b2.
  repeat split; [exact Hn | now rewrite <- Hl' | exact Hb | now symmetry].
Qed.

(** X6: when the architecture contains an upsampling block, every
    descriptor is built exactly once, in the two towers before the first
    upsampling block and in the decoder from it on.  When it contains none,
    the decoder loop starts again at index 0: every descriptor is built in
    the towers and a second time in the decoder, and no concat is
    marked. *)
Theorem every_block_is_built config lbl_values ign_lbls m :
  init config lbl_values ign_lbls = Ok m ->
  let arch := architecture config in
  (existsb is_upsample arch = true ->
   (List.length (encoder_blocks_3d (enc m))
    + List.length (decoder_blocks (dec m)))%nat = List.length arch) /\
  (no_upsample arch ->
   List.length (encoder_blocks_3d (enc m)) = List.length arch /\
   List.length (decoder_blocks (dec m)) = List.length arch /\
   decoder_concats (dec m) = []).
Proof.
  intros Hm arch.
  apply BuilderTheorems.init_inv in Hm. destruct Hm as (He & Hd & _).
  apply SkipFacts.built_skips in He. destruct He as (_ & H3 & _).
  apply SkipFacts.built_concats in Hd. destruct Hd as (Hc & Hb).
  fold arch in H3, Hc, Hb.
  pose proof (SliceFacts.find_start_spec arch 0 0) as Hf.
  pose proof (SliceFacts.encoder_part_length arch) as Hle.
  split.
  - intros Hu. rewrite Hu in Hf. cbn [Nat.add] in Hf.
    rewrite H3, Hb. unfold decoder_part. rewrite Hf, length_skipn. lia.
  - intros Hn.
    pose proof (proj1 (SliceFacts.no_upsample_existsb arch) Hn) as Hu.
    rewrite Hu in Hf.
    assert (Hpart : decoder_part arch = arch)
      by (unfold decoder_part; now rewrite Hf).
    rewrite H3, Hb, Hc, Hpart, (EncoderFacts.encoder_part_no_upsample arch Hn).
    repeat split.
    rewrite SliceFacts.positions_none; [reflexivity|].
    now apply SliceFacts.existsb_removelast.
Qed.

End Depth.

End DepthTheorems.

(** * Arguments the blocks are built with *)

Module BlockTheorems.
Import Builder Arch.

Section Blocks.

Variable Block : Type.
Variable block_decider : string -> Q -> Z -> Z -> Z -> result Block.

Local Abbreviation init := (Builder.init Block block_decider).
Local Abbreviation encoder_loop := (Builder.encoder_loop Block block_decider).

(** X7: every descriptor before the first upsampling block is built twice,
    at the same position of the 3D and of the 2D tower, with the same
    radius, output width and layer: with N the number of pool or strided
    blocks before it, the radius is the initial radius times 2^N, the
    output width first_features_dim times 2^N and the layer N.  Only the
    input widths may differ, and only for the very first block. *)
Theorem encoder_block_arguments config lbl_values ign_lbls m
  pre block post :
  init config lbl_values ign_lbls = Ok m ->
  architecture config = pre ++ block :: post ->
  no_upsample pre ->
  is_upsample block = false ->
  let n := count is_subsampling pre in
  exists r in_3d in_2d b3 b2,
    nth_error (encoder_blocks_3d (enc m)) (List.length pre) = Some b3 /\
    nth_error (encoder_blocks_2d (enc m)) (List.length pre) = Some b2 /\
    block_decider block r in_3d (first_features_dim config * 2 ^ n) n
      = Ok b3 /\
    block_decider block r in_2d (first_features_dim config * 2 ^ n) n
      = Ok b2 /\
    (r == first_subsampling_dl config * conv_radius config * 2 ^ n)%Q /\
    (pre = [] -> in_3d = in_features_dim_3d config /\
                 in_2d = in_features_dim_2d config) /\
    (pre <> [] -> in_3d = in_2d).
Proof.
  intros Hm Harch Hno Hup n.
  apply BuilderTheorems.init_inv in Hm. destruct Hm as (He & _).
  unfold Builder.build_encoder in He. rewrite Harch in He.
  destruct (EncoderFacts.encoder_loop_reaches Block block_decider
              pre block post _ _ Hno He) as (s & s1 & brk & Hpre & Hstep & Hrest).
  pose proof (EncoderFacts.encoder_loop_law Block block_decider _ _ _ _ Hpre)
    as Hlaw.
  cbn zeta in Hlaw. rewrite (EncoderFacts.encoder_part_no_upsample pre Hno)
    in Hlaw. fold n in Hlaw. destruct Hlaw as (Hl & Hr & Ho).
  pose proof (EncoderFacts.encoder_loop_grows Block block_decider _ _ _ _ Hpre)
    as (sk & dm & p3 & p2 & _ & _ & Hp3 & Hp2 & _ & Hp32 & Hplen).
  rewrite (EncoderFacts.encoder_part_no_upsample pre Hno) in Hplen.
  cbn [Builder.encoder_init encoder_blocks_3d encoder_blocks_2d app
       e_layer e_r e_out_dim] in Hp3, Hp2, Hl, Hr, Ho.
  apply EncoderFacts.encoder_step_inv in Hstep.
  destruct Hstep as (_ & -> & [[Hu _] | (_ & b3 & b2 & Hb3 & Hb2 & ->)]);
    [congruence|].
  rewrite Hup in Hrest.
  pose proof (EncoderFacts.encoder_loop_grows Block block_decider _ _ _ _ Hrest)
    as (sk' & dm' & q3 & q2 & _ & _ & Hq3 & Hq2 & _).
  cbn [Builder.apply_block encoder_blocks_3d encoder_blocks_2d] in Hq3, Hq2.
  destruct (EncoderFacts.tapped_fields Block (List.length pre) block s)
    as (_ & _ & _ & _ & _ & T3 & T2).
  rewrite T3, Hp3 in Hq3. rewrite T2, Hp2 in Hq2.
  exists (e_r s), (e_in_dim_3d s), (e_in_dim_2d s), b3, b2.
  rewrite Ho, Hl, Z.add_0_l in Hb3, Hb2.
  split; [|split; [|split; [exact Hb3|split; [exact Hb2|split; [exact Hr|split]]]]].
  - rewrite Hq3, <- Hplen. apply EncoderFacts.nth_error_middle.
  - rewrite Hq2, <- Hplen, Hp32. apply EncoderFacts.nth_error_middle.
  - intros ->. cbn in Hpre. inversion Hpre; subst. split; reflexivity.
  - intros Hne.
    apply (TowerFacts.encoder_loop_widths Block block_decider _ _ _ _ Hpre).
    left. now rewrite (EncoderFacts.encoder_part_no_upsample pre Hno).
Qed.

(** X8: the first decoder block is built from the encoder's final radius,
    output width and layer, with the sum of the two towers' final input
    widths as input width; when the encoder built at least one block the
    two widths are equal, so that input width is twice the 3D tower's. *)
Theorem first_decoder_block_input config lbl_values ign_lbls m block rest :
  init config lbl_values ign_lbls = Ok m ->
  decoder_part (architecture config) = block :: rest ->
  let e := enc m in
  (exists b tl,
     decoder_blocks (dec m) = b :: tl /\
     block_decider block (e_r e) (e_in_dim_3d e + e_in_dim_2d e)
                   (e_out_dim e) (e_layer e) = Ok b) /\
  (encoder_part (architecture config) <> [] ->
   e_in_dim_3d e + e_in_dim_2d e = 2 * e_in_dim_3d e).
Proof.
  intros Hm Hpart e.
  apply BuilderTheorems.init_inv in Hm. destruct Hm as (He & Hd & _).
  fold e in He, Hd. split.
  - unfold Builder.build_decoder in Hd. cbn zeta in Hd.
    fold (decoder_part (architecture config)) in Hd. rewrite Hpart in Hd.
    cbn [Builder.decoder_loop] in Hd.
    destruct (Builder.decoder_step Block block_decider (architecture config)
                _ (encoder_skip_dims e) 0 block (Builder.decoder_init Block e))
      as [s1|] eqn:E; [|discriminate].
    cbn [bind] in Hd.
    apply TowerFacts.decoder_loop_grows in Hd. destruct Hd as [bs Hbs].
    unfold Builder.decoder_step, Builder.concat_skip in E.
    cbn [Nat.ltb Nat.leb bind] in E.
    destruct (block_decider block _ _ _ _) as [b|] eqn:Hb; [|discriminate].
    cbn [bind] in E. inversion E; subst s1.
    cbn [Builder.apply_decoder_block Builder.decoder_init decoder_blocks app]
      in Hbs.
    exists b, bs. split; [exact Hbs | reflexivity].
  - intros Hne.
    unfold Builder.build_encoder in He.
    apply TowerFacts.encoder_loop_widths in He; [lia | now left].
Qed.

End Blocks.

End BlockTheorems.

(** * Arguments the decoder blocks are built with *)

Module DecoderTheorems.
Import Builder Arch.

Section Blocks.

Variable Block : Type.
Variable block_decider : string -> Q -> Z -> Z -> Z -> result Block.

Local Abbreviation init := (Builder.init Block block_decider).
Local Abbreviation decoder_loop := (Builder.decoder_loop Block block_decider).

(** X9: every descriptor of the decoder slice is built at its position of
    decoder_blocks; with M the number of upsampling blocks before it in the
    slice, its radius is the encoder's final radius times 2^(-M), its
    output width the encoder's final output width floor-divided by 2^M and
    its layer the encoder's final layer minus M.  Right after an
    upsampling block its input width is the output width before that
    upsampling plus the skip width looked up at its own layer; after any
    other block it is the output width. *)
Theorem decoder_block_arguments config lbl_values ign_lbls m
  pre block post :
  init config lbl_values ign_lbls = Ok m ->
  decoder_part (architecture config) = pre ++ block :: post ->
  let e := enc m in
  let n := count is_upsample pre in
  exists r in_dim b,
    nth_error (decoder_blocks (dec m)) (List.length pre) = Some b /\
    block_decider block r in_dim (e_out_dim e / 2 ^ n) (e_layer e - n)
      = Ok b /\
    (r == e_r e * 2 ^ (- n))%Q /\
    (forall pre' prev, pre = pre' ++ [prev] ->
       if is_upsample prev
       then exists w,
              Py.getitem (encoder_skip_dims e) (e_layer e - n) = Some w /\
              in_dim = e_out_dim e / 2 ^ (n - 1) + w
       else in_dim = e_out_dim e / 2 ^ n).
Proof.
  intros Hm Hpart e n.
  apply BuilderTheorems.init_inv in Hm. destruct Hm as (_ & Hd & _).
  fold e in Hd. unfold Builder.build_decoder in Hd. cbn zeta in Hd.
  set (arch := architecture config) in *.
  set (start_i := find_start 0 arch 0) in *.
  change (skipn start_i arch) with (decoder_part arch) in Hd.
  rewrite Hpart in Hd.
  destruct (DecoderMoreFacts.decoder_loop_reaches Block block_decider
              _ _ _ _ _ _ _ _ Hd) as (s & s2 & Hpre & Hstep & Hrest).
  pose proof (DecoderFacts.decoder_loop_law Block block_decider
                _ _ _ _ _ _ _ Hpre) as Hlaw.
  cbn zeta in Hlaw. fold n in Hlaw.
  cbn [Builder.decoder_init d_layer d_r d_out_dim] in Hlaw.
  destruct Hlaw as (Hl & Hr & Ho).
  pose proof (DecoderMoreFacts.decoder_loop_length Block block_decider
                _ _ _ _ _ _ _ Hpre) as Hlen.
  cbn [Builder.decoder_init decoder_blocks List.length Nat.add] in Hlen.
  apply (DecoderFacts.decoder_step_inv Block block_decider) in Hstep.
  destruct Hstep as (s1 & b & Hc & Hb & ->).
  pose proof (DecoderFacts.concat_skip_inv Block _ _ _ _ _ _ Hc)
    as (Cl & Cr & Co & Cb).
  apply TowerFacts.decoder_loop_grows in Hrest. destruct Hrest as [bs Hbs].
  cbn [Builder.apply_decoder_block decoder_blocks] in Hbs.
  rewrite Cb in Hbs.
  exists (d_r s1), (d_in_dim s1), b.
  rewrite Co, Cl, Ho, Hl in Hb.
  split; [|split; [exact Hb|split; [now rewrite Cr|]]].
  - rewrite Hbs, <- Hlen. apply EncoderFacts.nth_error_middle.
  - intros pre' prev ->.
    rewrite DecoderMoreFacts.decoder_loop_app in Hpre. cbn [Nat.add] in Hpre.
    destruct (decoder_loop arch start_i (encoder_skip_dims e) 0 pre'
                (Builder.decoder_init Block e)) as [s'|] eqn:Hpre';
      [|discriminate].
    cbn [bind Builder.decoder_loop] in Hpre.
    destruct (Builder.decoder_step Block block_decider arch start_i
                (encoder_skip_dims e) (List.length pre') prev s')
      as [s''|] eqn:Hprev; [|discriminate].
    cbn [bind] in Hpre. inversion Hpre; subst s''. clear Hpre.
    apply (DecoderFacts.decoder_step_inv Block block_decider) in Hprev.
    destruct Hprev as (t1 & b' & Hc' & _ & Hs).
    pose proof (DecoderFacts.concat_skip_inv Block _ _ _ _ _ _ Hc')
      as (_ & _ & Co' & _).
    pose proof (DecoderFacts.decoder_loop_law Block block_decider
                  _ _ _ _ _ _ _ Hpre') as Hlaw'.
    cbn zeta in Hlaw'.
    cbn [Builder.decoder_init d_out_dim] in Hlaw'.
    destruct Hlaw' as (_ & _ & Ho').
    assert (Hin : d_in_dim s = e_out_dim e / 2 ^ count is_upsample pre').
    { rewrite Hs. cbn [Builder.apply_decoder_block d_in_dim].
      now rewrite Co', Ho'. }
    assert (Hn : n = count is_upsample pre'
                     + (if is_upsample prev then 1 else 0)).
    { unfold n, count. rewrite filter_app, length_app. cbn [filter].
      destruct (is_upsample prev); cbn [List.length]; lia. }
    assert (Hp : prev_is_upsample arch start_i
                   (List.length (pre' ++ [prev])) (is_upsample prev)).
    { rewrite length_app, Nat.add_1_r. cbn [prev_is_upsample].
      exists prev. split; [|reflexivity].
      rewrite <- nth_error_skipn.
      change (skipn start_i arch) with (decoder_part arch).
      rewrite Hpart, <- !app_assoc.
      rewrite nth_error_app2, Nat.sub_diag by lia. reflexivity. }
    pose proof (DecoderMoreFacts.concat_skip_width Block _ _ _ _ _ _ _
                  Hp Hc) as Hw.
    destruct (is_upsample prev).
    + destruct Hw as (w & Hg & Hw). exists w.
      rewrite Hl in Hg. split; [exact Hg|].
      rewrite Hw, Hin. f_equal. f_equal. f_equal. lia.
    + rewrite Hw, Hin. f_equal. f_equal. lia.
Qed.

End Blocks.

End DecoderTheorems.

(** * Properties of the valid labels, the remapping and the accuracy *)

Module LabelExtras.
Import Builder Labels LabelSpec.

(** X10: the valid labels are the label values that are not ignored, with
    their multiplicities, in ascending order. *)
Theorem valid_labels_sorted (lbl_values ign_lbls : list Z) :
  StronglySorted Z.le (make_valid_labels lbl_values ign_lbls) /\
  (forall c,
     count_occ Z.eq_dec (make_valid_labels lbl_values ign_lbls) c
     = if existsb (Z.eqb c) ign_lbls then 0%nat
       else count_occ Z.eq_dec lbl_values c).
Proof.
  unfold make_valid_labels. split; [apply ValidLabelFacts.np_sort_sorted|].
  intros c. rewrite ValidLabelFacts.np_sort_count.
  induction lbl_values as [|x l IH].
  - cbn. now destruct (existsb (Z.eqb c) ign_lbls).
  - cbn [filter count_occ].
    destruct (Z.eq_dec x c) as [->|Hne].
    + destruct (existsb (Z.eqb c) ign_lbls) eqn:E; cbn [negb].
      * exact IH.
      * cbn [count_occ]. destruct (Z.eq_dec c c); [|contradiction].
        now rewrite IH.
    + destruct (existsb (Z.eqb x) ign_lbls); cbn [negb]; [exact IH|].
      cbn [count_occ]. destruct (Z.eq_dec x c); [contradiction | exact IH].
Qed.

(** X12: when the valid labels are pairwise distinct, remapping the list of
    valid labels itself gives 0, 1, ..., C-1 in order. *)
Theorem remap_valid_is_iota (valid : list Z) :
  NoDup valid ->
  loss_target valid valid = iota (List.length valid).
Proof.
  intros Hnd. rewrite LabelFacts.loss_target_pointwise.
  apply nth_error_ext. intros k. unfold iota.
  rewrite !nth_error_map.
  destruct (nth_error valid k) as [l|] eqn:Hk.
  - assert (Hlt : (k < List.length valid)%nat)
      by (apply nth_error_Some; congruence).
    rewrite nth_error_seq. destruct (Nat.ltb_spec k (List.length valid)); [|lia].
    cbn [option_map Nat.add]. f_equal.
    destruct (LabelFacts.remap_entry_spec valid 0 l (-1))
      as [[_ Hn] | (j & Hr & Hj)].
    + exfalso. apply Hn. eapply nth_error_In. exact Hk.
    + rewrite Hr. cbn [Nat.add]. f_equal.
      assert (Hjl : (j < List.length valid)%nat)
        by (apply nth_error_Some; congruence).
      apply (proj1 (NoDup_nth_error valid) Hnd j k Hjl). congruence.
  - apply nth_error_None in Hk.
    rewrite nth_error_seq. destruct (Nat.ltb_spec k (List.length valid)); [lia|].
    reflexivity.
Qed.

Section WithTorch.

Variables Block Logits : Type.
Variable block_decider : string -> Q -> Z -> Z -> Z -> result Block.
Variable argmax : Logits -> list Z.

Local Abbreviation init := (Builder.init Block block_decider).
Local Abbreviation accuracy := (Labels.accuracy Block Logits argmax).

(** X11: when the label values are pairwise distinct and the ignored
    labels are pairwise distinct label values, the class count C, which is
    the output width of the last head layer, is the number of valid
    labels. *)
Theorem class_count_matches_valid_labels config lbl_values ign_lbls m :
  init config lbl_values ign_lbls = Ok m ->
  NoDup lbl_values -> NoDup ign_lbls -> incl ign_lbls lbl_values ->
  C m = Z.of_nat (List.length (valid_labels m)) /\
  u_out_dim (head_softmax m) = Z.of_nat (List.length (valid_labels m)).
Proof.
  intros Hm Hl Hi Hincl.
  apply ValidLabelFacts.init_labels in Hm.
  destruct Hm as (Hc & Hv & Hu & _).
  pose proof (ValidLabelFacts.make_valid_labels_length lbl_values ign_lbls)
    as Hlen.
  rewrite (ValidLabelFacts.ignored_count _ _ Hl Hi Hincl) in Hlen.
  rewrite Hu, Hc, Hv. lia.
Qed.

(** X13: in a built model every label that is listed in ign_lbls, or that
    is not a label value at all, is remapped to the ignore_index of the
    criterion, so the cross-entropy leaves it out. *)
Theorem ignored_labels_get_ignore_index config lbl_values ign_lbls m
  labels k l :
  init config lbl_values ign_lbls = Ok m ->
  nth_error labels k = Some l ->
  In l ign_lbls \/ ~ In l lbl_values ->
  nth_error (loss_target (valid_labels m) labels) k
  = Some (ce_ignore_index (criterion m)).
Proof.
  intros Hm Hk Hl.
  pose proof (ValidLabelFacts.init_labels _ _ _ _ _ _ Hm) as (_ & Hv & _).
  apply BuilderTheorems.init_inv in Hm.
  destruct Hm as (_ & _ & _ & _ & Hcrit).
  rewrite Hcrit, Hv, LabelFacts.loss_target_pointwise, nth_error_map, Hk.
  cbn [option_map]. f_equal.
  assert (Hign : ce_ignore_index (choose_criterion config) = -1)
    by (unfold choose_criterion;
        destruct (0 <? List.length (class_w config))%nat; reflexivity).
  rewrite Hign.
  destruct (LabelFacts.remap_entry_spec
              (make_valid_labels lbl_values ign_lbls) 0 l (-1))
    as [[Hr _] | (j & _ & Hj)]; [exact Hr|].
  exfalso. apply nth_error_In in Hj.
  apply ValidLabelFacts.make_valid_labels_In in Hj. tauto.
Qed.

(** X14: when the predictions have the shape of the labels and accuracy
    returns, its value lies between 0 and 1, and it is 1 exactly when every
    prediction is the remapped target: a single ignored or mispredicted
    point keeps it below 1. *)
Theorem accuracy_bounds (self : KPFCNN Block) outputs labels q :
  List.length (argmax outputs) = List.length labels ->
  accuracy self outputs labels = Ok q ->
  (0 <= q <= 1)%Q /\
  ((q == 1)%Q <->
   argmax outputs = accuracy_target (valid_labels self) labels).
Proof.
  intros Hshape. unfold Labels.accuracy.
  set (target := accuracy_target (valid_labels self) labels).
  set (predicted := argmax outputs) in *.
  assert (Hlen : List.length target = List.length labels).
  { unfold target. rewrite AccuracyFacts.accuracy_target_pointwise.
    apply length_map. }
  assert (Hsame : List.length predicted = List.length target)
    by (rewrite Hlen; exact Hshape).
  rewrite (AccuracyFacts.count_equal_same_shape _ _ Hsame). cbn [bind].
  pose proof (AccuracyFacts.equal_pairs_le target predicted) as Hle.
  pose proof (AccuracyFacts.equal_pairs_full target predicted Hsame)
    as Hfull.
  destruct (List.length target) as [|n] eqn:En; [discriminate|].
  pose proof (AccuracyFacts.Qden_of_nat n) as Hpos.
  set (d := Pos.of_nat (S n)) in *.
  intros H. injection H as <-.
  unfold Qle, Qeq. cbn [Qnum Qden]. rewrite Hpos.
  split; [lia|]. rewrite <- Hfull. lia.
Qed.

End WithTorch.

End LabelExtras.

(** * Further properties of the regulariser *)

Module RegularizerExtras.
Import Regularizer RegularizerSpec RegularizerVariants.
Local Open Scope R_scope.

(** X15: with a non-negative deform_fitting_power the regulariser is
    non-negative: the fitting term and the repulsion term are sums of
    means of absolute values. *)
Theorem regularizer_nonneg (net : Net) :
  0 <= net_deform_fitting_power net ->
  0 <= fitting_loss net /\ 0 <= repulsive_loss net /\
  0 <= p2p_fitting_regularizer net.
Proof.
  intros Hp.
  pose proof (RegularizerMoreFacts.fitting_loss_nonneg net) as Hf.
  pose proof (RegularizerMoreFacts.repulsive_loss_nonneg net) as Hr.
  repeat split; [exact Hf | exact Hr|].
  unfold p2p_fitting_regularizer. apply Rmult_le_pos; lra.
Qed.

(** X16: only the deformable KPConv modules contribute: the regulariser
    of a network is the regulariser of its deformable KPConv modules
    alone, and it is zero, whatever the power, when there is none. *)
Theorem only_deformable_modules_contribute (net : Net) :
  p2p_fitting_regularizer
    (with_modules net (filter is_deformable (modules net)))
  = p2p_fitting_regularizer net /\
  (forallb (fun md => negb (is_deformable md)) (modules net) = true ->
   p2p_fitting_regularizer net = 0).
Proof.
  assert (Hl : losses (with_modules net (filter is_deformable (modules net)))
               = losses net).
  { unfold losses. cbn [with_modules modules].
    apply RegularizerMoreFacts.fold_filter_deformable.
    intros a md. reflexivity. }
  split.
  - unfold p2p_fitting_regularizer, fitting_loss, repulsive_loss.
    rewrite Hl. reflexivity.
  - intros Hnone.
    assert (Hz : losses net = (0, 0)).
    { clear Hl. unfold losses. revert Hnone. generalize (0, 0).
      induction (modules net) as [|md mods IH]; intros acc Hnone;
        [reflexivity|].
      cbn [forallb] in Hnone. apply andb_true_iff in Hnone.
      destruct Hnone as [Hmd Hmods]. apply negb_true_iff in Hmd.
      cbn [fold_left].
      rewrite (RegularizerMoreFacts.module_step_skip net acc md Hmd).
      now apply IH. }
    unfold p2p_fitting_regularizer, fitting_loss, repulsive_loss.
    rewrite Hz. cbn [fst snd]. lra.
Qed.

(** X17: the regulariser does not depend on the scale of a layer: scaling
    the extent and the kernel points of every block by s and the squared
    distances to the closest input points by s squared leaves it
    unchanged, since lines 38 and 48 divide by the extent. *)
Theorem regularizer_scale_invariant (net : Net) (s : R) :
  s <> 0 ->
  (forall m, In (KPConvModule m) (modules net) -> KP_extent m <> 0) ->
  p2p_fitting_regularizer
    (with_modules net (map (scale_module s) (modules net)))
  = p2p_fitting_regularizer net.
Proof.
  intros Hs He.
  assert (Hl : losses (with_modules net (map (scale_module s) (modules net)))
               = losses net).
  { unfold losses. cbn [with_modules modules]. generalize (0, 0).
    induction (modules net) as [|md mods IH]; intros acc; [reflexivity|].
    cbn [map fold_left].
    rewrite RegularizerMoreFacts.module_step_with_modules.
    rewrite RegularizerMoreFacts.module_step_scale.
    - apply IH. intros m Hm. apply He. now right.
    - exact Hs.
    - intros m ->. apply He. now left. }
  unfold p2p_fitting_regularizer, fitting_loss, repulsive_loss.
  rewrite Hl. reflexivity.
Qed.

End RegularizerExtras.

(** * The statements on concrete inputs *)

Module ExtraExamples.
Import Builder Arch Samples SkipSpec Labels LabelSpec.

Lemma skip_taps_witness :
  Forward.encoder_2d unit Z (fun _ x => x + 1) Z.add [1; 3]%nat 0
    [tt; tt; tt]
    (fst (Forward.encoder_3d unit Z (fun _ x => x + 1) [1; 3]%nat 0
            [tt; tt; tt] [] 10))
    0 20
  = Ok ([11 + 21], 23).
Proof.
  exact (proj1 (ForwardTheorems.skip_taps_are_fused
                  unit Z (fun _ x => x + 1) Z.add [1; 3]%nat
                  [tt; tt; tt] [tt; tt; tt] 10 20 eq_refl)).
Defined.

Lemma forward_underflows_witness :
  exists m,
    init _ record_args (config_of one_level_arch 128 "point2point")
         lbl_values ign_lbls = Ok m /\
    exists y,
      Forward.forward_blocks _ Z (fun _ x => Ok (x + 1))
                             (fun a b => Ok (a + b)) (fun a b => Ok (a + b))
                             m 10 20
      = Ok y.
Proof.
  assert (Hinit : exists m,
            init _ record_args (config_of one_level_arch 128 "point2point")
                 lbl_values ign_lbls = Ok m /\
            List.length (encoder_blocks_2d (enc m))
            = List.length (encoder_blocks_3d (enc m)) /\
            (List.length (marked (decoder_concats (dec m)) 0
                            (List.length (decoder_blocks (dec m))))
             <= List.length (marked (encoder_skips (enc m)) 0
                               (List.length (encoder_blocks_3d (enc m)))))%nat)
    by (eexists; split; [vm_compute; reflexivity
                        | split; [vm_compute; reflexivity
                                 | vm_compute; apply le_n]]).
  destruct Hinit as (m & Hinit & Hlen & Hle). exists m.
  split; [exact Hinit|].
  apply (proj1 (ForwardTheorems.forward_underflows_iff
                  _ Z (fun _ x => Ok (x + 1)) (fun a b => Ok (a + b))
                  (fun a b => Ok (a + b)) m 10 20 Hlen) Hle).
  repeat split; intros; eexists; reflexivity.
Defined.

Lemma built_model_forward_witness :
  exists m,
    init _ record_args (config_of shallow_arch 128 "point2point")
         lbl_values ign_lbls = Ok m /\
    forall y,
      Forward.forward_blocks _ Z (fun _ x => Ok (x + 1))
                             (fun a b => Ok (a + b)) (fun a b => Ok (a + b))
                             m 10 20
      <> Ok y.
Proof.
  assert (Hinit : exists m,
            init _ record_args (config_of shallow_arch 128 "point2point")
                 lbl_values ign_lbls = Ok m)
    by (eexists; vm_compute; reflexivity).
  destruct Hinit as [m Hinit]. exists m. split; [exact Hinit|].
  apply (proj2 (ForwardTheorems.built_model_forward
                  _ Z record_args (fun _ x => Ok (x + 1))
                  (fun a b => Ok (a + b)) (fun a b => Ok (a + b))
                  (config_of shallow_arch 128 "point2point")
                  lbl_values ign_lbls m 10 20 Hinit)).
  vm_compute. reflexivity.
Defined.

Lemma recorded_positions_witness :
  exists m,
    init _ record_args (config_of two_level_arch 128 "point2point")
         lbl_values ign_lbls = Ok m /\
    encoder_skips (enc m) = [1; 3; 5]%nat /\
    decoder_concats (dec m) = [1; 3]%nat.
Proof.
  assert (Hinit : exists m,
            init _ record_args (config_of two_level_arch 128 "point2point")
                 lbl_values ign_lbls = Ok m)
    by (eexists; vm_compute; reflexivity).
  destruct Hinit as [m Hinit]. exists m. split; [exact Hinit|].
  exact (ForwardTheorems.recorded_positions
           _ record_args (config_of two_level_arch 128 "point2point")
           lbl_values ign_lbls m Hinit).
Defined.

Lemma towers_depth_witness :
  exists m,
    init _ record_args (config_of two_level_arch 128 "point2point")
         lbl_values ign_lbls = Ok m /\
    List.length (encoder_blocks_3d (enc m)) = 5%nat /\
    List.length (encoder_blocks_2d (enc m)) = 5%nat /\
    List.length (decoder_blocks (dec m)) = 4%nat.
Proof.
  assert (Hinit : exists m,
            init _ record_args (config_of two_level_arch 128 "point2point")
                 lbl_values ign_lbls = Ok m)
    by (eexists; vm_compute; reflexivity).
  destruct Hinit as [m Hinit]. exists m. split; [exact Hinit|].
  destruct (DepthTheorems.towers_have_equal_depth
              _ record_args (config_of two_level_arch 128 "point2point")
              lbl_values ign_lbls m Hinit) as (H3 & H2 & Hd & _).
  repeat split; assumption.
Defined.

(** Without an upsampling block the three descriptors are built in the
    towers and once more in the decoder. *)
Lemma every_block_witness :
  exists m,
    init _ record_args
         (config_of ["simple"; "resnetb_strided"; "resnetb"] 128
                    "point2point")
         lbl_values ign_lbls = Ok m /\
    List.length (encoder_blocks_3d (enc m)) = 3%nat /\
    List.length (decoder_blocks (dec m)) = 3%nat /\
    decoder_concats (dec m) = [].
Proof.
  assert (Hinit : exists m,
            init _ record_args
                 (config_of ["simple"; "resnetb_strided"; "resnetb"] 128
                            "point2point")
                 lbl_values ign_lbls = Ok m)
    by (eexists; vm_compute; reflexivity).
  destruct Hinit as [m Hinit]. exists m. split; [exact Hinit|].
  apply (proj2 (DepthTheorems.every_block_is_built
                  _ record_args
                  (config_of ["simple"; "resnetb_strided"; "resnetb"] 128
                             "point2point")
                  lbl_values ign_lbls m Hinit)).
  vm_compute. reflexivity.
Defined.

Lemma encoder_block_witness :
  exists m,
    init _ record_args (config_of two_level_arch 128 "point2point")
         lbl_values ign_lbls = Ok m /\
    exists r in_dim,
      nth_error (encoder_blocks_3d (enc m)) 3
      = Some ("resnetb_strided", r, in_dim, 256, 1) /\
      nth_error (encoder_blocks_2d (enc m)) 3
      = Some ("resnetb_strided", r, in_dim, 256, 1).
Proof.
  assert (Hinit : exists m,
            init _ record_args (config_of two_level_arch 128 "point2point")
                 lbl_values ign_lbls = Ok m)
    by (eexists; vm_compute; reflexivity).
  destruct Hinit as [m Hinit]. exists m. split; [exact Hinit|].
  destruct (BlockTheorems.encoder_block_arguments
              _ record_args (config_of two_level_arch 128 "point2point")
              lbl_values ign_lbls m
              ["simple"; "resnetb_strided"; "resnetb"] "resnetb_strided"
              ["resnetb"; "nearest_upsample"; "unary"; "nearest_upsample";
               "unary"]
              Hinit ltac:(reflexivity) ltac:(vm_compute; reflexivity)
              ltac:(vm_compute; reflexivity))
    as (r & in_3d & in_2d & b3 & b2 & H3 & H2 & Hb3 & Hb2 & _ & _ & Heq).
  rewrite <- (Heq ltac:(discriminate)) in Hb2.
  unfold record_args in Hb3, Hb2.
  injection Hb3 as <-. injection Hb2 as <-.
  exists r, in_3d. split; [exact H3 | exact H2].
Defined.

Lemma first_decoder_block_witness :
  exists m,
    init _ record_args (config_of one_level_arch 128 "point2point")
         lbl_values ign_lbls = Ok m /\
    exists b tl,
      decoder_blocks (dec m) = b :: tl /\
      record_args "upsample" (e_r (enc m))
                  (e_in_dim_3d (enc m) + e_in_dim_2d (enc m))
                  (e_out_dim (enc m)) (e_layer (enc m)) = Ok b.
Proof.
  assert (Hinit : exists m,
            init _ record_args (config_of one_level_arch 128 "point2point")
                 lbl_values ign_lbls = Ok m)
    by (eexists; vm_compute; reflexivity).
  destruct Hinit as [m Hinit]. exists m. split; [exact Hinit|].
  exact (proj1 (BlockTheorems.first_decoder_block_input
                  _ record_args (config_of one_level_arch 128 "point2point")
                  lbl_values ign_lbls m "upsample" ["unary"]
                  Hinit ltac:(vm_compute; reflexivity))).
Defined.

Lemma decoder_block_witness :
  exists m,
    init _ record_args (config_of one_level_arch 128 "point2point")
         lbl_values ign_lbls = Ok m /\
    exists r in_dim b,
      nth_error (decoder_blocks (dec m)) 1 = Some b /\
      record_args "unary" r in_dim (e_out_dim (enc m) / 2 ^ 1)
                  (e_layer (enc m) - 1) = Ok b.
Proof.
  assert (Hinit : exists m,
            init _ record_args (config_of one_level_arch 128 "point2point")
                 lbl_values ign_lbls = Ok m)
    by (eexists; vm_compute; reflexivity).
  destruct Hinit as [m Hinit]. exists m. split; [exact Hinit|].
  destruct (DecoderTheorems.decoder_block_arguments
              _ record_args (config_of one_level_arch 128 "point2point")
              lbl_values ign_lbls m ["upsample"] "unary" []
              Hinit ltac:(vm_compute; reflexivity))
    as (r & in_dim & b & Hn & Hb & _).
  exists r, in_dim, b. split; [exact Hn | exact Hb].
Defined.

Lemma class_count_witness :
  exists m,
    init _ record_args (config_of one_level_arch 128 "point2point")
         lbl_values ign_lbls = Ok m /\
    C m = Z.of_nat (List.length (valid_labels m)).
Proof.
  assert (Hinit : exists m,
            init _ record_args (config_of one_level_arch 128 "point2point")
                 lbl_values ign_lbls = Ok m)
    by (eexists; vm_compute; reflexivity).
  destruct Hinit as [m Hinit]. exists m. split; [exact Hinit|].
  apply (LabelExtras.class_count_matches_valid_labels
           _ record_args (config_of one_level_arch 128 "point2point")
           lbl_values ign_lbls m Hinit).
  - repeat (constructor; [cbn; lia|]). constructor.
  - repeat (constructor; [cbn; lia|]). constructor.
  - intros c [<-|[]]. now left.
Defined.

(** An ignored label that is not a label value makes the last head layer
    narrower than the list of valid labels. *)
Example head_narrower_than_valid_labels :
  exists m,
    init _ record_args (config_of one_level_arch 128 "point2point")
         [0; 1; 2; 3] [7] = Ok m /\
    C m = 3 /\ List.length (valid_labels m) = 4%nat.
Proof.
  eexists. split; [vm_compute; reflexivity|].
  split; vm_compute; reflexivity.
Qed.

Lemma remap_valid_witness : loss_target [1; 2; 3] [1; 2; 3] = iota 3.
Proof.
  apply (LabelExtras.remap_valid_is_iota [1; 2; 3]).
  repeat (constructor; [cbn; lia|]). constructor.
Defined.

Lemma ignored_labels_witness :
  exists m,
    init _ record_args (config_of one_level_arch 128 "point2point")
         lbl_values ign_lbls = Ok m /\
    nth_error (loss_target (valid_labels m) [0; 2]) 0
    = Some (ce_ignore_index (criterion m)).
Proof.
  assert (Hinit : exists m,
            init _ record_args (config_of one_level_arch 128 "point2point")
                 lbl_values ign_lbls = Ok m)
    by (eexists; vm_compute; reflexivity).
  destruct Hinit as [m Hinit]. exists m. split; [exact Hinit|].
  apply (LabelExtras.ignored_labels_get_ignore_index
           _ record_args (config_of one_level_arch 128 "point2point")
           lbl_values ign_lbls m [0; 2] 0%nat 0 Hinit eq_refl).
  left. now left.
Defined.

Lemma accuracy_bounds_witness :
  exists m q,
    init _ record_args (config_of one_level_arch 128 "point2point")
         lbl_values ign_lbls = Ok m /\
    accuracy _ (list Z) (fun x => x) m [0; 1; 0] [1; 2; 0] = Ok q /\
    (0 <= q <= 1)%Q.
Proof.
  assert (Hrun : exists m q,
            init _ record_args (config_of one_level_arch 128 "point2point")
                 lbl_values ign_lbls = Ok m /\
            accuracy _ (list Z) (fun x => x) m [0; 1; 0] [1; 2; 0] = Ok q)
    by (eexists; eexists; split; vm_compute; reflexivity).
  destruct Hrun as (m & q & Hinit & Hacc). exists m, q.
  split; [exact Hinit|]. split; [exact Hacc|].
  exact (proj1 (LabelExtras.accuracy_bounds
                  _ (list Z) (fun x => x) m [0; 1; 0] [1; 2; 0] q
                  eq_refl Hacc)).
Defined.

End ExtraExamples.

Module RegularizerExtraExamples.
Import Regularizer RegularizerSpec RegularizerVariants KernelSamples.
Local Open Scope R_scope.

Lemma regularizer_nonneg_witness :
  0 <= p2p_fitting_regularizer (net_of 2).
Proof.
  apply (RegularizerExtras.regularizer_nonneg (net_of 2)).
  cbn. lra.
Defined.

Lemma regularizer_scale_witness :
  p2p_fitting_regularizer
    (with_modules (net_of 2) (map (scale_module 3) (modules (net_of 2))))
  = p2p_fitting_regularizer (net_of 2).
Proof.
  apply (RegularizerExtras.regularizer_scale_invariant (net_of 2) 3).
  - lra.
  - intros m [H|[H|[]]]; [discriminate|].
    injection H as <-. cbn. lra.
Defined.

End RegularizerExtraExamples.


